(** * txtdirect: the placeholder interpolation engine

    A shallow embedding of [parsePlaceholders] (placeholders.go) and of the
    pieces of Go's standard library it calls, followed by the properties
    of the renderer.

    Go strings are byte strings: they are modelled by [string] (a list of
    8-bit [ascii] characters).  Every character the token grammar looks at
    is ASCII, and no byte of a multi-byte UTF-8 sequence is ASCII, so the
    byte-wise reading of the regular expressions below agrees with Go's
    rune-wise one. *)

From Stdlib Require Import String Ascii List ZArith Lia Bool Permutation.
From Stdlib Require Import Decimal DecimalNat DecimalString.
Import ListNotations.

Open Scope string_scope.

(** ** Characters *)

Definition inRange (lo hi : nat) (c : ascii) : bool :=
  let n := nat_of_ascii c in (lo <=? n)%nat && (n <=? hi)%nat.

Definition isDigit (c : ascii) : bool := inRange 48 57 c.
Definition isUpper (c : ascii) : bool := inRange 65 90 c.
Definition isLower (c : ascii) : bool := inRange 97 122 c.
Definition isLetter (c : ascii) : bool := isUpper c || isLower c.

(** [\w] of RE2: ASCII letters, digits and the underscore. *)
Definition isWord (c : ascii) : bool :=
  isLetter c || isDigit c || Ascii.eqb c "_".

(** The sigil class [[~>?]]. *)
Definition isSigil (c : ascii) : bool :=
  Ascii.eqb c "~" || Ascii.eqb c ">" || Ascii.eqb c "?".

Definition toLower (c : ascii) : ascii :=
  if isUpper c then ascii_of_nat (nat_of_ascii c + 32) else c.

(** ** Package strings *)

Module strings.

(** [strings.HasPrefix s p]. *)
Definition HasPrefix (s p : string) : bool := String.prefix p s.

(** [strings.Contains s sub]. *)
Fixpoint Contains (s sub : string) : bool :=
  String.prefix sub s ||
  match s with
  | EmptyString => false
  | String _ s' => Contains s' sub
  end.

(** [strings.Replace s old new (-1)]: every non-overlapping occurrence of
    [old], found left to right, is replaced by [new].  [skip] counts the
    bytes of an occurrence that are still to be dropped.  Every call of
    [parsePlaceholders] passes a non-empty [old]; for an empty one Go
    inserts [new] at every rune boundary, which is not modelled: the
    string is returned as it is. *)
Fixpoint Replace_from (skip : nat) (s old new : string) : string :=
  match s with
  | EmptyString => EmptyString
  | String c s' =>
      match skip with
      | S k => Replace_from k s' old new
      | O =>
          if String.prefix old s
          then new ++ Replace_from (String.length old - 1) s' old new
          else String c (Replace_from 0 s' old new)
      end
  end.

Definition Replace (s old new : string) : string :=
  match old with
  | EmptyString => s
  | _ => Replace_from 0 s old new
  end.

(** [strings.Split s sep] for a separator of one byte, which is all the
    renderer uses: the pieces between the separators, always at least
    one. *)
Fixpoint Split (s : string) (sep : ascii) : list string :=
  match s with
  | EmptyString => [EmptyString]
  | String c s' =>
      if Ascii.eqb c sep then EmptyString :: Split s' sep
      else match Split s' sep with
           | x :: xs => String c x :: xs
           | [] => [String c EmptyString]
           end
  end.

(** [strings.Join elems sep]. *)
Definition Join (elems : list string) (sep : string) : string :=
  String.concat sep elems.

(** The rune at the head of [s] when it is one of the two runes beyond
    ASCII that Unicode simple case folding puts with an ASCII letter:
    U+017F, the long s (bytes C5 BF in UTF-8), with "s" and "S", and
    U+212A, the Kelvin sign (bytes E2 84 AA), with "k" and "K".  The
    result is the lower-case letter and the text after the rune. *)
Definition foldedLetter (s : string) : option (ascii * string) :=
  match s with
  | String a (String b rest) =>
      if (nat_of_ascii a =? 197)%nat && (nat_of_ascii b =? 191)%nat
      then Some ("s"%char, rest)
      else
        match rest with
        | String c rest' =>
            if (nat_of_ascii a =? 226)%nat && (nat_of_ascii b =? 132)%nat
               && (nat_of_ascii c =? 170)%nat
            then Some ("k"%char, rest')
            else None
        | EmptyString => None
        end
  | _ => None
  end.

(** [strings.EqualFold s t] for a text [t] of ASCII bytes, which is what
    the renderer calls it with: [t] is the name that a placeholder
    spells, made of word characters.  The runes of [s] are compared with
    the bytes of [t] one by one: an ASCII byte of [s] is the byte of [t]
    up to the case of the letters A-Z; a rune of [s] beyond ASCII is the
    byte of [t] when [unicode.SimpleFold] leads from one to the other,
    which it does for the long s and the Kelvin sign alone; any other
    rune, and a byte that is not UTF-8 (which [range] reads as U+FFFD),
    is no ASCII byte. *)
Fixpoint EqualFold (s t : string) {struct t} : bool :=
  match t with
  | EmptyString => match s with EmptyString => true | String _ _ => false end
  | String b t' =>
      match s with
      | EmptyString => false
      | String a s' =>
          if (nat_of_ascii a <? 128)%nat
          then Ascii.eqb (toLower a) (toLower b) && EqualFold s' t'
          else
            match foldedLetter s with
            | Some (l, rest) => Ascii.eqb l (toLower b) && EqualFold rest t'
            | None => false
            end
      end
  end.

End strings.

(** A Go slice expression [s[lo:hi]]; [None] is the run-time panic that Go
    raises when the bounds are out of range. *)
Definition slice (s : string) (lo hi : nat) : option string :=
  if (lo <=? hi)%nat && (hi <=? String.length s)%nat
  then Some (substring lo (hi - lo) s)
  else None.

(** ** Errors *)

Inductive NumErr : Type := ErrSyntax | ErrRange.

Inductive error : Type :=
| NumError (func num : string) (err : NumErr)   (* *strconv.NumError *)
| Errorf (msg : string).                       (* fmt.Errorf *)

(** ** Package strconv and fmt *)

Module strconv.

Definition maxInt : Z := 2 ^ 63 - 1.

Definition maxUint64 : Z := 2 ^ 64 - 1.

(** [ParseUint s 10 64] from the value [n] read so far: the bytes are
    read from left to right; a byte that is not a digit is a syntax
    error, a value beyond [maxUint64] a range error, whichever the scan
    meets first. *)
Fixpoint parseUint (n : Z) (s : string) : Z + NumErr :=
  match s with
  | EmptyString => inl n
  | String c s' =>
      if isDigit c then
        if (maxUint64 / 10 + 1 <=? n)%Z then inr ErrRange
        else
          let n1 := (n * 10 + (Z.of_nat (nat_of_ascii c) - 48))%Z in
          if (maxUint64 <? n1)%Z then inr ErrRange else parseUint n1 s'
      else inr ErrSyntax
  end.

(** [strconv.Atoi] on a 64-bit platform: an optional sign and at least
    one decimal digit, read by [ParseUint]; a value that does not fit an
    [int] is a range error. *)
Definition Atoi (s : string) : Z + error :=
  let '(neg, body) :=
    match s with
    | String c b =>
        if Ascii.eqb c "-" then (true, b)
        else if Ascii.eqb c "+" then (false, b)
        else (false, s)
    | EmptyString => (false, s)
    end in
  match body with
  | EmptyString => inr (NumError "Atoi" s ErrSyntax)
  | _ =>
      match parseUint 0 body with
      | inr kind => inr (NumError "Atoi" s kind)
      | inl v =>
          if neg
          then if (v <=? maxInt + 1)%Z then inl (- v)%Z
               else inr (NumError "Atoi" s ErrRange)
          else if (v <=? maxInt)%Z then inl v
               else inr (NumError "Atoi" s ErrRange)
      end
  end.

(** The verb [%d] of [fmt.Sprintf] on a non-negative [int]. *)
Definition Itoa (n : nat) : string := NilZero.string_of_uint (Nat.to_uint n).

End strconv.

(** ** Package path and net/url *)

Module path.

(** [path.Split]: the text up to and including the last slash, and the
    text after it. *)
Fixpoint Split (p : string) : string * string :=
  match p with
  | EmptyString => (EmptyString, EmptyString)
  | String c p' =>
      match Split p' with
      | (EmptyString, _) =>
          if Ascii.eqb c "/" then (String c EmptyString, p')
          else (EmptyString, p)
      | (dir, file) => (String c dir, file)
      end
  end.

End path.

Module url.

Definition hexDigit (n : nat) : ascii :=
  if (n <? 10)%nat then ascii_of_nat (48 + n) else ascii_of_nat (55 + n).

(** [shouldEscape c encodeQueryComponent]: only the unreserved characters
    are kept. *)
Definition shouldEscape (c : ascii) : bool :=
  negb (isLetter c || isDigit c || Ascii.eqb c "-" || Ascii.eqb c "_"
        || Ascii.eqb c "." || Ascii.eqb c "~").

(** [url.QueryEscape]. *)
Fixpoint QueryEscape (s : string) : string :=
  match s with
  | EmptyString => EmptyString
  | String c s' =>
      if Ascii.eqb c " " then String "+" (QueryEscape s')
      else if shouldEscape c
      then String "%" (String (hexDigit (nat_of_ascii c / 16))
                      (String (hexDigit (nat_of_ascii c mod 16)) (QueryEscape s')))
      else String c (QueryEscape s')
  end.

End url.

(** ** The token scanner *)

(** The longest run of word characters at the head of [s], and the rest. *)
Fixpoint spanWord (s : string) : string * string :=
  match s with
  | EmptyString => (EmptyString, EmptyString)
  | String c s' =>
      if isWord c
      then let '(w, rest) := spanWord s' in (String c w, rest)
      else (EmptyString, s)
  end.

(** [PlaceholderRegex], "{[~>?]?\w+}", anchored at the head of [s]: the
    text it matches there, if any.  The sigil is taken whenever it is
    there (without it [\w+] would have to start on the sigil), and [\w+]
    takes the whole run of word characters (the closing brace is not one),
    so the match is unique. *)
Definition matchPlaceholder (s : string) : option string :=
  match s with
  | String c0 s1 =>
      if Ascii.eqb c0 "{" then
        let '(sigil, s2) :=
          match s1 with
          | String c s2 => if isSigil c then (String c EmptyString, s2)
                           else (EmptyString, s1)
          | EmptyString => (EmptyString, s1)
          end in
        match spanWord s2 with
        | (String w0 w, String c1 _) =>
            if Ascii.eqb c1 "}"
            then Some (String c0 (sigil ++ String w0 w ++ String c1 EmptyString))
            else None
        | _ => None
        end
      else None
  | EmptyString => None
  end.

(** [PlaceholderRegex.FindAllStringSubmatch input (-1)], keeping of each
    match its element 0 (the whole match, the only one the renderer
    reads): the leftmost matches, none overlapping an earlier one. *)
Fixpoint FindAll_from (skip : nat) (s : string) : list string :=
  match s with
  | EmptyString => []
  | String _ s' =>
      match skip with
      | S k => FindAll_from k s'
      | O =>
          match matchPlaceholder s with
          | Some m => m :: FindAll_from (String.length m - 1) s'
          | None => FindAll_from 0 s'
          end
      end
  end.

Definition FindAllStringSubmatch (input : string) : list string :=
  FindAll_from 0 input.

(** ** The request *)

(** [r.URL]: the fields the renderer reads, and the results of the
    methods of net/url it calls on them. *)
Record URL : Type := {
  Path : string;
  RawQuery : string;
  RequestURI : string;                 (* r.URL.RequestURI() *)
  Port : string;                       (* r.URL.Port() *)
  Query : list (string * list string)  (* r.URL.Query() *)
}.

(** The value stored in the request context under "regexMatches": nothing,
    the positional captures, or the named ones.  A Go map is visited by
    [range] in an order the runtime chooses; the list of a map gives its
    entries in the order of the visit. *)
Inductive ContextValue : Type :=
| CtxNil
| CtxSlice (matches : list string)
| CtxMap (matches : list (string * string)).

(** [*http.Request].  [Header] lists the entries of the header map in the
    order [range] visits them (one order stands for the loops of a call;
    where the keys differ up to case no loop depends on it, see
    [headerLoop_perm]); [Cookies] is [r.Cookies()], the cookies of the
    Cookie header in order; [BasicAuth] is the user name and password of
    [r.BasicAuth()] when its third result is true. *)
Record Request : Type := {
  Method : string;
  Host : string;
  Url : URL;
  Header : list (string * list string);
  Cookies : list (string * string);
  BasicAuth : option (string * string);
  regexMatches : ContextValue
}.

(** [r.Cookie name]: the first cookie of that name, [None] for
    [ErrNoCookie]. *)
Fixpoint Cookie (cookies : list (string * string)) (name : string) : option string :=
  match cookies with
  | [] => None
  | (n, v) :: rest => if String.eqb n name then Some v else Cookie rest name
  end.

(** [query.Get name]: the first value of the key, the empty string when
    there is none. *)
Fixpoint Get (query : list (string * list string)) (name : string) : string :=
  match query with
  | [] => EmptyString
  | (k, vs) :: rest =>
      if String.eqb k name
      then match vs with v :: _ => v | [] => EmptyString end
      else Get rest name
  end.

(** The host without its port, as both [{hostonly}] and [{labelN}] compute
    it: the text before the first colon. *)
Definition hostonly (r : Request) : string :=
  if strings.Contains (Host r) ":"
  then hd EmptyString (strings.Split (Host r) ":")
  else Host r.

(** ** The renderer *)

(** What one iteration of the loop over the placeholders does: it goes on
    with the updated [input], returns from [parsePlaceholders], or
    panics. *)
Inductive Flow : Type :=
| Next (input : string)
| Return (s : string) (err : error)
| Panic (msg : string).

Definition andThen (f : Flow) (k : string -> Flow) : Flow :=
  match f with
  | Next input => k input
  | Return s err => Return s err
  | Panic msg => Panic msg
  end.

Notation "x <- f ;; k" := (andThen f (fun x => k))
  (at level 61, f at next level, right associativity).

(** The [switch] on the keywords. *)
Definition keywords (r : Request) (ph input : string) : string :=
  if String.eqb ph "{uri}" then strings.Replace input "{uri}" (RequestURI (Url r))
  else if String.eqb ph "{dir}" then strings.Replace input "{dir}" (fst (path.Split (Path (Url r))))
  else if String.eqb ph "{file}" then strings.Replace input "{file}" (snd (path.Split (Path (Url r))))
  else if String.eqb ph "{host}" then strings.Replace input "{host}" (Host r)
  else if String.eqb ph "{hostonly}" then strings.Replace input "{hostonly}" (hostonly r)
  else if String.eqb ph "{method}" then strings.Replace input "{method}" (Method r)
  else if String.eqb ph "{path}" then strings.Replace input "{path}" (Path (Url r))
  else if String.eqb ph "{path_escaped}"
       then strings.Replace input "{path_escaped}" (url.QueryEscape (Path (Url r)))
  else if String.eqb ph "{port}" then strings.Replace input "{port}" (Port (Url r))
  else if String.eqb ph "{query}" then strings.Replace input "{query}" (RawQuery (Url r))
  else if String.eqb ph "{query_escaped}"
       then strings.Replace input "{query_escaped}" (url.QueryEscape (RawQuery (Url r)))
  else if String.eqb ph "{uri_escaped}"
       then strings.Replace input "{uri_escaped}" (url.QueryEscape (RequestURI (Url r)))
  else if String.eqb ph "{user}" then
    match BasicAuth r with
    | None =>
        strings.Replace (strings.Replace input "{user}" EmptyString) "{user}" EmptyString
    | Some (user, _) => strings.Replace input "{user}" user
    end
  else input.

(** [{labelN}]: every placeholder that starts with "{label". *)
Definition label (r : Request) (ph input : string) : Flow :=
  if strings.HasPrefix ph "{label" then
    match slice ph 6 (String.length ph - 1) with
    | None => Panic "slice bounds out of range"
    | Some nStr =>
        match strconv.Atoi nStr with
        | inr err => Return EmptyString err
        | inl n =>
            if (n <? 1)%Z then Return EmptyString (Errorf "{label0} is not supported")
            else
              let labels := strings.Split (hostonly r) "." in
              if (Z.of_nat (List.length labels) <? n)%Z
              then Return EmptyString
                     (Errorf ("Cannot parse a label greater than "
                              ++ strconv.Itoa (List.length labels)))
              else Next (strings.Replace input ph
                           (nth (Z.to_nat (n - 1)) labels EmptyString))
        end
    end
  else Next input.

(** The loop over the header map of [{>Name}]. *)
Fixpoint headerLoop (header : list (string * list string)) (ph want input : string) : string :=
  match header with
  | [] => input
  | (key, values) :: rest =>
      headerLoop rest ph want
        (if strings.EqualFold key want
         then strings.Replace input ph (strings.Join values ",")
         else input)
  end.

(** The loop over the named captures. *)
Fixpoint namedLoop (matches : list (string * string)) (ph name input : string) : string :=
  match matches with
  | [] => input
  | (key, value) :: rest =>
      namedLoop rest ph name
        (if String.eqb key name then strings.Replace input ph value else input)
  end.

(** [placeholder[0][lo : len(placeholder[0])-1]], on which a branch goes
    on. *)
Definition body (ph : string) (lo : nat) (k : string -> Flow) : Flow :=
  match slice ph lo (String.length ph - 1) with
  | None => Panic "slice bounds out of range"
  | Some b => k b
  end.

(** [placeholder[0][1]], on which a branch goes on. *)
Definition byte1 (ph : string) (k : ascii -> Flow) : Flow :=
  match String.get 1 ph with
  | None => Panic "index out of range"
  | Some c => k c
  end.

(** [{>Name}]. *)
Definition header (r : Request) (ph input : string) : Flow :=
  byte1 ph (fun c =>
    if Ascii.eqb c ">"
    then body ph 2 (fun want => Next (headerLoop (Header r) ph want input))
    else Next input).

(** [{~name}]. *)
Definition cookie (r : Request) (ph input : string) : Flow :=
  byte1 ph (fun c =>
    if Ascii.eqb c "~"
    then body ph 2 (fun name =>
           match Cookie (Cookies r) name with
           | Some value => Next (strings.Replace input ph value)
           | None => Next input
           end)
    else Next input).

(** [{?name}]. *)
Definition query (r : Request) (ph input : string) : Flow :=
  byte1 ph (fun c =>
    if Ascii.eqb c "?"
    then body ph 2 (fun name =>
           Next (strings.Replace input ph (Get (Query (Url r)) name)))
    else Next input).

(** Numbered regex matches.  The test is on the one byte after the brace,
    which the pattern of one or more digits matches when it is a digit;
    the index is [strconv.Atoi] of that byte, and [reflect.Value.Index]
    panics on anything but an index within a slice. *)
Definition numbered (r : Request) (ph input : string) : Flow :=
  byte1 ph (fun c =>
    if isDigit c then
      match strconv.Atoi (String c EmptyString) with
      | inr _ => Return EmptyString (Errorf "couldn't get index of regex match")
      | inl index =>
          match regexMatches r with
          | CtxNil => Panic "reflect: call of reflect.Value.Index on zero Value"
          | CtxMap _ => Panic "reflect: call of reflect.Value.Index on map Value"
          | CtxSlice matches =>
              if (index - 1 <? 0)%Z || (Z.of_nat (List.length matches) <=? index - 1)%Z
              then Panic "reflect: slice index out of range"
              else Next (strings.Replace input ph
                           (nth (Z.to_nat (index - 1)) matches EmptyString))
          end
      end
    else Next input).

(** The pattern of the names, one or more letters and then digits, is not
    anchored: it matches a text as soon as the text holds a letter. *)
Definition hasLetter (s : string) : bool :=
  existsb isLetter (list_ascii_of_string s).

(** Named regex matches. *)
Definition named (r : Request) (ph input : string) : Flow :=
  body ph 1 (fun name =>
    if hasLetter name then
      match regexMatches r with
      | CtxMap matches => Next (namedLoop matches ph name input)
      | _ => Next input
      end
    else Next input).

(** The body of the loop over the placeholders. *)
Definition resolve (r : Request) (ph input : string) : Flow :=
  input <- label r ph (keywords r ph input) ;;
  input <- header r ph input ;;
  input <- cookie r ph input ;;
  input <- query r ph input ;;
  input <- numbered r ph input ;;
  named r ph input.

(** The loop over the placeholders found in the template. *)
Fixpoint placeholdersLoop (r : Request) (placeholders : list string) (input : string) : Flow :=
  match placeholders with
  | [] => Next input
  | ph :: rest =>
      input <- resolve r ph input ;;
      placeholdersLoop r rest input
  end.

(** The pass over [pathSlice]; [k] is the index of the segment at the
    head. *)
Fixpoint pathLoop (pathSlice : list string) (k : nat) (input : string) : string :=
  match pathSlice with
  | [] => input
  | v :: rest =>
      pathLoop rest (S k)
        (strings.Replace input ("{$" ++ strconv.Itoa (k + 1) ++ "}") v)
  end.

(** What a call of [parsePlaceholders] comes to: the pair it returns, or a
    panic. *)
Inductive Result : Type :=
| Returned (s : string) (err : option error)
| Panicked (msg : string).

Definition parsePlaceholders (input : string) (r : Request) (pathSlice : list string) : Result :=
  let placeholders := FindAllStringSubmatch input in
  match placeholdersLoop r placeholders input with
  | Next input => Returned (pathLoop pathSlice 0 input) None
  | Return s err => Returned s (Some err)
  | Panic msg => Panicked msg
  end.

(** ** The set-up of the plugin *)

(** [allOptions]. *)
Definition allOptions : list string := ["host"; "path"; "gometa"; "www"].

(** The inner loop of [removeArrayFromArray]: the index at which it
    breaks, that of the first element equal to [toRemove]. *)
Fixpoint indexOf (tmp : list string) (toRemove : string) : option nat :=
  match tmp with
  | [] => None
  | option :: rest =>
      if String.eqb option toRemove then Some 0
      else option_map S (indexOf rest toRemove)
  end.

(** [tmp[i] = x]. *)
Fixpoint store (i : nat) (x : string) (tmp : list string) : list string :=
  match tmp, i with
  | [], _ => []
  | _ :: rest, O => x :: rest
  | y :: rest, S j => y :: store j x rest
  end.

(** One round of the outer loop: the first element equal to [toRemove] is
    overwritten with the last element, and the slice loses its last
    element. *)
Definition removeOne (tmp : list string) (toRemove : string) : list string :=
  match indexOf tmp toRemove with
  | Some i => removelast (store i (last tmp EmptyString) tmp)
  | None => tmp
  end.

(** [removeArrayFromArray]: the rounds run on a copy of [array]. *)
Definition removeArrayFromArray (array toBeRemoved : list string) : list string :=
  fold_left removeOne toBeRemoved array.

(** [identical] of the tests; a slice is [None] when it is [nil]. *)
Definition identical (s1 s2 : option (list string)) : bool :=
  match s1, s2 with
  | None, None => true
  | None, Some _ => false
  | Some _, None => false
  | Some l1, Some l2 =>
      if negb (Nat.eqb (List.length l1) (List.length l2)) then false
      else forallb (fun i => String.eqb (nth i l1 EmptyString) (nth i l2 EmptyString))
             (seq 0 (List.length l1))
  end.

(** ** Vocabulary of the statements *)

(** A text without an opening brace: literal text around the tokens, or a
    value that cannot bring a token of its own into the output. *)
Fixpoint braceFree (s : string) : bool :=
  match s with
  | EmptyString => true
  | String c s' => negb (Ascii.eqb c "{") && braceFree s'
  end.

Fixpoint allWord (s : string) : bool :=
  match s with
  | EmptyString => true
  | String c s' => isWord c && allWord s'
  end.

Fixpoint allDigits (s : string) : bool :=
  match s with
  | EmptyString => true
  | String c s' => isDigit c && allDigits s'
  end.

(** One or more word characters: what stands between the braces (and
    after the sigil) of a token, and what the name of a capture group of
    Go's regexp is made of. *)
Definition wordString (s : string) : bool :=
  match s with
  | EmptyString => false
  | String _ _ => allWord s
  end.

Fixpoint lettersThenDigits (s : string) : bool :=
  match s with
  | EmptyString => true
  | String c s' => if isLetter c then lettersThenDigits s' else isDigit c && allDigits s'
  end.

(** Name syntax: letters, optionally followed by digits. *)
Definition isName (s : string) : bool :=
  match s with
  | EmptyString => false
  | String c _ => isLetter c && lettersThenDigits s
  end.

(** The keywords of the [switch]. *)
Definition reserved : list string :=
  ["uri"; "dir"; "file"; "host"; "hostonly"; "method"; "path"; "path_escaped";
   "port"; "query"; "query_escaped"; "uri_escaped"; "user"].

Definition isReserved (name : string) : bool :=
  existsb (String.eqb name) reserved.

(** What the [switch] substitutes for the keyword [name]; [None] when
    [name] is no keyword. *)
Definition keywordValue (r : Request) (name : string) : option string :=
  if String.eqb name "uri" then Some (RequestURI (Url r))
  else if String.eqb name "dir" then Some (fst (path.Split (Path (Url r))))
  else if String.eqb name "file" then Some (snd (path.Split (Path (Url r))))
  else if String.eqb name "host" then Some (Host r)
  else if String.eqb name "hostonly" then Some (hostonly r)
  else if String.eqb name "method" then Some (Method r)
  else if String.eqb name "path" then Some (Path (Url r))
  else if String.eqb name "path_escaped" then Some (url.QueryEscape (Path (Url r)))
  else if String.eqb name "port" then Some (Port (Url r))
  else if String.eqb name "query" then Some (RawQuery (Url r))
  else if String.eqb name "query_escaped" then Some (url.QueryEscape (RawQuery (Url r)))
  else if String.eqb name "uri_escaped" then Some (url.QueryEscape (RequestURI (Url r)))
  else if String.eqb name "user"
       then Some (match BasicAuth r with Some (user, _) => user | None => EmptyString end)
  else None.

(** The number of bytes [c] in [s]. *)
Fixpoint countByte (c : ascii) (s : string) : nat :=
  match s with
  | EmptyString => 0
  | String a s' => (if Ascii.eqb a c then 1 else 0) + countByte c s'
  end.

(** The text of a token: [token "~" "session"] is "{~session}". *)
Definition token (sigil name : string) : string :=
  "{" ++ sigil ++ name ++ "}".

(** The optional sigil of a token. *)
Definition isSigilString (sg : string) : bool :=
  match sg with
  | EmptyString => true
  | String c EmptyString => isSigil c
  | _ => false
  end.

(** The shape of every match of the scanner: a brace, a byte that is not
    a dollar, and no further opening brace. *)
Definition tokenShaped (m : string) : bool :=
  match m with
  | String c0 (String c w) =>
      Ascii.eqb c0 "{" && negb (Ascii.eqb c "$") && braceFree (String c w)
  | _ => false
  end.

(** The text [fmt.Sprintf "{$%d}" n]. *)
Definition pathToken (n : nat) : string := token "$" (strconv.Itoa n).

(** Text of ASCII bytes. *)
Definition isASCII (s : string) : bool :=
  forallb (fun c => (nat_of_ascii c <? 128)%nat) (list_ascii_of_string s).

(** The keys of the header map are ASCII text, as the field names of
    HTTP are. *)
Definition headerKeysASCII (header : list (string * list string)) : bool :=
  forallb (fun kv => isASCII (fst kv)) header.

(** The header map, one of ASCII keys, holds no two keys that are equal
    up to case, as the canonical keys of net/http. *)
Fixpoint headerKeysDistinct (header : list (string * list string)) : bool :=
  match header with
  | [] => true
  | (key, _) :: rest =>
      forallb (fun kv => negb (strings.EqualFold key (fst kv))) rest
      && headerKeysDistinct rest
  end.

(** The keys of the named captures are names of capture groups. *)
Definition captureNamesOk (c : ContextValue) : bool :=
  match c with
  | CtxMap matches => forallb (fun kv => wordString (fst kv)) matches
  | _ => true
  end.

(** Two context values that hold the same captures: for a map, the same
    entries, whatever the order of the visit. *)
Inductive sameCaptures : ContextValue -> ContextValue -> Prop :=
| same_nil : sameCaptures CtxNil CtxNil
| same_slice l : sameCaptures (CtxSlice l) (CtxSlice l)
| same_map m1 m2 :
    NoDup (map fst m1) -> Permutation m1 m2 -> sameCaptures (CtxMap m1) (CtxMap m2).

(** Two requests that are the same Go value: they agree on every field,
    the two maps up to the order in which [range] visits them. *)
Record sameRequest (r1 r2 : Request) : Prop := {
  same_Method : Method r1 = Method r2;
  same_Host : Host r1 = Host r2;
  same_Url : Url r1 = Url r2;
  same_Header : Permutation (Header r1) (Header r2);
  same_Cookies : Cookies r1 = Cookies r2;
  same_BasicAuth : BasicAuth r1 = BasicAuth r2;
  same_regexMatches : sameCaptures (regexMatches r1) (regexMatches r2)
}.

(** A template made of literal text and path-segment tokens. *)
Inductive piece : Type :=
| Lit (text : string)
| Seg (n : nat).

Definition showPiece (p : piece) : string :=
  match p with
  | Lit text => text
  | Seg n => pathToken n
  end.

Fixpoint showPieces (ps : list piece) : string :=
  match ps with
  | [] => EmptyString
  | p :: rest => showPiece p ++ showPieces rest
  end.

(** What the second pass is to make of a piece: a token whose index is
    within the segments becomes the segment, any other piece stays. *)
Definition expandPiece (pathSlice : list string) (p : piece) : string :=
  match p with
  | Lit text => text
  | Seg O => pathToken 0
  | Seg (S i) =>
      match nth_error pathSlice i with
      | Some v => v
      | None => pathToken (S i)
      end
  end.

Fixpoint expandPieces (pathSlice : list string) (ps : list piece) : string :=
  match ps with
  | [] => EmptyString
  | p :: rest => expandPiece pathSlice p ++ expandPieces pathSlice rest
  end.

(** The pieces after the pass over [pathSlice] whose first segment has
    index [k]: the tokens [{$k+1}], [{$k+2}], ... it covers are text. *)
Definition expandFrom (k : nat) (pathSlice : list string) (p : piece) : piece :=
  match p with
  | Lit text => Lit text
  | Seg n =>
      if (k <? n)%nat
      then match nth_error pathSlice (n - k - 1) with
           | Some v => Lit v
           | None => Seg n
           end
      else Seg n
  end.

Definition litsBraceFree (ps : list piece) : bool :=
  forallb (fun p => match p with Lit text => braceFree text | Seg _ => true end) ps.

(** A request with nothing in it, to build examples from. *)
Definition emptyURL : URL :=
  {| Path := "/"; RawQuery := ""; RequestURI := "/"; Port := ""; Query := [] |}.

Definition emptyRequest : Request :=
  {| Method := "GET"; Host := "example.com"; Url := emptyURL; Header := [];
     Cookies := []; BasicAuth := None; regexMatches := CtxNil |}.

Definition withHost (h : string) (r : Request) : Request :=
  {| Method := Method r; Host := h; Url := Url r; Header := Header r;
     Cookies := Cookies r; BasicAuth := BasicAuth r; regexMatches := regexMatches r |}.

Definition withHeader (h : list (string * list string)) (r : Request) : Request :=
  {| Method := Method r; Host := Host r; Url := Url r; Header := h;
     Cookies := Cookies r; BasicAuth := BasicAuth r; regexMatches := regexMatches r |}.

Definition withCookies (c : list (string * string)) (r : Request) : Request :=
  {| Method := Method r; Host := Host r; Url := Url r; Header := Header r;
     Cookies := c; BasicAuth := BasicAuth r; regexMatches := regexMatches r |}.

Definition withCaptures (c : ContextValue) (r : Request) : Request :=
  {| Method := Method r; Host := Host r; Url := Url r; Header := Header r;
     Cookies := Cookies r; BasicAuth := BasicAuth r; regexMatches := c |}.

(** The text made of [gaps] with [matches] between them, in order. *)
Fixpoint weave (gaps matches : list string) : string :=
  match gaps, matches with
  | g :: gaps', m :: matches' => g ++ m ++ weave gaps' matches'
  | g :: _, [] => g
  | [], _ => EmptyString
  end.

(** ** Templates of text and tokens *)

(** A part of a template: text, or a token of the scanner. *)
Inductive item : Type :=
| Text (s : string)
| Tok (sg name : string).

Definition showItem (i : item) : string :=
  match i with
  | Text s => s
  | Tok sg name => token sg name
  end.

Fixpoint showItems (items : list item) : string :=
  match items with
  | [] => EmptyString
  | i :: rest => showItem i ++ showItems rest
  end.

(** Text without an opening brace, and tokens as the scanner reports
    them. *)
Definition itemOk (i : item) : bool :=
  match i with
  | Text s => braceFree s
  | Tok sg name => isSigilString sg && wordString name
  end.

Fixpoint tokensOf (items : list item) : list string :=
  match items with
  | [] => []
  | Text _ :: rest => tokensOf rest
  | Tok sg name :: rest => token sg name :: tokensOf rest
  end.

(** The string that a call returns. *)
Definition outputOf (res : Result) : string :=
  match res with
  | Returned s _ => s
  | Panicked _ => EmptyString
  end.

(** The parts of a template, each rendered alone, one after the other. *)
Fixpoint renderItems (r : Request) (items : list item) : string :=
  match items with
  | [] => EmptyString
  | i :: rest => outputOf (parsePlaceholders (showItem i) r []) ++ renderItems r rest
  end.

(** The values of a request that a token can bring into the output. *)
Definition requestValues (r : Request) : list string :=
  [Method r; Host r; Path (Url r); RawQuery (Url r); RequestURI (Url r); Port (Url r)]
  ++ List.concat (map snd (Query (Url r)))
  ++ List.concat (map snd (Header r))
  ++ map snd (Cookies r)
  ++ match BasicAuth r with Some (user, _) => [user] | None => [] end
  ++ match regexMatches r with
     | CtxNil => []
     | CtxSlice matches => matches
     | CtxMap matches => map snd matches
     end.

(** [strings.Replace] of [ph], by each of [values] in turn. *)
Definition replaceAll (ph : string) (values : list string) (x : string) : string :=
  fold_left (fun y v => strings.Replace y ph v) values x.

(** A step that, whatever the string is, replaces [ph] by the same
    brace-free values, or leaves the function in the same way. *)
Definition uniform (ph : string) (f : string -> Flow) : Prop :=
  (exists values, forallb braceFree values = true
                  /\ forall x, f x = Next (replaceAll ph values x))
  \/ (exists res, (forall y, res <> Next y) /\ forall x, f x = res).

(** The token [ph] replaced by the text [v]. *)
Definition substItem (ph v : string) (i : item) : item :=
  match i with
  | Text s => Text s
  | Tok sg name => if String.eqb (token sg name) ph then Text v else i
  end.

(** A token that is among [ts] and that the renderer does not leave as
    it is, replaced by its rendering. *)
Definition settleItem (r : Request) (ts : list string) (i : item) : item :=
  match i with
  | Text s => Text s
  | Tok sg name =>
      let v := outputOf (parsePlaceholders (token sg name) r []) in
      if existsb (String.eqb (token sg name)) ts && negb (String.eqb v (token sg name))
      then Text v
      else i
  end.

(** ** Templates of text, tokens and path-segment tokens *)

(** Text in which every opening brace is followed by a dollar: the
    scanner finds no token in it. *)
Fixpoint inert (s : string) : bool :=
  match s with
  | EmptyString => true
  | String c s' =>
      (if Ascii.eqb c "{"
       then match s' with
            | String d _ => Ascii.eqb d "$"
            | EmptyString => false
            end
       else true)
      && inert s'
  end.

(** Text in which no opening brace is followed by a dollar or ends the
    text: no path-segment token begins in it, whatever follows it. *)
Fixpoint dollarFree (s : string) : bool :=
  match s with
  | EmptyString => true
  | String c s' =>
      (if Ascii.eqb c "{"
       then match s' with
            | String d _ => negb (Ascii.eqb d "$")
            | EmptyString => false
            end
       else true)
      && dollarFree s'
  end.

Definition itemInert (i : item) : bool :=
  match i with
  | Text s => inert s
  | Tok sg name => isSigilString sg && wordString name
  end.

Definition litsDollarFree (ps : list piece) : bool :=
  forallb (fun p => match p with Lit text => dollarFree text | Seg _ => true end) ps.

(** A part of a template: text, a token of the scanner, or a
    path-segment token. *)
Inductive part : Type :=
| PText (s : string)
| PTok (sg name : string)
| PSeg (n : nat).

Definition showPart (p : part) : string :=
  match p with
  | PText s => s
  | PTok sg name => token sg name
  | PSeg n => pathToken n
  end.

Fixpoint showParts (parts : list part) : string :=
  match parts with
  | [] => EmptyString
  | p :: rest => showPart p ++ showParts rest
  end.

Definition partOk (p : part) : bool :=
  match p with
  | PText s => braceFree s
  | PTok sg name => isSigilString sg && wordString name
  | PSeg _ => true
  end.

(** For the first pass a path-segment token is text. *)
Definition itemOfPart (p : part) : item :=
  match p with
  | PText s => Text s
  | PTok sg name => Tok sg name
  | PSeg n => Text (pathToken n)
  end.

(** For the second pass what the first one made of a token is text. *)
Definition settledPiece (r : Request) (p : part) : piece :=
  match p with
  | PText s => Lit s
  | PTok sg name => Lit (outputOf (parsePlaceholders (token sg name) r []))
  | PSeg n => Seg n
  end.

(** The Kelvin sign, U+212A, in UTF-8. *)
Definition kelvinSign : string :=
  String (ascii_of_nat 226) (String (ascii_of_nat 132) (String (ascii_of_nat 170) "")).

(** * Properties *)

(** ** Strings *)

Lemma append_nil_r (s : string) : s ++ "" = s.
Proof. induction s as [|c s IH]; simpl; [reflexivity | now rewrite IH]. Qed.

Lemma append_assoc (a b c : string) : (a ++ b) ++ c = a ++ b ++ c.
Proof. induction a as [|x a IH]; simpl; [reflexivity | now rewrite IH]. Qed.

Lemma length_append (a b : string) :
  String.length (a ++ b) = String.length a + String.length b.
Proof. induction a as [|x a IH]; simpl; [reflexivity | now rewrite IH]. Qed.

Lemma prefix_append (p s : string) : String.prefix p (p ++ s) = true.
Proof.
  induction p as [|c p IH]; simpl.
  - now destruct s.
  - destruct (ascii_dec c c) as [_|n]; [exact IH | now destruct n].
Qed.

Lemma prefix_head (a c : ascii) (p s : string) :
  a <> c -> String.prefix (String a p) (String c s) = false.
Proof. intros n. simpl. now destruct (ascii_dec a c). Qed.

Lemma prefix_cons (a : ascii) (p s : string) :
  String.prefix (String a p) (String a s) = String.prefix p s.
Proof. simpl. destruct (ascii_dec a a) as [_|n]; [reflexivity | now destruct n]. Qed.

Lemma prefix_nil (s : string) : String.prefix "" s = true.
Proof. now destruct s. Qed.

Lemma braceFree_append (a b : string) :
  braceFree (a ++ b) = braceFree a && braceFree b.
Proof.
  induction a as [|c a IH]; simpl; [reflexivity|].
  now rewrite IH, andb_assoc.
Qed.

Lemma braceFree_concat (v : string) (chunks : list string) :
  braceFree v = true -> forallb braceFree chunks = true ->
  braceFree (String.concat v chunks) = true.
Proof.
  intros Hv. induction chunks as [|c chunks IH]; simpl; [reflexivity|].
  intros H. apply andb_true_iff in H as [Hc Hr].
  destruct chunks as [|c' chunks]; [exact Hc|].
  rewrite !braceFree_append, Hc, Hv. simpl. exact (IH Hr).
Qed.

Lemma allWord_braceFree (s : string) : allWord s = true -> braceFree s = true.
Proof.
  induction s as [|c s IH]; simpl; [reflexivity|].
  intros H. apply andb_true_iff in H as [Hc Hs].
  rewrite (IH Hs), andb_true_r.
  destruct (Ascii.eqb_spec c "{") as [->|]; [discriminate Hc | reflexivity].
Qed.

(** ** strings.Replace *)

Section ReplaceFacts.

(** The text to replace: it is never empty. *)
Variables (a : ascii) (w new : string).
Let old : string := String a w.

Lemma Replace_from_skip (l s : string) :
  strings.Replace_from (String.length l) (l ++ s) old new
  = strings.Replace_from 0 s old new.
Proof.
  induction l as [|c l IH]; simpl; [reflexivity | exact IH].
Qed.

(** An occurrence at the head is replaced, and the scan goes on after
    it. *)
Lemma Replace_occurrence (s : string) :
  strings.Replace (old ++ s) old new = new ++ strings.Replace s old new.
Proof.
  unfold strings.Replace, old. cbn [append strings.Replace_from].
  change (String a (w ++ s)) with (String a w ++ s).
  rewrite prefix_append.
  replace (String.length (String a w) - 1) with (String.length w)
    by (cbn [String.length]; lia).
  now rewrite Replace_from_skip.
Qed.

(** A byte at which no occurrence starts is copied. *)
Lemma Replace_copy (c : ascii) (s : string) :
  String.prefix old (String c s) = false ->
  strings.Replace (String c s) old new = String c (strings.Replace s old new).
Proof.
  intros H. unfold strings.Replace, old in *. cbn [strings.Replace_from].
  now rewrite H.
Qed.

Lemma Replace_empty : strings.Replace "" old new = "".
Proof. reflexivity. Qed.

(** Text without the first byte of [old] is copied. *)
Lemma Replace_without_head (l s : string) :
  forallb (fun c => negb (Ascii.eqb c a)) (list_ascii_of_string l) = true ->
  strings.Replace (l ++ s) old new = l ++ strings.Replace s old new.
Proof.
  induction l as [|c l IH]; cbn [append list_ascii_of_string forallb]; [reflexivity|].
  intros H. apply andb_true_iff in H as [Hc Hl].
  rewrite Replace_copy, (IH Hl); [reflexivity|].
  apply prefix_head. intros ->. now rewrite Ascii.eqb_refl in Hc.
Qed.

(** Where [old] does not occur nothing changes. *)
Lemma Replace_absent (s : string) :
  strings.Contains s old = false -> strings.Replace s old new = s.
Proof.
  induction s as [|c s IH]; [reflexivity|].
  cbn [strings.Contains]. intros H. apply orb_false_iff in H as [Hp Hs].
  now rewrite Replace_copy, (IH Hs).
Qed.

End ReplaceFacts.

Lemma braceFree_forallb (l : string) :
  braceFree l = forallb (fun c => negb (Ascii.eqb c "{")) (list_ascii_of_string l).
Proof. induction l as [|c l IH]; simpl; [reflexivity | now rewrite IH]. Qed.

(** Brace-free text in front of the text scanned is copied, whatever token
    is replaced. *)
Lemma Replace_braceFree_app (w new l s : string) :
  braceFree l = true ->
  strings.Replace (l ++ s) (String "{" w) new = l ++ strings.Replace s (String "{" w) new.
Proof.
  intros H. apply Replace_without_head. now rewrite <- braceFree_forallb.
Qed.

Lemma Replace_braceFree (w new s : string) :
  braceFree s = true -> strings.Replace s (String "{" w) new = s.
Proof.
  intros H. rewrite <- (append_nil_r s) at 1.
  rewrite Replace_braceFree_app by exact H.
  now rewrite Replace_empty, append_nil_r.
Qed.

(** Replacing a token in a template that is made of brace-free chunks with
    the token between them puts the value between the chunks. *)
Lemma Replace_concat (w v : string) (chunks : list string) :
  braceFree w = true -> forallb braceFree chunks = true ->
  strings.Replace (String.concat (String "{" w) chunks) (String "{" w) v
  = String.concat v chunks.
Proof.
  intros Hw. induction chunks as [|c chunks IH]; [reflexivity|].
  cbn [forallb]. intros H. apply andb_true_iff in H as [Hc Hr].
  destruct chunks as [|c' chunks].
  - cbn [String.concat]. now apply Replace_braceFree.
  - change (String.concat ?sep (c :: c' :: chunks))
      with (c ++ sep ++ String.concat sep (c' :: chunks)).
    rewrite Replace_braceFree_app by exact Hc.
    rewrite Replace_occurrence. now rewrite (IH Hr).
Qed.

(** ** The scanner *)

Lemma isWord_not_sigil (c : ascii) : isWord c = true -> isSigil c = false.
Proof.
  intros H. unfold isSigil.
  destruct (Ascii.eqb_spec c "~") as [->|]; [discriminate H|].
  destruct (Ascii.eqb_spec c ">") as [->|]; [discriminate H|].
  destruct (Ascii.eqb_spec c "?") as [->|]; [discriminate H | reflexivity].
Qed.

Lemma isLetter_isWord (c : ascii) : isLetter c = true -> isWord c = true.
Proof. intros H. unfold isWord. now rewrite H. Qed.

Lemma isDigit_isWord (c : ascii) : isDigit c = true -> isWord c = true.
Proof. intros H. unfold isWord. rewrite H. now rewrite orb_true_r. Qed.

Lemma isLetter_not_digit (c : ascii) : isLetter c = true -> isDigit c = false.
Proof.
  unfold isLetter, isDigit, isUpper, isLower, inRange. cbv zeta.
  destruct (48 <=? nat_of_ascii c)%nat eqn:E1, (nat_of_ascii c <=? 57)%nat eqn:E2;
    try reflexivity.
  apply Nat.leb_le in E2. intros H. apply orb_true_iff in H as [H|H];
    apply andb_true_iff in H as [H _]; apply Nat.leb_le in H; lia.
Qed.

(** The run of word characters stops at the first byte that is not one. *)
Lemma spanWord_stop (w : string) (c : ascii) (s : string) :
  allWord w = true -> isWord c = false ->
  spanWord (w ++ String c s) = (w, String c s).
Proof.
  intros Hw Hc. induction w as [|x w IH]; cbn [append spanWord].
  - now rewrite Hc.
  - cbn [allWord] in Hw. apply andb_true_iff in Hw as [Hx Hw].
    now rewrite Hx, (IH Hw).
Qed.

(** The regular expression matches a token at the head of a text, and
    matches all of it. *)
Lemma matchPlaceholder_token (sg name s : string) :
  isSigilString sg = true -> wordString name = true ->
  matchPlaceholder (token sg name ++ s) = Some (token sg name).
Proof.
  intros Hsg Hname. destruct name as [|n0 name]; [discriminate Hname|].
  cbn [wordString] in Hname.
  assert (Hspan : spanWord (String n0 name ++ String "}" s) = (String n0 name, String "}" s))
    by (apply spanWord_stop; [exact Hname | reflexivity]).
  destruct sg as [|c [|? ?]]; try discriminate Hsg.
  - unfold token. cbn [append] in *. unfold matchPlaceholder.
    cbn [Ascii.eqb Bool.eqb].
    cbn [allWord] in Hname. apply andb_true_iff in Hname as [H0 _].
    rewrite (isWord_not_sigil _ H0), append_assoc. cbn [append].
    rewrite Hspan. cbn [Ascii.eqb Bool.eqb]. reflexivity.
  - unfold token. cbn [append] in *. unfold matchPlaceholder.
    cbn [Ascii.eqb Bool.eqb]. cbn [isSigilString] in Hsg. rewrite Hsg.
    rewrite append_assoc. cbn [append].
    rewrite Hspan. cbn [Ascii.eqb Bool.eqb]. reflexivity.
Qed.

Lemma matchPlaceholder_head (c : ascii) (s : string) :
  Ascii.eqb c "{" = false -> matchPlaceholder (String c s) = None.
Proof. intros H. unfold matchPlaceholder. now rewrite H. Qed.

Lemma FindAll_from_skip (l s : string) :
  FindAll_from (String.length l) (l ++ s) = FindAll_from 0 s.
Proof. induction l as [|c l IH]; simpl; [reflexivity | exact IH]. Qed.

(** A match at the head is reported, and the scan goes on after it. *)
Lemma FindAll_match (c : ascii) (m s : string) :
  matchPlaceholder (String c m ++ s) = Some (String c m) ->
  FindAllStringSubmatch (String c m ++ s) = String c m :: FindAllStringSubmatch s.
Proof.
  intros H. unfold FindAllStringSubmatch.
  cbn [append FindAll_from]. cbn [append] in H. rewrite H.
  replace (String.length (String c m) - 1) with (String.length m)
    by (cbn [String.length]; lia).
  now rewrite FindAll_from_skip.
Qed.

Lemma FindAll_no_match (c : ascii) (s : string) :
  matchPlaceholder (String c s) = None ->
  FindAllStringSubmatch (String c s) = FindAllStringSubmatch s.
Proof. intros H. unfold FindAllStringSubmatch. cbn [FindAll_from]. now rewrite H. Qed.

(** No token starts in brace-free text. *)
Lemma FindAll_braceFree_app (l s : string) :
  braceFree l = true ->
  FindAllStringSubmatch (l ++ s) = FindAllStringSubmatch s.
Proof.
  induction l as [|c l IH]; cbn [append braceFree]; [reflexivity|].
  intros H. apply andb_true_iff in H as [Hc Hl].
  rewrite FindAll_no_match; [exact (IH Hl)|].
  apply matchPlaceholder_head. now apply negb_true_iff.
Qed.

Lemma FindAll_braceFree (s : string) :
  braceFree s = true -> FindAllStringSubmatch s = [].
Proof.
  intros H. rewrite <- (append_nil_r s). now rewrite FindAll_braceFree_app.
Qed.

Lemma token_cons (sg name : string) :
  token sg name = String "{" (sg ++ name ++ "}").
Proof. reflexivity. Qed.

Lemma FindAll_token (sg name s : string) :
  isSigilString sg = true -> wordString name = true ->
  FindAllStringSubmatch (token sg name ++ s)
  = token sg name :: FindAllStringSubmatch s.
Proof.
  intros Hsg Hname. pose proof (matchPlaceholder_token sg name s Hsg Hname) as Hm.
  rewrite token_cons in *. now apply FindAll_match.
Qed.

(** The tokens of a template made of brace-free chunks with one token
    between them: that token, once for each place. *)
Lemma FindAll_concat (sg name : string) (chunks : list string) :
  isSigilString sg = true -> wordString name = true ->
  forallb braceFree chunks = true ->
  FindAllStringSubmatch (String.concat (token sg name) chunks)
  = repeat (token sg name) (List.length chunks - 1).
Proof.
  intros Hsg Hname. induction chunks as [|c chunks IH]; [reflexivity|].
  cbn [forallb]. intros H. apply andb_true_iff in H as [Hc Hr].
  destruct chunks as [|c' chunks].
  - cbn [String.concat]. now apply FindAll_braceFree.
  - change (String.concat ?sep (c :: c' :: chunks))
      with (c ++ sep ++ String.concat sep (c' :: chunks)).
    rewrite FindAll_braceFree_app by exact Hc.
    rewrite FindAll_token by assumption.
    rewrite (IH Hr). cbn [List.length Nat.sub repeat]. now rewrite Nat.sub_0_r.
Qed.

(** ** The pieces of a token *)

Lemma substring_head (b c : string) : substring 0 (String.length b) (b ++ c) = b.
Proof.
  induction b as [|x b IH]; cbn [String.length append substring].
  - now destruct c.
  - now rewrite IH.
Qed.

Lemma substring_skip (a s : string) (n : nat) :
  substring (String.length a) n (a ++ s) = substring 0 n s.
Proof. induction a as [|x a IH]; cbn [String.length append substring]; auto. Qed.

(** The slice between what comes before a text and the closing brace. *)
Lemma slice_inner (a b : string) :
  slice (a ++ b ++ "}") (String.length a) (String.length (a ++ b ++ "}") - 1) = Some b.
Proof.
  unfold slice. rewrite !length_append. cbn [String.length].
  replace (String.length a + (String.length b + 1) - 1)
    with (String.length a + String.length b) by lia.
  replace (String.length a + String.length b - String.length a)
    with (String.length b) by lia.
  replace (String.length a <=? String.length a + String.length b)%nat with true
    by (symmetry; apply Nat.leb_le; lia).
  replace (String.length a + String.length b <=? String.length a + (String.length b + 1))%nat
    with true by (symmetry; apply Nat.leb_le; lia).
  cbn [andb]. now rewrite substring_skip, substring_head.
Qed.

Lemma body_token_name (c : ascii) (name : string) (k : string -> Flow) :
  body (token (String c "") name) 2 k = k name.
Proof.
  unfold body.
  change (token (String c "") name) with (String "{" (String c "") ++ name ++ "}").
  change 2 with (String.length (String "{" (String c ""))).
  now rewrite slice_inner.
Qed.

Lemma body_token (sg name : string) (k : string -> Flow) :
  body (token sg name) 1 k = k (sg ++ name).
Proof.
  unfold body, token. rewrite <- (append_assoc sg name "}").
  change 1 with (String.length "{").
  now rewrite slice_inner.
Qed.

Lemma byte1_sigil (c : ascii) (name : string) (k : ascii -> Flow) :
  byte1 (token (String c "") name) k = k c.
Proof. reflexivity. Qed.

(** ** The branches that a token does not take *)

Lemma append_close_inj (x y : string) : x ++ "}" = y ++ "}" -> x = y.
Proof.
  revert y. induction x as [|a x IH]; intros [|b y] H; cbn [append] in H.
  - reflexivity.
  - injection H as _ H. now destruct y.
  - injection H as _ H. now destruct x.
  - injection H as -> H. now rewrite (IH _ H).
Qed.

Lemma eqb_token_plain (x y : string) :
  String.eqb (token "" x) (token "" y) = String.eqb x y.
Proof.
  destruct (String.eqb_spec x y) as [->|n].
  - apply String.eqb_refl.
  - apply String.eqb_neq. unfold token. cbn [append]. intros H.
    injection H as H. now apply append_close_inj in H.
Qed.

(** A name that is not a keyword passes the [switch]. *)
Lemma keywords_plain (r : Request) (name input : string) :
  isReserved name = false -> keywords r (token "" name) input = input.
Proof.
  unfold isReserved, reserved. cbn [existsb]. intros H.
  repeat (apply orb_false_iff in H as [? H]).
  unfold keywords.
  repeat match goal with
  | |- context [String.eqb (token "" name) ?k] =>
      change k with (token "" (substring 1 (String.length k - 2) k));
      cbn [substring String.length Nat.sub];
      rewrite eqb_token_plain
  end.
  repeat match goal with
  | E : String.eqb name _ = false |- _ => rewrite E; clear E
  end.
  reflexivity.
Qed.

(** So does a token with a sigil. *)
Lemma keywords_sigil (r : Request) (c : ascii) (name input : string) :
  isSigil c = true -> keywords r (token (String c "") name) input = input.
Proof.
  unfold isSigil. intros H.
  destruct (Ascii.eqb_spec c "~") as [->|]; [reflexivity|].
  destruct (Ascii.eqb_spec c ">") as [->|]; [reflexivity|].
  destruct (Ascii.eqb_spec c "?") as [->|]; [reflexivity | discriminate H].
Qed.

Lemma label_other (r : Request) (ph input : string) :
  strings.HasPrefix ph "{label" = false -> label r ph input = Next input.
Proof. intros H. unfold label. now rewrite H. Qed.

Lemma header_other (r : Request) (c : ascii) (ph input : string) :
  String.get 1 ph = Some c -> Ascii.eqb c ">" = false -> header r ph input = Next input.
Proof. intros Hg Hc. unfold header, byte1. now rewrite Hg, Hc. Qed.

Lemma cookie_other (r : Request) (c : ascii) (ph input : string) :
  String.get 1 ph = Some c -> Ascii.eqb c "~" = false -> cookie r ph input = Next input.
Proof. intros Hg Hc. unfold cookie, byte1. now rewrite Hg, Hc. Qed.

Lemma query_other (r : Request) (c : ascii) (ph input : string) :
  String.get 1 ph = Some c -> Ascii.eqb c "?" = false -> query r ph input = Next input.
Proof. intros Hg Hc. unfold query, byte1. now rewrite Hg, Hc. Qed.

Lemma numbered_other (r : Request) (c : ascii) (ph input : string) :
  String.get 1 ph = Some c -> isDigit c = false -> numbered r ph input = Next input.
Proof. intros Hg Hc. unfold numbered, byte1. now rewrite Hg, Hc. Qed.

(** Steps over the branches that the byte [c] after the brace rules
    out. *)
Ltac skip_branches c :=
  repeat (first [ rewrite (header_other _ c) by (reflexivity || assumption)
                | rewrite (cookie_other _ c) by (reflexivity || assumption)
                | rewrite (query_other _ c) by (reflexivity || assumption)
                | rewrite (numbered_other _ c) by (reflexivity || assumption) ];
          cbn [andThen]).

(** ** The loops over the maps *)

Lemma namedLoop_braceFree (m : list (string * string)) (w name x : string) :
  braceFree x = true -> namedLoop m (String "{" w) name x = x.
Proof.
  intros Hx. induction m as [|[key value] m IH]; cbn [namedLoop]; [reflexivity|].
  destruct (String.eqb key name); [|exact IH].
  now rewrite Replace_braceFree.
Qed.

(** A loop that meets no matching key changes nothing. *)
Lemma headerLoop_none (h : list (string * list string)) (ph want x : string) :
  (forall key values, In (key, values) h -> strings.EqualFold key want = false) ->
  headerLoop h ph want x = x.
Proof.
  induction h as [|[key values] h IH]; cbn [headerLoop]; [reflexivity|].
  intros H. rewrite (H key values) by now left.
  apply IH. intros k v Hin. apply (H k v). now right.
Qed.

Lemma namedLoop_none (m : list (string * string)) (ph name x : string) :
  ~ In name (map fst m) -> namedLoop m ph name x = x.
Proof.
  induction m as [|[key value] m IH]; cbn [namedLoop map fst In]; [reflexivity|].
  intros H. destruct (String.eqb_spec key name) as [->|_].
  - exfalso. apply H. now left.
  - apply IH. intros Hin. apply H. now right.
Qed.

(** The named captures hold one entry for a name: the loop replaces with
    its value. *)
Lemma namedLoop_unique (m : list (string * string)) (ph name v x : string) :
  NoDup (map fst m) -> In (name, v) m ->
  namedLoop m ph name x = strings.Replace x ph v.
Proof.
  induction m as [|[key value] m IH]; cbn [namedLoop map fst In]; [now intros _ []|].
  intros Hnd [Heq|Hin].
  - injection Heq as -> ->. rewrite String.eqb_refl.
    apply namedLoop_none. now inversion Hnd.
  - inversion Hnd as [|? ? Hnot Hnd']; subst.
    destruct (String.eqb_spec key name) as [->|_].
    + exfalso. apply Hnot. change name with (fst (name, v)). now apply in_map.
    + now apply IH.
Qed.

(** On a text that starts with an ASCII byte, [strings.EqualFold]
    compares that byte up to the case of the letters. *)
Lemma EqualFold_cons (a b : ascii) (s t : string) :
  (nat_of_ascii a <? 128)%nat = true ->
  strings.EqualFold (String a s) (String b t)
  = Ascii.eqb (toLower a) (toLower b) && strings.EqualFold s t.
Proof. intros H. cbn [strings.EqualFold]. now rewrite H. Qed.

Lemma isASCII_cons (a : ascii) (s : string) :
  isASCII (String a s) = (nat_of_ascii a <? 128)%nat && isASCII s.
Proof. reflexivity. Qed.

Lemma toLower_ascii (a b : ascii) :
  (nat_of_ascii a <? 128)%nat = true -> toLower a = toLower b ->
  (nat_of_ascii b <? 128)%nat = true.
Proof.
  intros Ha E. apply Nat.ltb_lt in Ha. apply Nat.ltb_lt.
  assert (Hl : forall c, nat_of_ascii (toLower c) = nat_of_ascii c
                         \/ (nat_of_ascii c <= 90
                             /\ nat_of_ascii (toLower c) = nat_of_ascii c + 32)).
  { intros c. unfold toLower. destruct (isUpper c) eqn:Hu; [|now left].
    right. unfold isUpper, inRange in Hu. cbv zeta in Hu.
    apply andb_true_iff in Hu as [H1 H2]. apply Nat.leb_le in H1, H2.
    rewrite nat_ascii_embedding; lia. }
  destruct (Hl a) as [Ea|[Ha' Ea]], (Hl b) as [Eb|[Hb Eb]]; rewrite E in Ea; lia.
Qed.

(** An ASCII text is equal up to case to ASCII texts only. *)
Lemma EqualFold_ascii (s t : string) :
  isASCII s = true -> strings.EqualFold s t = true -> isASCII t = true.
Proof.
  revert t. induction s as [|a s IH]; intros [|b t]; try easy.
  rewrite !isASCII_cons. intros H. apply andb_true_iff in H as [Ha Hs].
  rewrite (EqualFold_cons a b s t Ha). intros H. apply andb_true_iff in H as [Hab Hst].
  apply Ascii.eqb_eq in Hab. now rewrite (toLower_ascii a b Ha Hab), (IH t Hs Hst).
Qed.

Lemma EqualFold_sym (s t : string) :
  isASCII s = true -> isASCII t = true ->
  strings.EqualFold s t = strings.EqualFold t s.
Proof.
  revert t. induction s as [|a s IH]; intros [|b t]; try reflexivity.
  rewrite !isASCII_cons. intros Hs Ht.
  apply andb_true_iff in Hs as [Ha Hs]. apply andb_true_iff in Ht as [Hb Ht].
  now rewrite (EqualFold_cons a b s t Ha), (EqualFold_cons b a t s Hb), (IH t Hs Ht),
    Ascii.eqb_sym.
Qed.

Lemma EqualFold_trans (s t u : string) :
  isASCII s = true -> isASCII t = true ->
  strings.EqualFold s t = true -> strings.EqualFold t u = true ->
  strings.EqualFold s u = true.
Proof.
  revert t u. induction s as [|a s IH]; intros [|b t] [|c u]; try easy.
  rewrite !isASCII_cons. intros Hs Ht.
  apply andb_true_iff in Hs as [Ha Hs]. apply andb_true_iff in Ht as [Hb Ht].
  rewrite (EqualFold_cons a b s t Ha), (EqualFold_cons b c t u Hb),
    (EqualFold_cons a c s u Ha).
  intros H1 H2. apply andb_true_iff in H1 as [Hab Hst].
  apply andb_true_iff in H2 as [Hbc Htu].
  apply Ascii.eqb_eq in Hab, Hbc. rewrite Hab, Hbc, Ascii.eqb_refl.
  exact (IH _ _ Hs Ht Hst Htu).
Qed.

Lemma headerKeysASCII_in (h : list (string * list string)) (key : string)
      (values : list string) :
  headerKeysASCII h = true -> In (key, values) h -> isASCII key = true.
Proof.
  intros H Hin. exact (proj1 (forallb_forall _ _) H (key, values) Hin).
Qed.

(** Header keys that differ even up to case: [Prop] and [bool] views. *)
Lemma headerKeysDistinct_cons (key : string) (values : list string)
      (h : list (string * list string)) :
  headerKeysDistinct ((key, values) :: h) = true <->
  (forall k v, In (k, v) h -> strings.EqualFold key k = false)
  /\ headerKeysDistinct h = true.
Proof.
  cbn [headerKeysDistinct]. rewrite andb_true_iff, forallb_forall. split.
  - intros [H1 H2]. split; [|exact H2]. intros k v Hin.
    apply negb_true_iff. exact (H1 (k, v) Hin).
  - intros [H1 H2]. split; [|exact H2]. intros [k v] Hin.
    apply negb_true_iff. exact (H1 k v Hin).
Qed.

(** The header map holds one key for a name: the loop replaces with the
    values of that key. *)
Lemma headerLoop_unique (h : list (string * list string)) (ph want key x : string)
      (values : list string) :
  headerKeysASCII h = true ->
  headerKeysDistinct h = true -> In (key, values) h ->
  strings.EqualFold key want = true ->
  headerLoop h ph want x = strings.Replace x ph (strings.Join values ",").
Proof.
  intros Ha Hd Hin Hk.
  assert (Hkey : isASCII key = true) by exact (headerKeysASCII_in _ _ _ Ha Hin).
  assert (Hwant : isASCII want = true) by exact (EqualFold_ascii _ _ Hkey Hk).
  induction h as [|[k0 v0] h IH]; [now destruct Hin|].
  apply headerKeysDistinct_cons in Hd as [Hhead Hd].
  cbn [headerKeysASCII forallb fst] in Ha. apply andb_true_iff in Ha as [Ha0 Ha].
  cbn [headerLoop]. destruct Hin as [Heq|Hin].
  - injection Heq as -> ->. rewrite Hk. apply headerLoop_none.
    intros k v Hkv. destruct (strings.EqualFold k want) eqn:E; [|reflexivity].
    assert (Hk' : isASCII k = true) by exact (headerKeysASCII_in _ _ _ Ha Hkv).
    rewrite <- (Hhead k v Hkv). symmetry.
    apply EqualFold_trans with want; try assumption.
    now rewrite EqualFold_sym.
  - destruct (strings.EqualFold k0 want) eqn:E; [|now apply IH].
    exfalso. pose proof (Hhead key values Hin) as Hne.
    rewrite (EqualFold_trans k0 want key Ha0 Hwant E) in Hne; [discriminate|].
    now rewrite EqualFold_sym.
Qed.

(** ** strings.Contains and the second pass *)

Lemma Contains_cons (c : ascii) (s sub : string) :
  strings.Contains (String c s) sub
  = String.prefix sub (String c s) || strings.Contains s sub.
Proof. reflexivity. Qed.

Lemma Contains_braceFree_app (w l s : string) :
  braceFree l = true ->
  strings.Contains (l ++ s) (String "{" w) = strings.Contains s (String "{" w).
Proof.
  induction l as [|c l IH]; cbn [append braceFree]; [reflexivity|].
  intros H. apply andb_true_iff in H as [Hc Hl].
  cbn [strings.Contains]. rewrite prefix_head, (IH Hl); [reflexivity|].
  intros <-. discriminate Hc.
Qed.

Lemma Contains_braceFree (w s : string) :
  braceFree s = true -> strings.Contains s (String "{" w) = false.
Proof.
  intros H. rewrite <- (append_nil_r s). now rewrite Contains_braceFree_app.
Qed.

(** The rest of a token after its opening brace: it starts with the sigil
    or with a word character, never with a dollar, and holds no brace. *)
Lemma token_tail (sg name : string) :
  isSigilString sg = true -> wordString name = true ->
  exists c w, sg ++ name ++ "}" = String c w
              /\ Ascii.eqb c "$" = false /\ braceFree (String c w) = true.
Proof.
  intros Hsg Hname. destruct name as [|n0 name]; [discriminate Hname|].
  cbn [wordString] in Hname.
  assert (Hbf : braceFree (String n0 name ++ "}") = true)
    by (rewrite braceFree_append, (allWord_braceFree _ Hname); reflexivity).
  destruct sg as [|c [|? ?]]; try discriminate Hsg.
  - exists n0, (name ++ "}"). repeat split; [|exact Hbf].
    cbn [allWord] in Hname. apply andb_true_iff in Hname as [H0 _].
    destruct (Ascii.eqb_spec n0 "$") as [->|]; [discriminate H0 | reflexivity].
  - exists c, (String n0 name ++ "}"). cbn [isSigilString] in Hsg. repeat split.
    + destruct (Ascii.eqb_spec c "$") as [->|]; [discriminate Hsg | reflexivity].
    + cbn [braceFree]. rewrite Hbf, andb_true_r.
      destruct (Ascii.eqb_spec c "{") as [->|]; [discriminate Hsg | reflexivity].
Qed.

Lemma token_braceFree_tail (sg name : string) :
  isSigilString sg = true -> wordString name = true ->
  braceFree (sg ++ name ++ "}") = true.
Proof.
  intros Hsg Hname. destruct (token_tail sg name Hsg Hname) as (c & w & -> & _ & H).
  exact H.
Qed.

(** No path-segment token lies in a template made of brace-free chunks
    with a token of the scanner between them. *)
Lemma Contains_concat_pathToken (sg name : string) (chunks : list string) (n : nat) :
  isSigilString sg = true -> wordString name = true ->
  forallb braceFree chunks = true ->
  strings.Contains (String.concat (token sg name) chunks) (pathToken n) = false.
Proof.
  intros Hsg Hname. destruct (token_tail sg name Hsg Hname) as (c & w & Ht & Hc & Hbf).
  unfold pathToken. rewrite !token_cons. rewrite Ht. cbn [append].
  induction chunks as [|x chunks IH]; [reflexivity|].
  cbn [forallb]. intros H. apply andb_true_iff in H as [Hx Hr].
  destruct chunks as [|x' chunks].
  - cbn [String.concat]. now apply Contains_braceFree.
  - change (String.concat ?sep (x :: x' :: chunks))
      with (x ++ sep ++ String.concat sep (x' :: chunks)).
    rewrite Contains_braceFree_app by exact Hx.
    change (String "{" (String c w) ++ ?s) with (String "{" (String c w ++ s)).
    rewrite Contains_cons.
    change (String c w ++ ?s) with (String c (w ++ s)) at 1.
    rewrite prefix_cons, prefix_head.
    2:{ intros <-. discriminate Hc. }
    cbn [orb].
    rewrite Contains_braceFree_app by exact Hbf. exact (IH Hr).
Qed.

(** The second pass leaves a text alone in which no path-segment token
    lies. *)
Lemma pathLoop_absent (pathSlice : list string) (k : nat) (s : string) :
  (forall n, strings.Contains s (pathToken n) = false) ->
  pathLoop pathSlice k s = s.
Proof.
  intros H. revert k. induction pathSlice as [|v rest IH]; intros k; [reflexivity|].
  cbn [pathLoop]. change ("{$" ++ strconv.Itoa (k + 1) ++ "}") with (pathToken (k + 1)).
  pose proof (H (k + 1)) as Hk. unfold pathToken in Hk |- *.
  rewrite token_cons in Hk |- *. rewrite Replace_absent by exact Hk. apply IH.
Qed.

Lemma pathLoop_braceFree (pathSlice : list string) (k : nat) (s : string) :
  braceFree s = true -> pathLoop pathSlice k s = s.
Proof.
  intros H. apply pathLoop_absent. intros n. unfold pathToken. rewrite token_cons.
  now apply Contains_braceFree.
Qed.

(** ** Rendering a template with one token *)

Section OneToken.

Variables (r : Request) (sg name : string).
Hypothesis Hsg : isSigilString sg = true.
Hypothesis Hname : wordString name = true.
Let tok : string := token sg name.

(** The token is resolved to [v] wherever that leaves no brace. *)
Lemma loop_subst (v : string) (n : nat) (s : string) :
  (forall x, braceFree (strings.Replace x tok v) = true ->
             resolve r tok x = Next (strings.Replace x tok v)) ->
  braceFree (strings.Replace s tok v) = true ->
  placeholdersLoop r (repeat tok n) s
  = Next (match n with O => s | S _ => strings.Replace s tok v end).
Proof.
  intros Hres. revert s. induction n as [|n IH]; intros s Hs; [reflexivity|].
  cbn [repeat placeholdersLoop]. rewrite (Hres s Hs). cbn [andThen].
  assert (Hs' : strings.Replace (strings.Replace s tok v) tok v = strings.Replace s tok v)
    by (unfold tok; rewrite token_cons; now apply Replace_braceFree).
  rewrite IH by now rewrite Hs'.
  destruct n; [reflexivity | now rewrite Hs'].
Qed.

Lemma render_subst (v : string) (chunks pathSlice : list string) :
  (forall x, braceFree (strings.Replace x tok v) = true ->
             resolve r tok x = Next (strings.Replace x tok v)) ->
  braceFree v = true -> forallb braceFree chunks = true ->
  parsePlaceholders (String.concat tok chunks) r pathSlice
  = Returned (String.concat v chunks) None.
Proof.
  intros Hres Hv Hchunks. unfold parsePlaceholders.
  unfold tok at 1. rewrite FindAll_concat by assumption. fold tok.
  assert (Hrep : strings.Replace (String.concat tok chunks) tok v = String.concat v chunks).
  { unfold tok. rewrite token_cons. apply Replace_concat; [|exact Hchunks].
    now apply token_braceFree_tail. }
  rewrite (loop_subst v) by (try exact Hres; rewrite Hrep; now apply braceFree_concat).
  destruct chunks as [|c [|c' chunks]]; cbn [List.length Nat.sub].
  - cbn [String.concat]. now rewrite pathLoop_braceFree.
  - cbn [String.concat forallb] in *. apply andb_true_iff in Hchunks as [Hc _].
    now rewrite pathLoop_braceFree.
  - rewrite Hrep, pathLoop_braceFree; [reflexivity | now apply braceFree_concat].
Qed.

Lemma loop_literal (n : nat) (s : string) :
  (forall x, resolve r tok x = Next x) ->
  placeholdersLoop r (repeat tok n) s = Next s.
Proof.
  intros Hres. induction n as [|n IH]; [reflexivity|].
  cbn [repeat placeholdersLoop]. rewrite Hres. exact IH.
Qed.

Lemma render_literal (chunks pathSlice : list string) :
  (forall x, resolve r tok x = Next x) ->
  forallb braceFree chunks = true ->
  parsePlaceholders (String.concat tok chunks) r pathSlice
  = Returned (String.concat tok chunks) None.
Proof.
  intros Hres Hchunks. unfold parsePlaceholders.
  unfold tok at 1. rewrite FindAll_concat by assumption. fold tok.
  rewrite loop_literal by exact Hres.
  rewrite pathLoop_absent; [reflexivity|].
  intros n. now apply Contains_concat_pathToken.
Qed.

End OneToken.

(** ** The named captures, as the last branch of every token *)

Lemma named_braceFree (r : Request) (sg name x : string) :
  braceFree x = true -> named r (token sg name) x = Next x.
Proof.
  intros Hx. unfold named. rewrite body_token.
  destruct (hasLetter (sg ++ name)); [|reflexivity].
  destruct (regexMatches r); try reflexivity.
  rewrite token_cons. now rewrite namedLoop_braceFree.
Qed.

(** No capture group is named with a sigil. *)
Lemma named_sigil (r : Request) (c : ascii) (name x : string) :
  isSigil c = true -> captureNamesOk (regexMatches r) = true ->
  named r (token (String c "") name) x = Next x.
Proof.
  intros Hc Hok. unfold named. rewrite body_token.
  destruct (hasLetter (String c "" ++ name)); [|reflexivity].
  destruct (regexMatches r) as [| |m]; try reflexivity.
  rewrite namedLoop_none; [reflexivity|].
  cbn [captureNamesOk] in Hok. rewrite forallb_forall in Hok.
  intros Hin. apply in_map_iff in Hin as ([k v] & Hk & Hin). cbn [fst] in Hk. subst k.
  specialize (Hok _ Hin). cbn [fst append wordString allWord] in Hok.
  apply andb_true_iff in Hok as [Hw _].
  rewrite (isWord_not_sigil _ Hw) in Hc. discriminate Hc.
Qed.

Lemma isSigil_cases (c : ascii) :
  isSigil c = false ->
  Ascii.eqb c "~" = false /\ Ascii.eqb c ">" = false /\ Ascii.eqb c "?" = false.
Proof.
  unfold isSigil. intros H.
  apply orb_false_iff in H as [H H3]. apply orb_false_iff in H as [H1 H2]. auto.
Qed.

(** ** Cookie tokens *)

Section CookieToken.

Variables (r : Request) (name : string).
Hypothesis Hname : wordString name = true.
Let tok : string := token "~" name.

Lemma resolve_cookie_present (v x : string) :
  Cookie (Cookies r) name = Some v ->
  braceFree (strings.Replace x tok v) = true ->
  resolve r tok x = Next (strings.Replace x tok v).
Proof.
  intros Hc Hbf. unfold resolve, tok.
  rewrite keywords_sigil by reflexivity.
  rewrite label_other by reflexivity. cbn [andThen].
  skip_branches "~"%char.
  unfold cookie at 1. rewrite byte1_sigil, Ascii.eqb_refl, body_token_name, Hc.
  cbn [andThen]. skip_branches "~"%char.
  now apply named_braceFree.
Qed.

Lemma resolve_cookie_absent (x : string) :
  Cookie (Cookies r) name = None ->
  captureNamesOk (regexMatches r) = true ->
  resolve r tok x = Next x.
Proof.
  intros Hc Hok. unfold resolve, tok.
  rewrite keywords_sigil by reflexivity.
  rewrite label_other by reflexivity. cbn [andThen].
  skip_branches "~"%char.
  unfold cookie at 1. rewrite byte1_sigil, Ascii.eqb_refl, body_token_name, Hc.
  cbn [andThen]. skip_branches "~"%char.
  now apply named_sigil.
Qed.

(** The iteration of a cookie token, on any string. *)
Lemma resolve_cookie (x : string) :
  captureNamesOk (regexMatches r) = true ->
  resolve r tok x
  = Next (match Cookie (Cookies r) name with
          | Some v => strings.Replace x tok v
          | None => x
          end).
Proof.
  intros Hok. unfold resolve, tok.
  rewrite keywords_sigil by reflexivity.
  rewrite label_other by reflexivity. cbn [andThen].
  skip_branches "~"%char.
  unfold cookie at 1. rewrite byte1_sigil, Ascii.eqb_refl, body_token_name.
  destruct (Cookie (Cookies r) name); cbn [andThen]; skip_branches "~"%char;
    now apply named_sigil.
Qed.

End CookieToken.

(** ** Header tokens *)

Section HeaderToken.

Variables (r : Request) (name : string).
Hypothesis Hname : wordString name = true.
Let tok : string := token ">" name.

Lemma resolve_header_loop (x : string) (k : string -> Flow) :
  (y <- header r (token ">" name) x ;; k y)
  = k (headerLoop (Header r) (token ">" name) name x).
Proof.
  unfold header. now rewrite byte1_sigil, Ascii.eqb_refl, body_token_name.
Qed.

Lemma resolve_header_present (key : string) (values : list string) (x : string) :
  headerKeysASCII (Header r) = true -> headerKeysDistinct (Header r) = true ->
  In (key, values) (Header r) -> strings.EqualFold key name = true ->
  braceFree (strings.Replace x tok (strings.Join values ",")) = true ->
  resolve r tok x = Next (strings.Replace x tok (strings.Join values ",")).
Proof.
  intros Ha Hd Hin Hk Hbf. unfold resolve, tok in *.
  rewrite keywords_sigil by reflexivity.
  rewrite label_other by reflexivity. cbn [andThen].
  rewrite resolve_header_loop.
  rewrite (headerLoop_unique _ _ _ key _ values Ha Hd Hin Hk).
  skip_branches ">"%char.
  now apply named_braceFree.
Qed.

Lemma resolve_header_absent (x : string) :
  (forall key values, In (key, values) (Header r) -> strings.EqualFold key name = false) ->
  captureNamesOk (regexMatches r) = true ->
  resolve r tok x = Next x.
Proof.
  intros Hno Hok. unfold resolve, tok in *.
  rewrite keywords_sigil by reflexivity.
  rewrite label_other by reflexivity. cbn [andThen].
  rewrite resolve_header_loop.
  rewrite (headerLoop_none _ _ _ _ Hno).
  skip_branches ">"%char.
  now apply named_sigil.
Qed.

(** The iteration of a header token, on any string. *)
Lemma resolve_header (key : string) (values : list string) (x : string) :
  headerKeysASCII (Header r) = true ->
  headerKeysDistinct (Header r) = true -> captureNamesOk (regexMatches r) = true ->
  In (key, values) (Header r) -> strings.EqualFold key name = true ->
  resolve r tok x = Next (strings.Replace x tok (strings.Join values ",")).
Proof.
  intros Ha Hd Hok Hin Hk. unfold resolve, tok in *.
  rewrite keywords_sigil by reflexivity.
  rewrite label_other by reflexivity. cbn [andThen].
  rewrite resolve_header_loop.
  rewrite (headerLoop_unique _ _ _ key _ values Ha Hd Hin Hk).
  skip_branches ">"%char.
  now apply named_sigil.
Qed.

End HeaderToken.

(** ** Name tokens *)

Lemma prefix_before_close (p s : string) :
  braceFree p = true -> allWord p = true ->
  String.prefix p (s ++ "}") = String.prefix p s.
Proof.
  intros _. revert s. induction p as [|a p IH]; intros s Hp.
  - now rewrite !prefix_nil.
  - cbn [allWord] in Hp. apply andb_true_iff in Hp as [Ha Hp].
    destruct s as [|c s]; cbn [append].
    + apply prefix_head. intros ->. discriminate Ha.
    + destruct (ascii_dec a c) as [->|n].
      * rewrite !prefix_cons. now apply IH.
      * now rewrite !prefix_head.
Qed.

Lemma hasLetter_head (c : ascii) (s : string) :
  isLetter c = true -> hasLetter (String c s) = true.
Proof. intros H. unfold hasLetter. cbn [list_ascii_of_string existsb]. now rewrite H. Qed.

Lemma lettersThenDigits_allWord (s : string) :
  lettersThenDigits s = true -> allWord s = true.
Proof.
  induction s as [|c s IH]; [reflexivity|]. cbn [lettersThenDigits allWord].
  destruct (isLetter c) eqn:E.
  - intros H. now rewrite (isLetter_isWord _ E), (IH H).
  - intros H. apply andb_true_iff in H as [Hd Hs]. rewrite (isDigit_isWord _ Hd).
    clear IH E Hd. cbn [andb]. induction s as [|d s IH]; [reflexivity|].
    cbn [allDigits allWord] in *. apply andb_true_iff in Hs as [Hd Hs].
    now rewrite (isDigit_isWord _ Hd), (IH Hs).
Qed.

Lemma isName_wordString (name : string) : isName name = true -> wordString name = true.
Proof.
  destruct name as [|c name]; [discriminate|]. unfold isName, wordString.
  intros H. apply andb_true_iff in H as [_ H]. now apply lettersThenDigits_allWord.
Qed.

Section NameToken.

Variables (r : Request) (name : string).
Hypothesis Hname : isName name = true.
Hypothesis Hres : isReserved name = false.
Hypothesis Hlabel : strings.HasPrefix name "label" = false.

(** A name token goes through to the named captures. *)
Lemma resolve_name (x : string) :
  resolve r (token "" name) x = named r (token "" name) x.
Proof.
  unfold resolve. rewrite keywords_plain by exact Hres.
  rewrite label_other.
  2:{ unfold strings.HasPrefix, token in *. cbn [append]. rewrite prefix_cons.
      now rewrite prefix_before_close. }
  cbn [andThen]. destruct name as [|c nm]; [discriminate Hname|].
  unfold isName in Hname. apply andb_true_iff in Hname as [Hc _].
  destruct (isSigil_cases c (isWord_not_sigil c (isLetter_isWord c Hc))) as (H1 & H2 & H3).
  pose proof (isLetter_not_digit c Hc) as H4.
  skip_branches c. reflexivity.
Qed.

Lemma named_name (x : string) :
  named r (token "" name) x
  = Next (match regexMatches r with
          | CtxMap matches => namedLoop matches (token "" name) name x
          | _ => x
          end).
Proof.
  unfold named. rewrite body_token. cbn [append].
  destruct name as [|c nm]; [discriminate Hname|].
  unfold isName in Hname. apply andb_true_iff in Hname as [Hc _].
  rewrite (hasLetter_head c nm Hc). now destruct (regexMatches r).
Qed.

Lemma resolve_name_present (m : list (string * string)) (v x : string) :
  regexMatches r = CtxMap m -> NoDup (map fst m) -> In (name, v) m ->
  resolve r (token "" name) x = Next (strings.Replace x (token "" name) v).
Proof.
  intros Hm Hnd Hin. rewrite resolve_name, named_name, Hm.
  now rewrite (namedLoop_unique m _ name v).
Qed.

Lemma resolve_name_absent (x : string) :
  (forall m, regexMatches r = CtxMap m -> ~ In name (map fst m)) ->
  resolve r (token "" name) x = Next x.
Proof.
  intros Hno. rewrite resolve_name, named_name.
  destruct (regexMatches r) as [| |m]; try reflexivity.
  now rewrite namedLoop_none by now apply Hno.
Qed.

End NameToken.

(** ** Label tokens *)

Lemma allDigits_allWord (s : string) : allDigits s = true -> allWord s = true.
Proof.
  induction s as [|c s IH]; [reflexivity|]. cbn [allDigits allWord].
  intros H. apply andb_true_iff in H as [Hd Hs].
  now rewrite (isDigit_isWord _ Hd), (IH Hs).
Qed.

Lemma Split_braceFree (s : string) (sep : ascii) :
  braceFree s = true -> forallb braceFree (strings.Split s sep) = true.
Proof.
  induction s as [|c s IH]; [reflexivity|]. cbn [braceFree strings.Split].
  intros H. apply andb_true_iff in H as [Hc Hs]. specialize (IH Hs).
  destruct (Ascii.eqb c sep); [exact IH|].
  destruct (strings.Split s sep) as [|x xs]; cbn [forallb braceFree] in *.
  - now rewrite Hc.
  - apply andb_true_iff in IH as [Hx Hxs]. now rewrite Hc, Hx, Hxs.
Qed.

Lemma nth_braceFree (l : list string) (i : nat) :
  forallb braceFree l = true -> braceFree (nth i l "") = true.
Proof.
  revert i. induction l as [|x l IH]; intros [|i] H; try reflexivity;
    cbn [forallb nth] in *; apply andb_true_iff in H as [Hx Hl]; auto.
Qed.

Lemma hostonly_braceFree (r : Request) :
  braceFree (Host r) = true -> braceFree (hostonly r) = true.
Proof.
  intros H. unfold hostonly. destruct (strings.Contains (Host r) ":"); [|exact H].
  pose proof (Split_braceFree (Host r) ":" H) as Hs.
  destruct (strings.Split (Host r) ":") as [|x xs]; [reflexivity|].
  cbn [hd forallb] in *. now apply andb_true_iff in Hs as [Hx _].
Qed.

Section LabelToken.

Variables (r : Request) (nStr : string).
Hypothesis HnStr : allDigits nStr = true.
Let tok : string := token "" ("label" ++ nStr).
Let labels : list string := strings.Split (hostonly r) ".".







End LabelToken.


(** ** What the loop returns *)

Lemma label_return (r : Request) (ph x s : string) (e : error) :
  label r ph x = Return s e -> s = "".
Proof.
  unfold label. destruct (strings.HasPrefix ph "{label"); [|discriminate].
  destruct (slice ph 6 (String.length ph - 1)); [|discriminate].
  destruct (strconv.Atoi s0) as [n|err]; [|now intros [= <- _]].
  destruct (n <? 1)%Z; [now intros [= <- _]|].
  destruct (Z.of_nat _ <? n)%Z; [now intros [= <- _] | discriminate].
Qed.

Lemma body_return (ph : string) (lo : nat) (k : string -> Flow) (s : string) (e : error) :
  body ph lo k = Return s e -> exists b, k b = Return s e.
Proof.
  unfold body. destruct (slice ph lo (String.length ph - 1)) as [b|]; [|discriminate].
  intros H. now exists b.
Qed.

(** The branches on the sigils and on the captures return no string with
    an error either. *)
Lemma sigils_return (r : Request) (ph x s : string) (e : error) :
  (header r ph x = Return s e -> s = "")
  /\ (cookie r ph x = Return s e -> s = "")
  /\ (query r ph x = Return s e -> s = "")
  /\ (numbered r ph x = Return s e -> s = "")
  /\ (named r ph x = Return s e -> s = "").
Proof.
  unfold header, cookie, query, numbered, named, byte1.
  repeat split; intros H.
  - destruct (String.get 1 ph) as [c|]; [|discriminate].
    destruct (Ascii.eqb c ">"); [|discriminate].
    apply body_return in H as [b H]. discriminate.
  - destruct (String.get 1 ph) as [c|]; [|discriminate].
    destruct (Ascii.eqb c "~"); [|discriminate].
    apply body_return in H as [b H]. now destruct (Cookie (Cookies r) b).
  - destruct (String.get 1 ph) as [c|]; [|discriminate].
    destruct (Ascii.eqb c "?"); [|discriminate].
    apply body_return in H as [b H]. discriminate.
  - destruct (String.get 1 ph) as [c|]; [|discriminate].
    destruct (isDigit c); [|discriminate].
    destruct (strconv.Atoi (String c "")) as [index|]; [|now injection H as <-].
    destruct (regexMatches r) as [|l|]; try discriminate.
    now destruct ((index - 1 <? 0)%Z || (Z.of_nat (List.length l) <=? index - 1)%Z).
  - apply body_return in H as [b H].
    destruct (hasLetter b); [|discriminate]. now destruct (regexMatches r).
Qed.

Lemma resolve_return (r : Request) (ph x s : string) (e : error) :
  resolve r ph x = Return s e -> s = "".
Proof.
  unfold resolve. destruct (label r ph (keywords r ph x)) as [x1| |] eqn:E1;
    cbn [andThen]; [|intros [= <- _]; now apply label_return in E1 | discriminate].
  destruct (header r ph x1) as [x2| |] eqn:E2; cbn [andThen];
    [|intros [= <- _]; exact (proj1 (sigils_return r ph x1 s0 err) E2) | discriminate].
  destruct (cookie r ph x2) as [x3| |] eqn:E3; cbn [andThen];
    [|intros [= <- _]; exact (proj1 (proj2 (sigils_return r ph x2 s0 err)) E3)
     | discriminate].
  destruct (query r ph x3) as [x4| |] eqn:E4; cbn [andThen];
    [|intros [= <- _]; exact (proj1 (proj2 (proj2 (sigils_return r ph x3 s0 err))) E4)
     | discriminate].
  destruct (numbered r ph x4) as [x5| |] eqn:E5; cbn [andThen];
    [|intros [= <- _];
      exact (proj1 (proj2 (proj2 (proj2 (sigils_return r ph x4 s0 err)))) E5)
     | discriminate].
  intros H. exact (proj2 (proj2 (proj2 (proj2 (sigils_return r ph x5 s e)))) H).
Qed.

(** An error of the loop is the error of the first placeholder that
    fails: those before it went through, those after it are not looked
    at. *)
Lemma placeholdersLoop_return (r : Request) (l : list string) (x s : string) (e : error) :
  placeholdersLoop r l x = Return s e ->
  s = "" /\ exists before ph after input,
    l = (before ++ ph :: after)%list
    /\ placeholdersLoop r before x = Next input
    /\ resolve r ph input = Return "" e.
Proof.
  revert x. induction l as [|ph l IH]; intros x; cbn [placeholdersLoop]; [discriminate|].
  destruct (resolve r ph x) as [y|s' e'|] eqn:E; cbn [andThen]; [| |discriminate].
  - intros H. destruct (IH y H) as (Hs & before & ph' & after & input & -> & Hb & Hr).
    split; [exact Hs|]. exists (ph :: before), ph', after, input.
    cbn [placeholdersLoop app]. rewrite E. cbn [andThen]. auto.
  - intros [= <- <-]. pose proof (resolve_return _ _ _ _ _ E) as ->.
    split; [reflexivity|]. now exists [], ph, l, x.
Qed.

(** ** The order of the visit of a map *)

Lemma forallb_perm {A : Type} (f : A -> bool) (l1 l2 : list A) :
  Permutation l1 l2 -> forallb f l1 = forallb f l2.
Proof.
  induction 1 as [|x l l' _ IH|x y l|l l' l'' _ IH1 _ IH2]; cbn [forallb].
  - reflexivity.
  - now rewrite IH.
  - now rewrite !andb_assoc, (andb_comm (f y)).
  - now rewrite IH1.
Qed.

Lemma headerKeysASCII_perm (h1 h2 : list (string * list string)) :
  Permutation h1 h2 -> headerKeysASCII h1 = headerKeysASCII h2.
Proof. apply forallb_perm. Qed.

Lemma headerKeysDistinct_perm (h1 h2 : list (string * list string)) :
  Permutation h1 h2 -> headerKeysASCII h1 = true ->
  headerKeysDistinct h1 = headerKeysDistinct h2.
Proof.
  induction 1 as [|[k v] l l' Hp IH|[k1 v1] [k2 v2] l|l l' l'' Hp1 IH1 _ IH2];
    cbn [headerKeysDistinct headerKeysASCII forallb fst]; intros Ha.
  - reflexivity.
  - apply andb_true_iff in Ha as [_ Ha]. now rewrite (IH Ha), (forallb_perm _ _ _ Hp).
  - apply andb_true_iff in Ha as [Ha2 Ha]. apply andb_true_iff in Ha as [Ha1 _].
    rewrite (EqualFold_sym k1 k2 Ha1 Ha2).
    destruct (negb (strings.EqualFold k2 k1)),
             (forallb (fun kv => negb (strings.EqualFold k1 (fst kv))) l),
             (forallb (fun kv => negb (strings.EqualFold k2 (fst kv))) l); reflexivity.
  - rewrite (IH1 Ha). apply IH2. now rewrite <- (headerKeysASCII_perm _ _ Hp1).
Qed.

Lemma header_match_dec (h : list (string * list string)) (want : string) :
  (exists key values, In (key, values) h /\ strings.EqualFold key want = true)
  \/ (forall key values, In (key, values) h -> strings.EqualFold key want = false).
Proof.
  induction h as [|[k v] h [(key & values & Hin & Hk)|Hno]].
  - right. now intros key values [].
  - left. exists key, values. split; [now right | exact Hk].
  - destruct (strings.EqualFold k want) eqn:E.
    + left. exists k, v. split; [now left | exact E].
    + right. intros key values [[= <- <-]|Hin]; [exact E | now apply (Hno key values)].
Qed.

(** The loop over the header map does not depend on the order of the
    visit, as long as no two keys are equal up to case. *)
Lemma headerLoop_perm (h1 h2 : list (string * list string)) (ph want x : string) :
  headerKeysASCII h1 = true ->
  headerKeysDistinct h1 = true -> Permutation h1 h2 ->
  headerLoop h1 ph want x = headerLoop h2 ph want x.
Proof.
  intros Ha Hd Hp.
  assert (Ha2 : headerKeysASCII h2 = true)
    by now rewrite <- (headerKeysASCII_perm _ _ Hp).
  assert (Hd2 : headerKeysDistinct h2 = true)
    by now rewrite <- (headerKeysDistinct_perm _ _ Hp Ha).
  destruct (header_match_dec h1 want) as [(key & values & Hin & Hk)|Hno].
  - rewrite (headerLoop_unique h1 ph want key x values Ha Hd Hin Hk).
    rewrite (headerLoop_unique h2 ph want key x values Ha2 Hd2); auto.
    now apply Permutation_in with h1.
  - rewrite !headerLoop_none; auto.
    intros key values Hin. apply (Hno key values).
    apply Permutation_in with h2; [now apply Permutation_sym | exact Hin].
Qed.

(** Nor does the loop over the named captures. *)
Lemma namedLoop_perm (m1 m2 : list (string * string)) (ph name x : string) :
  NoDup (map fst m1) -> Permutation m1 m2 ->
  namedLoop m1 ph name x = namedLoop m2 ph name x.
Proof.
  intros Hnd Hp.
  assert (Hnd2 : NoDup (map fst m2))
    by (apply Permutation_NoDup with (map fst m1); [now apply Permutation_map | exact Hnd]).
  destruct (in_dec string_dec name (map fst m1)) as [Hin|Hno].
  - apply in_map_iff in Hin as ([k v] & Hk & Hin). cbn [fst] in Hk. subst k.
    rewrite (namedLoop_unique m1 ph name v x Hnd Hin).
    rewrite (namedLoop_unique m2 ph name v x Hnd2); [reflexivity|].
    now apply Permutation_in with m1.
  - rewrite !namedLoop_none; auto.
    intros Hin. apply Hno. apply Permutation_in with (map fst m2); [|exact Hin].
    now apply Permutation_map, Permutation_sym.
Qed.

Section SameRequest.

Variables r1 r2 : Request.
Hypothesis Hsame : sameRequest r1 r2.
Hypothesis Hascii : headerKeysASCII (Header r1) = true.
Hypothesis Hdistinct : headerKeysDistinct (Header r1) = true.

Lemma hostonly_same : hostonly r1 = hostonly r2.
Proof. unfold hostonly. now rewrite (same_Host _ _ Hsame). Qed.

Lemma keywords_same (ph x : string) : keywords r1 ph x = keywords r2 ph x.
Proof.
  unfold keywords.
  now rewrite hostonly_same, (same_Host _ _ Hsame), (same_Url _ _ Hsame),
    (same_Method _ _ Hsame), (same_BasicAuth _ _ Hsame).
Qed.

Lemma label_same (ph x : string) : label r1 ph x = label r2 ph x.
Proof. unfold label. now rewrite hostonly_same. Qed.

Lemma header_same (ph x : string) : header r1 ph x = header r2 ph x.
Proof.
  unfold header, byte1, body. destruct (String.get 1 ph) as [c|]; [|reflexivity].
  destruct (Ascii.eqb c ">"); [|reflexivity].
  destruct (slice ph 2 (String.length ph - 1)) as [want|]; [|reflexivity].
  f_equal.
  apply headerLoop_perm; [exact Hascii | exact Hdistinct | exact (same_Header _ _ Hsame)].
Qed.

Lemma cookie_same (ph x : string) : cookie r1 ph x = cookie r2 ph x.
Proof. unfold cookie. now rewrite (same_Cookies _ _ Hsame). Qed.

Lemma query_same (ph x : string) : query r1 ph x = query r2 ph x.
Proof. unfold query. now rewrite (same_Url _ _ Hsame). Qed.

Lemma numbered_same (ph x : string) : numbered r1 ph x = numbered r2 ph x.
Proof.
  unfold numbered. now destruct (same_regexMatches _ _ Hsame).
Qed.

Lemma named_same (ph x : string) : named r1 ph x = named r2 ph x.
Proof.
  unfold named, body. destruct (slice ph 1 (String.length ph - 1)) as [name|]; [|reflexivity].
  destruct (hasLetter name); [|reflexivity].
  destruct (same_regexMatches _ _ Hsame) as [|l|m1 m2 Hnd Hp]; try reflexivity.
  f_equal. now apply namedLoop_perm.
Qed.

Lemma resolve_same (ph x : string) : resolve r1 ph x = resolve r2 ph x.
Proof.
  unfold resolve. rewrite keywords_same, label_same.
  destruct (label r2 ph (keywords r2 ph x)) as [x1| |]; cbn [andThen]; try reflexivity.
  rewrite header_same. destruct (header r2 ph x1) as [x2| |]; cbn [andThen]; try reflexivity.
  rewrite cookie_same. destruct (cookie r2 ph x2) as [x3| |]; cbn [andThen]; try reflexivity.
  rewrite query_same. destruct (query r2 ph x3) as [x4| |]; cbn [andThen]; try reflexivity.
  rewrite numbered_same.
  destruct (numbered r2 ph x4) as [x5| |]; cbn [andThen]; try reflexivity.
  apply named_same.
Qed.

Lemma placeholdersLoop_same (l : list string) (x : string) :
  placeholdersLoop r1 l x = placeholdersLoop r2 l x.
Proof.
  revert x. induction l as [|ph l IH]; intros x; cbn [placeholdersLoop]; [reflexivity|].
  rewrite resolve_same. destruct (resolve r2 ph x); cbn [andThen]; auto.
Qed.

End SameRequest.

(** ** Templates of text and path-segment tokens *)

Lemma string_of_uint_digits (d : uint) : allDigits (NilEmpty.string_of_uint d) = true.
Proof. induction d; cbn [NilEmpty.string_of_uint allDigits]; auto. Qed.

Lemma Itoa_digits (n : nat) : allDigits (strconv.Itoa n) = true.
Proof.
  unfold strconv.Itoa, NilZero.string_of_uint.
  destruct (Nat.to_uint n); try apply string_of_uint_digits. reflexivity.
Qed.

Lemma to_uint_nonnil (n : nat) : Nat.to_uint n <> Nil.
Proof.
  rewrite <- (DecimalNat.Unsigned.of_to n) at 1.
  rewrite DecimalNat.Unsigned.to_of. apply DecimalFacts.unorm_nonnil.
Qed.

Lemma Itoa_inj (a b : nat) : strconv.Itoa a = strconv.Itoa b -> a = b.
Proof.
  unfold strconv.Itoa. intros H. apply (f_equal NilZero.uint_of_string) in H.
  rewrite !NilZero.usu in H by apply to_uint_nonnil.
  injection H as H. now apply DecimalNat.Unsigned.to_uint_inj.
Qed.

Lemma allDigits_braceFree (s : string) : allDigits s = true -> braceFree s = true.
Proof. intros H. now apply allWord_braceFree, allDigits_allWord. Qed.

(** Two runs of digits before a closing brace, one at the head of the
    other: they are the same run. *)
Lemma prefix_digits_close (a b s : string) :
  allDigits a = true -> allDigits b = true ->
  String.prefix (a ++ "}") (b ++ "}" ++ s) = true -> a = b.
Proof.
  revert b. induction a as [|c a IH]; intros [|d b] Ha Hb; cbn [append].
  - reflexivity.
  - cbn [allDigits] in Hb. apply andb_true_iff in Hb as [Hd _].
    rewrite prefix_head; [discriminate|]. intros <-. discriminate Hd.
  - cbn [allDigits] in Ha. apply andb_true_iff in Ha as [Hc _].
    rewrite prefix_head; [discriminate|]. intros ->. discriminate Hc.
  - cbn [allDigits] in Ha, Hb.
    apply andb_true_iff in Ha as [_ Ha]. apply andb_true_iff in Hb as [_ Hb].
    destruct (ascii_dec c d) as [->|n].
    + rewrite prefix_cons. intros H. now rewrite (IH b Ha Hb H).
    + now rewrite prefix_head.
Qed.

Lemma pathToken_prefix (j n : nat) (s : string) :
  String.prefix (pathToken j) (pathToken n ++ s) = true -> j = n.
Proof.
  unfold pathToken, token. cbn [append]. rewrite !prefix_cons.
  rewrite append_assoc. intros H. apply Itoa_inj.
  now apply prefix_digits_close in H; try apply Itoa_digits.
Qed.

Lemma pathToken_tail_braceFree (n : nat) :
  braceFree (String "$" (strconv.Itoa n ++ "}")) = true.
Proof.
  cbn [braceFree]. rewrite braceFree_append, (allDigits_braceFree _ (Itoa_digits n)).
  reflexivity.
Qed.

(** The scanner finds no token in a template of text and path-segment
    tokens. *)
Lemma FindAll_pieces (pieces : list piece) :
  litsBraceFree pieces = true -> FindAllStringSubmatch (showPieces pieces) = [].
Proof.
  induction pieces as [|[text|n] pieces IH]; cbn [litsBraceFree forallb showPieces showPiece].
  - reflexivity.
  - intros H. apply andb_true_iff in H as [Ht Hr].
    rewrite FindAll_braceFree_app by exact Ht. exact (IH Hr).
  - intros Hr. unfold pathToken. rewrite token_cons.
    change (String "{" ("$" ++ strconv.Itoa n ++ "}") ++ showPieces pieces)
      with (String "{" (String "$" (strconv.Itoa n ++ "}") ++ showPieces pieces)).
    rewrite FindAll_no_match by reflexivity.
    rewrite FindAll_braceFree_app by apply pathToken_tail_braceFree.
    exact (IH Hr).
Qed.

Lemma braceFree_dollarFree (s : string) : braceFree s = true -> dollarFree s = true.
Proof.
  induction s as [|c s IH]; [reflexivity|]. cbn [braceFree dollarFree]. intros H.
  apply andb_true_iff in H as [Hc Hs]. apply negb_true_iff in Hc. now rewrite Hc, IH.
Qed.

Lemma litsBraceFree_dollarFree (pieces : list piece) :
  litsBraceFree pieces = true -> litsDollarFree pieces = true.
Proof.
  unfold litsBraceFree, litsDollarFree. rewrite !forallb_forall. intros H p Hin.
  specialize (H p Hin). destruct p as [text|n]; [now apply braceFree_dollarFree | reflexivity].
Qed.

(** A token of the scanner is text in which no path-segment token
    begins. *)
Lemma token_dollarFree (sg name : string) :
  isSigilString sg = true -> wordString name = true ->
  dollarFree (token sg name) = true.
Proof.
  intros Hsg Hname. destruct (token_tail sg name Hsg Hname) as (c & w & Ht & Hc & Hbf).
  rewrite token_cons, Ht.
  change (dollarFree (String "{" (String c w)))
    with (negb (Ascii.eqb c "$") && dollarFree (String c w)).
  now rewrite Hc, (braceFree_dollarFree _ Hbf).
Qed.

Lemma Replace_pathToken_lit (j : nat) (v text s : string) :
  dollarFree text = true ->
  strings.Replace (text ++ s) (pathToken j) v = text ++ strings.Replace s (pathToken j) v.
Proof.
  unfold pathToken. rewrite token_cons. cbn [append].
  induction text as [|a l IH]; [reflexivity|]. cbn [dollarFree append]. intros H.
  apply andb_true_iff in H as [Ha Hl]. rewrite Replace_copy; [now rewrite (IH Hl)|].
  destruct (Ascii.eqb_spec a "{") as [->|n].
  - destruct l as [|d l]; [discriminate Ha|]. cbn [append]. rewrite prefix_cons.
    apply prefix_head. intros <-. discriminate Ha.
  - apply prefix_head. congruence.
Qed.

Lemma Replace_pathToken_same (j : nat) (v s : string) :
  strings.Replace (pathToken j ++ s) (pathToken j) v = v ++ strings.Replace s (pathToken j) v.
Proof. unfold pathToken. rewrite token_cons. apply Replace_occurrence. Qed.

Lemma Replace_pathToken_other (j n : nat) (v s : string) :
  n <> j ->
  strings.Replace (pathToken n ++ s) (pathToken j) v
  = pathToken n ++ strings.Replace s (pathToken j) v.
Proof.
  intros Hne.
  assert (Hp : String.prefix (pathToken j) (pathToken n ++ s) = false).
  { destruct (String.prefix _ _) eqn:E; [|reflexivity].
    apply pathToken_prefix in E. congruence. }
  revert Hp. unfold pathToken. rewrite !token_cons. cbn [append]. intros Hp.
  rewrite Replace_copy by exact Hp. f_equal.
  change (String "$" ((strconv.Itoa n ++ "}") ++ ?t))
    with (String "$" (strconv.Itoa n ++ "}") ++ t).
  now rewrite Replace_braceFree_app by apply pathToken_tail_braceFree.
Qed.

Lemma expandFrom_single (k n : nat) (v : string) :
  expandFrom k [v] (Seg n) = if Nat.eqb n (S k) then Lit v else Seg n.
Proof.
  cbn [expandFrom]. destruct (Nat.eqb_spec n (S k)) as [->|Hne].
  - replace (k <? S k)%nat with true by (symmetry; apply Nat.ltb_lt; lia).
    now replace (S k - k - 1) with 0 by lia.
  - destruct (k <? n)%nat eqn:E; [|reflexivity].
    apply Nat.ltb_lt in E. destruct (n - k - 1) as [|i] eqn:En; [lia|].
    now destruct i.
Qed.

(** One step of the second pass on such a template. *)
Lemma Replace_pieces (k : nat) (v : string) (pieces : list piece) :
  litsDollarFree pieces = true ->
  strings.Replace (showPieces pieces) (pathToken (S k)) v
  = showPieces (map (expandFrom k [v]) pieces).
Proof.
  induction pieces as [|[text|n] pieces IH]; cbn [litsDollarFree forallb showPieces map].
  - reflexivity.
  - intros H. apply andb_true_iff in H as [Ht Hr]. cbn [showPiece expandFrom].
    now rewrite Replace_pathToken_lit, (IH Hr).
  - intros Hr. rewrite expandFrom_single. cbn [showPiece].
    destruct (Nat.eqb_spec n (S k)) as [->|Hne]; cbn [showPiece].
    + now rewrite Replace_pathToken_same, (IH Hr).
    + now rewrite Replace_pathToken_other, (IH Hr).
Qed.

Lemma expandFrom_step (k : nat) (v : string) (rest : list string) (p : piece) :
  expandFrom (S k) rest (expandFrom k [v] p) = expandFrom k (v :: rest) p.
Proof.
  destruct p as [text|n]; [reflexivity|]. rewrite expandFrom_single.
  destruct (Nat.eqb_spec n (S k)) as [->|Hne]; cbn [expandFrom].
  - replace (k <? S k)%nat with true by (symmetry; apply Nat.ltb_lt; lia).
    now replace (S k - k - 1) with 0 by lia.
  - destruct (Nat.ltb_spec (S k) n) as [Hlt|Hge].
    + replace (k <? n)%nat with true by (symmetry; apply Nat.ltb_lt; lia).
      now replace (n - k - 1) with (S (n - S k - 1)) by lia.
    + destruct (Nat.ltb_spec k n) as [Hlt|_]; [lia | reflexivity].
Qed.

Lemma litsDollarFree_expandFrom (k : nat) (v : string) (pieces : list piece) :
  dollarFree v = true -> litsDollarFree pieces = true ->
  litsDollarFree (map (expandFrom k [v]) pieces) = true.
Proof.
  intros Hv. induction pieces as [|p pieces IH]; [reflexivity|].
  cbn [litsDollarFree forallb map]. intros H. apply andb_true_iff in H as [Hp Hr].
  apply andb_true_iff. split; [|exact (IH Hr)].
  destruct p as [text|n]; [exact Hp|]. rewrite expandFrom_single.
  now destruct (Nat.eqb n (S k)).
Qed.

(** The second pass on a template of text and path-segment tokens, when
    no path-segment token begins in a text or in a segment. *)
Lemma pathLoop_pieces (pathSlice : list string) (k : nat) (pieces : list piece) :
  litsDollarFree pieces = true -> forallb dollarFree pathSlice = true ->
  pathLoop pathSlice k (showPieces pieces)
  = showPieces (map (expandFrom k pathSlice) pieces).
Proof.
  revert k pieces. induction pathSlice as [|v rest IH]; intros k pieces Hl Hp.
  - cbn [pathLoop]. f_equal. rewrite <- (map_id pieces) at 1.
    apply map_ext. intros [text|n]; [reflexivity|]. cbn [expandFrom].
    destruct (k <? n)%nat; [|reflexivity]. now destruct (n - k - 1).
  - cbn [pathLoop forallb] in *. apply andb_true_iff in Hp as [Hv Hrest].
    change ("{$" ++ strconv.Itoa (k + 1) ++ "}") with (pathToken (k + 1)).
    rewrite Nat.add_1_r, Replace_pieces by exact Hl.
    rewrite IH by (try apply litsDollarFree_expandFrom; assumption).
    rewrite map_map. f_equal. apply map_ext. intros p. apply expandFrom_step.
Qed.

Lemma expandFrom_expandPiece (pathSlice : list string) (pieces : list piece) :
  showPieces (map (expandFrom 0 pathSlice) pieces) = expandPieces pathSlice pieces.
Proof.
  induction pieces as [|p pieces IH]; [reflexivity|].
  cbn [map showPieces expandPieces]. rewrite IH. f_equal.
  destruct p as [text|[|i]]; try reflexivity.
  cbn [expandFrom expandPiece Nat.ltb Nat.leb]. rewrite Nat.sub_0_r.
  cbn [Nat.sub]. rewrite Nat.sub_0_r. now destruct (nth_error pathSlice i).
Qed.

(** ** What a replacement leaves in place *)

Lemma prefix_split (p s : string) :
  String.prefix p s = true -> exists t, s = p ++ t.
Proof.
  revert s. induction p as [|a p IH]; intros s H.
  - now exists s.
  - destruct s as [|c s]; [discriminate H|].
    destruct (ascii_dec a c) as [->|n]; [|now rewrite prefix_head in H].
    rewrite prefix_cons in H. destruct (IH s H) as [t ->]. now exists t.
Qed.

Lemma Contains_app_r (a t sub : string) :
  strings.Contains t sub = true -> strings.Contains (a ++ t) sub = true.
Proof.
  intros H. induction a as [|c a IH]; [exact H|].
  cbn [append]. rewrite Contains_cons, IH. apply orb_true_r.
Qed.

(** A token that the replaced one cannot start stays where it is. *)
Lemma Contains_Replace_kept (xt ot v s : string) :
  braceFree xt = true -> braceFree ot = true ->
  (forall t, String.prefix (String "{" xt) (String "{" ot ++ t) = false) ->
  strings.Contains s (String "{" xt) = true ->
  strings.Contains (strings.Replace s (String "{" ot) v) (String "{" xt) = true.
Proof.
  intros Hx Ho Hdiff.
  remember (String.length s) as n eqn:Hn. revert s Hn.
  induction n as [n IH] using lt_wf_ind. intros s Hn Hc.
  destruct s as [|c s]; [discriminate Hc|].
  destruct (String.prefix (String "{" ot) (String c s)) eqn:Ep.
  - destruct (prefix_split _ _ Ep) as [t Ht]. rewrite Ht in Hc |- *.
    rewrite Replace_occurrence. apply Contains_app_r.
    cbn [append] in Hc. rewrite Contains_cons in Hc.
    change (String "{" (ot ++ t)) with (String "{" ot ++ t) in Hc.
    rewrite Hdiff in Hc. cbn [orb] in Hc.
    rewrite Contains_braceFree_app in Hc by exact Ho.
    apply (IH (String.length t)); [|reflexivity | exact Hc].
    rewrite Hn, Ht, length_append. cbn [String.length]. lia.
  - rewrite Replace_copy by exact Ep. rewrite Contains_cons in Hc |- *.
    destruct (strings.Contains s (String "{" xt)) eqn:Es.
    + assert (Hlt : String.length s < n) by (rewrite Hn; cbn [String.length]; lia).
      rewrite (IH _ Hlt s eq_refl Es). apply orb_true_r.
    + rewrite orb_false_r in Hc. destruct (prefix_split _ _ Hc) as [t Ht].
      injection Ht as -> ->.
      rewrite Replace_braceFree_app by exact Hx.
      change (String "{" (xt ++ ?u)) with (String "{" xt ++ u).
      now rewrite prefix_append.
Qed.

(** A path-segment token stays where a token of the scanner is
    replaced. *)
Lemma Contains_Replace_pathToken (c : ascii) (w v s : string) (n : nat) :
  Ascii.eqb c "$" = false -> braceFree (String c w) = true ->
  strings.Contains s (pathToken n) = true ->
  strings.Contains (strings.Replace s (String "{" (String c w)) v) (pathToken n) = true.
Proof.
  intros Hc Hw. unfold pathToken. rewrite token_cons. cbn [append].
  apply Contains_Replace_kept; [apply pathToken_tail_braceFree | exact Hw |].
  intros t. cbn [append]. rewrite prefix_cons. apply prefix_head.
  intros <-. discriminate Hc.
Qed.

(** And where another path-segment token is. *)
Lemma Contains_Replace_segment (j n : nat) (v s : string) :
  n <> j -> strings.Contains s (pathToken n) = true ->
  strings.Contains (strings.Replace s (pathToken j) v) (pathToken n) = true.
Proof.
  intros Hne. unfold pathToken at 1 3. rewrite !token_cons. cbn [append].
  apply Contains_Replace_kept; try apply pathToken_tail_braceFree.
  intros t. destruct (String.prefix _ _) eqn:E; [|reflexivity].
  change (String "{" (String "$" (strconv.Itoa n ++ "}"))) with (pathToken n) in E.
  change (String "{" (String "$" (strconv.Itoa j ++ "}"))) with (pathToken j) in E.
  apply pathToken_prefix in E. congruence.
Qed.

Lemma pathLoop_keeps (pathSlice : list string) (k n : nat) (s : string) :
  k + List.length pathSlice < n ->
  strings.Contains s (pathToken n) = true ->
  strings.Contains (pathLoop pathSlice k s) (pathToken n) = true.
Proof.
  revert k s. induction pathSlice as [|v rest IH]; intros k s Hn Hc; [exact Hc|].
  cbn [pathLoop List.length] in *.
  change ("{$" ++ strconv.Itoa (k + 1) ++ "}") with (pathToken (k + 1)).
  apply IH; [lia|]. apply Contains_Replace_segment; [lia | exact Hc].
Qed.

(** ** The first pass leaves the path-segment tokens in place *)

Lemma spanWord_allWord (s : string) : allWord (fst (spanWord s)) = true.
Proof.
  induction s as [|c s IH]; [reflexivity|]. cbn [spanWord].
  destruct (isWord c) eqn:E; [|reflexivity].
  destruct (spanWord s) as [w rest]. cbn [fst allWord] in *. now rewrite E, IH.
Qed.

Lemma matchPlaceholder_shaped (s m : string) :
  matchPlaceholder s = Some m -> tokenShaped m = true.
Proof.
  unfold matchPlaceholder. destruct s as [|c0 s1]; [discriminate|].
  destruct (Ascii.eqb_spec c0 "{") as [->|]; [|discriminate].
  set (sg := match s1 with
             | String c s2 => if isSigil c then (String c "", s2) else ("", s1)
             | EmptyString => ("", s1)
             end).
  assert (Hsg : isSigilString (fst sg) = true).
  { subst sg. destruct s1 as [|c s2]; [reflexivity|].
    destruct (isSigil c) eqn:E; [exact E | reflexivity]. }
  destruct sg as [sigil s2]. cbn [fst] in Hsg.
  pose proof (spanWord_allWord s2) as Hw.
  destruct (spanWord s2) as [[|w0 w] [|c1 rest]]; try discriminate.
  destruct (Ascii.eqb_spec c1 "}") as [->|]; [|discriminate].
  intros [= <-]. cbn [fst] in Hw.
  destruct (token_tail sigil (String w0 w) Hsg Hw) as (c & t & Ht & Hc & Hbf).
  change (String w0 (w ++ "}")) with (String w0 w ++ "}").
  rewrite Ht. cbn [tokenShaped]. now rewrite Hc, Hbf.
Qed.

Lemma FindAll_from_shaped (k : nat) (s : string) :
  Forall (fun m => tokenShaped m = true) (FindAll_from k s).
Proof.
  revert k. induction s as [|c s IH]; intros k; cbn [FindAll_from]; [constructor|].
  destruct k as [|k]; [|apply IH].
  destruct (matchPlaceholder (String c s)) as [m|] eqn:E; [|apply IH].
  constructor; [now apply matchPlaceholder_shaped in E | apply IH].
Qed.

Section Keeps.

Variables (r : Request) (ph : string) (n : nat).
Hypothesis Hph : tokenShaped ph = true.

Lemma Replace_ph_keeps (v s : string) :
  strings.Contains s (pathToken n) = true ->
  strings.Contains (strings.Replace s ph v) (pathToken n) = true.
Proof.
  destruct ph as [|c0 [|c w]]; try discriminate Hph. cbn [tokenShaped] in Hph.
  apply andb_true_iff in Hph as [H Hbf]. apply andb_true_iff in H as [H0 Hc].
  apply Ascii.eqb_eq in H0. subst c0. apply negb_true_iff in Hc.
  now apply Contains_Replace_pathToken.
Qed.

Lemma keywords_keeps (x : string) :
  strings.Contains x (pathToken n) = true ->
  strings.Contains (keywords r ph x) (pathToken n) = true.
Proof.
  intros Hx. unfold keywords.
  repeat match goal with
  | |- context [if String.eqb ph ?k then _ else _] =>
      destruct (String.eqb ph k);
      [try destruct (BasicAuth r) as [[user ?]|];
       repeat (apply Contains_Replace_pathToken; [reflexivity | reflexivity |]);
       exact Hx |]
  end.
  exact Hx.
Qed.

Lemma label_keeps (x y : string) :
  label r ph x = Next y -> strings.Contains x (pathToken n) = true ->
  strings.Contains y (pathToken n) = true.
Proof.
  unfold label. destruct (strings.HasPrefix ph "{label"); [|now intros [= <-]].
  destruct (slice ph 6 (String.length ph - 1)) as [nStr|]; [|discriminate].
  destruct (strconv.Atoi nStr) as [i|]; [|discriminate].
  destruct (i <? 1)%Z; [discriminate|].
  destruct (Z.of_nat _ <? i)%Z; [discriminate|].
  intros [= <-]. apply Replace_ph_keeps.
Qed.

Lemma headerLoop_keeps (h : list (string * list string)) (want x : string) :
  strings.Contains x (pathToken n) = true ->
  strings.Contains (headerLoop h ph want x) (pathToken n) = true.
Proof.
  revert x. induction h as [|[key values] h IH]; intros x Hx; [exact Hx|].
  cbn [headerLoop]. apply IH. destruct (strings.EqualFold key want); [|exact Hx].
  now apply Replace_ph_keeps.
Qed.

Lemma namedLoop_keeps (m : list (string * string)) (name x : string) :
  strings.Contains x (pathToken n) = true ->
  strings.Contains (namedLoop m ph name x) (pathToken n) = true.
Proof.
  revert x. induction m as [|[key value] m IH]; intros x Hx; [exact Hx|].
  cbn [namedLoop]. apply IH. destruct (String.eqb key name); [|exact Hx].
  now apply Replace_ph_keeps.
Qed.

Lemma body_next (lo : nat) (k : string -> Flow) (y : string) :
  body ph lo k = Next y -> exists b, k b = Next y.
Proof.
  unfold body. destruct (slice ph lo (String.length ph - 1)) as [b|]; [|discriminate].
  intros H. now exists b.
Qed.

Lemma sigils_keep (x y : string) :
  strings.Contains x (pathToken n) = true ->
  (header r ph x = Next y -> strings.Contains y (pathToken n) = true)
  /\ (cookie r ph x = Next y -> strings.Contains y (pathToken n) = true)
  /\ (query r ph x = Next y -> strings.Contains y (pathToken n) = true)
  /\ (numbered r ph x = Next y -> strings.Contains y (pathToken n) = true)
  /\ (named r ph x = Next y -> strings.Contains y (pathToken n) = true).
Proof.
  intros Hx. unfold header, cookie, query, numbered, named, byte1.
  repeat split; intros H.
  - destruct (String.get 1 ph) as [c|]; [|discriminate].
    destruct (Ascii.eqb c ">"); [|now injection H as <-].
    apply body_next in H as [b [= <-]]. now apply headerLoop_keeps.
  - destruct (String.get 1 ph) as [c|]; [|discriminate].
    destruct (Ascii.eqb c "~"); [|now injection H as <-].
    apply body_next in H as [b H].
    destruct (Cookie (Cookies r) b); injection H as <-; [now apply Replace_ph_keeps | exact Hx].
  - destruct (String.get 1 ph) as [c|]; [|discriminate].
    destruct (Ascii.eqb c "?"); [|now injection H as <-].
    apply body_next in H as [b [= <-]]. now apply Replace_ph_keeps.
  - destruct (String.get 1 ph) as [c|]; [|discriminate].
    destruct (isDigit c); [|now injection H as <-].
    destruct (strconv.Atoi (String c "")) as [index|]; [|discriminate].
    destruct (regexMatches r) as [|l|]; try discriminate.
    destruct ((index - 1 <? 0)%Z || (Z.of_nat (List.length l) <=? index - 1)%Z);
      [discriminate|].
    injection H as <-. now apply Replace_ph_keeps.
  - apply body_next in H as [b H].
    destruct (hasLetter b); [|now injection H as <-].
    destruct (regexMatches r); injection H as <-; try exact Hx.
    now apply namedLoop_keeps.
Qed.

Lemma resolve_keeps (x y : string) :
  resolve r ph x = Next y -> strings.Contains x (pathToken n) = true ->
  strings.Contains y (pathToken n) = true.
Proof.
  unfold resolve. intros H Hx.
  destruct (label r ph (keywords r ph x)) as [x1| |] eqn:E1; try discriminate.
  pose proof (label_keeps _ _ E1 (keywords_keeps x Hx)) as H1. cbn [andThen] in H.
  destruct (header r ph x1) as [x2| |] eqn:E2; try discriminate.
  destruct (sigils_keep x1 x2 H1) as (K & _). specialize (K E2). cbn [andThen] in H.
  destruct (cookie r ph x2) as [x3| |] eqn:E3; try discriminate.
  destruct (sigils_keep x2 x3 K) as (_ & K3 & _). specialize (K3 E3). cbn [andThen] in H.
  destruct (query r ph x3) as [x4| |] eqn:E4; try discriminate.
  destruct (sigils_keep x3 x4 K3) as (_ & _ & K4 & _). specialize (K4 E4). cbn [andThen] in H.
  destruct (numbered r ph x4) as [x5| |] eqn:E5; try discriminate.
  destruct (sigils_keep x4 x5 K4) as (_ & _ & _ & K5 & _). specialize (K5 E5).
  cbn [andThen] in H.
  destruct (sigils_keep x5 y K5) as (_ & _ & _ & _ & K6). exact (K6 H).
Qed.

End Keeps.

Lemma placeholdersLoop_keeps (r : Request) (n : nat) (l : list string) (x y : string) :
  Forall (fun m => tokenShaped m = true) l ->
  placeholdersLoop r l x = Next y ->
  strings.Contains x (pathToken n) = true -> strings.Contains y (pathToken n) = true.
Proof.
  intros Hl. revert x. induction Hl as [|ph l Hph _ IH]; intros x; cbn [placeholdersLoop].
  - now intros [= <-].
  - destruct (resolve r ph x) as [x1| |] eqn:E; try discriminate. cbn [andThen].
    intros H Hx. apply (IH x1 H). exact (resolve_keeps r ph n Hph x x1 E Hx).
Qed.

(** ** url.QueryEscape *)

(** [url.QueryEscape] escapes the braces. *)
Lemma hexDigit_not_brace (n : nat) : n < 16 -> Ascii.eqb (url.hexDigit n) "{" = false.
Proof.
  intros H. do 16 (destruct n as [|n]; [reflexivity|]). lia.
Qed.

Lemma QueryEscape_braceFree (s : string) : braceFree (url.QueryEscape s) = true.
Proof.
  induction s as [|c s IH]; [reflexivity|]. cbn [url.QueryEscape].
  destruct (Ascii.eqb c " "); [exact IH|].
  destruct (url.shouldEscape c) eqn:E.
  - cbn [braceFree]. rewrite !hexDigit_not_brace, IH; [reflexivity| |].
    + apply Nat.mod_upper_bound. lia.
    + apply Nat.Div0.div_lt_upper_bound. pose proof (nat_ascii_bounded c). lia.
  - cbn [braceFree]. rewrite IH, andb_true_r.
    destruct (Ascii.eqb_spec c "{") as [->|]; [discriminate E | reflexivity].
Qed.

(** ** strings.Split *)

Lemma Contains_byte_cons (a c : ascii) (s : string) :
  strings.Contains (String a s) (String c "")
  = Ascii.eqb a c || strings.Contains s (String c "").
Proof.
  rewrite Contains_cons. f_equal.
  destruct (Ascii.eqb_spec a c) as [->|n].
  - now rewrite prefix_cons, prefix_nil.
  - apply prefix_head. congruence.
Qed.

Lemma Contains_byte_nil (c : ascii) : strings.Contains "" (String c "") = false.
Proof. reflexivity. Qed.

Lemma Split_nonempty (s : string) (sep : ascii) : strings.Split s sep <> [].
Proof.
  destruct s as [|c s]; cbn [strings.Split]; [discriminate|].
  destruct (Ascii.eqb c sep); [discriminate|].
  now destruct (strings.Split s sep).
Qed.

(** Joined with the separator, the pieces give the text back. *)
Lemma Split_Join (s : string) (sep : ascii) :
  strings.Join (strings.Split s sep) (String sep "") = s.
Proof.
  unfold strings.Join. induction s as [|c s IH]; [reflexivity|].
  cbn [strings.Split]. pose proof (Split_nonempty s sep) as Hne.
  destruct (strings.Split s sep) as [|x xs]; [now destruct Hne|].
  destruct (Ascii.eqb_spec c sep) as [->|n].
  - change (String.concat (String sep "") ("" :: x :: xs))
      with (String sep (String.concat (String sep "") (x :: xs))).
    now rewrite IH.
  - rewrite <- IH. now destruct xs.
Qed.

Lemma Split_length (s : string) (sep : ascii) :
  List.length (strings.Split s sep) = S (countByte sep s).
Proof.
  induction s as [|c s IH]; [reflexivity|]. cbn [strings.Split countByte].
  pose proof (Split_nonempty s sep) as Hne.
  destruct (Ascii.eqb c sep); cbn [List.length Nat.add]; [now rewrite IH|].
  destruct (strings.Split s sep) as [|x xs]; [now destruct Hne | exact IH].
Qed.

(** A piece holds no separator, and no byte that the text does not
    hold. *)
Lemma Split_pieces (s : string) (sep c : ascii) :
  c = sep \/ strings.Contains s (String c "") = false ->
  Forall (fun p => strings.Contains p (String c "") = false) (strings.Split s sep).
Proof.
  induction s as [|a s IH]; intros H.
  - repeat constructor.
  - assert (H' : c = sep \/ strings.Contains s (String c "") = false).
    { destruct H as [H|H]; [now left | right].
      rewrite Contains_byte_cons in H. now apply orb_false_iff in H. }
    specialize (IH H'). cbn [strings.Split].
    destruct (Ascii.eqb_spec a sep) as [->|n]; [constructor; [reflexivity | exact IH]|].
    assert (Ha : Ascii.eqb a c = false).
    { destruct H as [->|H]; [now apply Ascii.eqb_neq|].
      rewrite Contains_byte_cons in H. now apply orb_false_iff in H. }
    destruct (strings.Split s sep) as [|x xs].
    + constructor; [|constructor]. now rewrite Contains_byte_cons, Ha.
    + inversion IH as [|? ? Hx Hxs]; subst. constructor; [|exact Hxs].
      now rewrite Contains_byte_cons, Ha.
Qed.

(** The first piece is the text up to the first separator. *)
Lemma Split_hd (s : string) (sep : ascii) :
  s = hd "" (strings.Split s sep)
  \/ exists rest, s = hd "" (strings.Split s sep) ++ String sep rest.
Proof.
  induction s as [|a s IH]; [now left|]. cbn [strings.Split].
  destruct (Ascii.eqb_spec a sep) as [->|n]; [right; now exists s|].
  pose proof (Split_nonempty s sep) as Hne.
  destruct (strings.Split s sep) as [|x xs]; [now destruct Hne|]. cbn [hd] in *.
  destruct IH as [IH|[rest IH]]; [left | right; exists rest]; now rewrite IH at 1.
Qed.





(** ** What an iteration does does not depend on the string *)

Lemma replaceAll_app (ph : string) (ws1 ws2 : list string) (x : string) :
  replaceAll ph (ws1 ++ ws2) x = replaceAll ph ws2 (replaceAll ph ws1 x).
Proof. apply fold_left_app. Qed.

Lemma uniform_next (ph : string) : uniform ph Next.
Proof. left. now exists []. Qed.

Lemma uniform_return (ph s : string) (e : error) : uniform ph (fun _ => Return s e).
Proof. right. exists (Return s e). split; [discriminate | reflexivity]. Qed.

Lemma uniform_panic (ph msg : string) : uniform ph (fun _ => Panic msg).
Proof. right. exists (Panic msg). split; [discriminate | reflexivity]. Qed.

Lemma uniform_replace (ph v : string) :
  braceFree v = true -> uniform ph (fun x => Next (strings.Replace x ph v)).
Proof.
  intros Hv. left. exists [v]. split; [|reflexivity]. cbn [forallb]. now rewrite Hv.
Qed.

Lemma uniform_bind (ph : string) (f g : string -> Flow) :
  uniform ph f -> uniform ph g -> uniform ph (fun x => andThen (f x) g).
Proof.
  intros [(ws1 & H1 & Hf)|(res & Hres & Hf)] Hg.
  - destruct Hg as [(ws2 & H2 & Hg)|(res & Hres & Hg)].
    + left. exists (ws1 ++ ws2)%list. split.
      * now rewrite forallb_app, H1, H2.
      * intros x. rewrite Hf. cbn [andThen]. now rewrite Hg, replaceAll_app.
    + right. exists res. split; [exact Hres|].
      intros x. rewrite Hf. cbn [andThen]. apply Hg.
  - right. exists res. split; [exact Hres|].
    intros x. rewrite Hf. destruct res as [y| |]; [now destruct (Hres y) | reflexivity..].
Qed.

Lemma path_Split_braceFree (p : string) :
  braceFree p = true ->
  braceFree (fst (path.Split p)) = true /\ braceFree (snd (path.Split p)) = true.
Proof.
  induction p as [|c p IH]; [now split|]. cbn [braceFree path.Split].
  intros H. apply andb_true_iff in H as [Hc Hp]. destruct (IH Hp) as [Hd Hf].
  destruct (path.Split p) as [[|d dir] file]; cbn [fst snd] in *.
  - destruct (Ascii.eqb c "/"); cbn [fst snd braceFree]; now rewrite ?Hc, ?Hp.
  - cbn [braceFree] in *. now rewrite Hc, Hd, Hf.
Qed.

Lemma Join_braceFree (values : list string) :
  forallb braceFree values = true -> braceFree (strings.Join values ",") = true.
Proof. intros H. now apply braceFree_concat. Qed.

Lemma forallb_concat_in (l : list (string * list string)) (key : string)
      (values : list string) :
  forallb braceFree (List.concat (map snd l)) = true -> In (key, values) l ->
  forallb braceFree values = true.
Proof.
  induction l as [|[k v] l IH]; [now intros _ []|].
  cbn [map snd List.concat]. rewrite forallb_app. intros H [Heq|Hin].
  - injection Heq as -> ->. now apply andb_true_iff in H.
  - apply IH; [now apply andb_true_iff in H | exact Hin].
Qed.

Lemma headerLoop_replaces (h : list (string * list string)) (ph want : string) :
  forallb braceFree (List.concat (map snd h)) = true ->
  exists ws, forallb braceFree ws = true
             /\ forall x, headerLoop h ph want x = replaceAll ph ws x.
Proof.
  induction h as [|[key values] h IH]; [now exists []|].
  cbn [map snd List.concat]. rewrite forallb_app. intros H.
  apply andb_true_iff in H as [Hv Hh]. destruct (IH Hh) as (ws & Hws & Hloop).
  cbn [headerLoop]. destruct (strings.EqualFold key want).
  - exists (strings.Join values "," :: ws). split.
    + cbn [forallb]. now rewrite Join_braceFree, Hws.
    + intros x. now rewrite Hloop.
  - now exists ws.
Qed.

Lemma namedLoop_replaces (m : list (string * string)) (ph name : string) :
  forallb braceFree (map snd m) = true ->
  exists ws, forallb braceFree ws = true
             /\ forall x, namedLoop m ph name x = replaceAll ph ws x.
Proof.
  induction m as [|[key value] m IH]; [now exists []|].
  cbn [map snd forallb]. intros H.
  apply andb_true_iff in H as [Hv Hm]. destruct (IH Hm) as (ws & Hws & Hloop).
  cbn [namedLoop]. destruct (String.eqb key name).
  - exists (value :: ws). split.
    + cbn [forallb]. now rewrite Hv, Hws.
    + intros x. now rewrite Hloop.
  - now exists ws.
Qed.

Lemma Cookie_braceFree (cookies : list (string * string)) (name v : string) :
  forallb braceFree (map snd cookies) = true -> Cookie cookies name = Some v ->
  braceFree v = true.
Proof.
  induction cookies as [|[n w] cookies IH]; [discriminate|].
  cbn [map snd forallb Cookie]. intros H. apply andb_true_iff in H as [Hw Hc].
  destruct (String.eqb n name); [now intros [= <-] | now apply IH].
Qed.

Lemma Get_braceFree (q : list (string * list string)) (name : string) :
  forallb braceFree (List.concat (map snd q)) = true -> braceFree (Get q name) = true.
Proof.
  induction q as [|[k vs] q IH]; [reflexivity|].
  cbn [map snd List.concat Get]. rewrite forallb_app. intros H.
  apply andb_true_iff in H as [Hv Hq].
  destruct (String.eqb k name); [|now apply IH].
  destruct vs as [|v vs]; [reflexivity|]. cbn [forallb] in Hv.
  now apply andb_true_iff in Hv.
Qed.

Section Uniform.

Variables (r : Request) (ph : string).
Hypothesis Hr : forallb braceFree (requestValues r) = true.

Lemma requestValues_fields :
  braceFree (Method r) = true /\ braceFree (Host r) = true
  /\ braceFree (Path (Url r)) = true /\ braceFree (RawQuery (Url r)) = true
  /\ braceFree (RequestURI (Url r)) = true /\ braceFree (Port (Url r)) = true
  /\ forallb braceFree (List.concat (map snd (Query (Url r)))) = true
  /\ forallb braceFree (List.concat (map snd (Header r))) = true
  /\ forallb braceFree (map snd (Cookies r)) = true
  /\ (forall user pw, BasicAuth r = Some (user, pw) -> braceFree user = true)
  /\ (forall l, regexMatches r = CtxSlice l -> forallb braceFree l = true)
  /\ (forall m, regexMatches r = CtxMap m -> forallb braceFree (map snd m) = true).
Proof.
  pose proof Hr as H. unfold requestValues in H. rewrite !forallb_app in H.
  apply andb_true_iff in H as [H0 H]. apply andb_true_iff in H as [H1 H].
  apply andb_true_iff in H as [H2 H]. apply andb_true_iff in H as [H3 H].
  apply andb_true_iff in H as [H4 H].
  cbn [forallb] in H0. repeat (apply andb_true_iff in H0 as [? H0]).
  repeat (split; [assumption|]). split; [|split].
  - intros user pw E. rewrite E in H4. cbn [forallb] in H4.
    now apply andb_true_iff in H4.
  - intros l E. now rewrite E in H.
  - intros m E. now rewrite E in H.
Qed.

Lemma keywords_uniform : uniform ph (fun x => Next (keywords r ph x)).
Proof.
  destruct requestValues_fields
    as (HM & HH & HP & HQ & HU & HPo & _ & _ & _ & HA & _ & _).
  pose proof (path_Split_braceFree _ HP) as [Hdir Hfile].
  pose proof (hostonly_braceFree r HH) as Hho.
  unfold keywords.
  repeat match goal with
  | |- context [String.eqb ph ?k] =>
      destruct (String.eqb_spec ph k) as [E|_];
      [ try (rewrite <- E; apply uniform_replace;
             first [assumption | apply QueryEscape_braceFree]) | ]
  end; [|apply uniform_next].
  rewrite <- E. destruct (BasicAuth r) as [[user pw]|] eqn:EA.
  - apply uniform_replace. exact (HA user pw eq_refl).
  - left. now exists [""; ""].
Qed.

Lemma label_uniform : uniform ph (label r ph).
Proof.
  destruct requestValues_fields as (_ & HH & _).
  unfold label. destruct (strings.HasPrefix ph "{label"); [|apply uniform_next].
  destruct (slice ph 6 (String.length ph - 1)) as [nStr|]; [|apply uniform_panic].
  destruct (strconv.Atoi nStr) as [n|e]; [|apply uniform_return].
  destruct (n <? 1)%Z; [apply uniform_return|].
  destruct (_ <? n)%Z; [apply uniform_return|].
  apply uniform_replace, nth_braceFree, Split_braceFree, hostonly_braceFree, HH.
Qed.

Lemma header_uniform : uniform ph (header r ph).
Proof.
  destruct requestValues_fields as (_ & _ & _ & _ & _ & _ & _ & Hh & _).
  unfold header, byte1, body. destruct (String.get 1 ph) as [c|]; [|apply uniform_panic].
  destruct (Ascii.eqb c ">"); [|apply uniform_next].
  destruct (slice ph 2 (String.length ph - 1)) as [want|]; [|apply uniform_panic].
  destruct (headerLoop_replaces (Header r) ph want Hh) as (ws & Hws & Hloop).
  left. exists ws. split; [exact Hws|]. intros x. now rewrite Hloop.
Qed.

Lemma cookie_uniform : uniform ph (cookie r ph).
Proof.
  destruct requestValues_fields as (_ & _ & _ & _ & _ & _ & _ & _ & Hc & _).
  unfold cookie, byte1, body. destruct (String.get 1 ph) as [c|]; [|apply uniform_panic].
  destruct (Ascii.eqb c "~"); [|apply uniform_next].
  destruct (slice ph 2 (String.length ph - 1)) as [name|]; [|apply uniform_panic].
  destruct (Cookie (Cookies r) name) as [v|] eqn:E; [|apply uniform_next].
  apply uniform_replace. exact (Cookie_braceFree _ _ _ Hc E).
Qed.

Lemma query_uniform : uniform ph (query r ph).
Proof.
  destruct requestValues_fields as (_ & _ & _ & _ & _ & _ & Hq & _).
  unfold query, byte1, body. destruct (String.get 1 ph) as [c|]; [|apply uniform_panic].
  destruct (Ascii.eqb c "?"); [|apply uniform_next].
  destruct (slice ph 2 (String.length ph - 1)) as [name|]; [|apply uniform_panic].
  apply uniform_replace. now apply Get_braceFree.
Qed.

Lemma numbered_uniform : uniform ph (numbered r ph).
Proof.
  destruct requestValues_fields as (_ & _ & _ & _ & _ & _ & _ & _ & _ & _ & Hs & _).
  unfold numbered, byte1. destruct (String.get 1 ph) as [c|]; [|apply uniform_panic].
  destruct (isDigit c); [|apply uniform_next].
  destruct (strconv.Atoi (String c "")) as [index|e]; [|apply uniform_return].
  destruct (regexMatches r) as [|l|m]; try apply uniform_panic.
  destruct (_ || _); [apply uniform_panic|].
  apply uniform_replace, nth_braceFree. now apply Hs.
Qed.

Lemma named_uniform : uniform ph (named r ph).
Proof.
  destruct requestValues_fields as (_ & _ & _ & _ & _ & _ & _ & _ & _ & _ & _ & Hm).
  unfold named, body.
  destruct (slice ph 1 (String.length ph - 1)) as [name|]; [|apply uniform_panic].
  destruct (hasLetter name); [|apply uniform_next].
  destruct (regexMatches r) as [|l|m]; try apply uniform_next.
  destruct (namedLoop_replaces m ph name (Hm m eq_refl)) as (ws & Hws & Hloop).
  left. exists ws. split; [exact Hws|]. intros x. now rewrite Hloop.
Qed.

(** On a request without a brace, an iteration of the loop replaces the
    placeholder by values that the request and the placeholder decide,
    or leaves the function in a way that they decide. *)
Lemma resolve_uniform : uniform ph (resolve r ph).
Proof.
  unfold resolve.
  apply (uniform_bind ph (fun x => label r ph (keywords r ph x))).
  { exact (uniform_bind ph _ _ keywords_uniform label_uniform). }
  apply (uniform_bind ph (header r ph)); [apply header_uniform|].
  apply (uniform_bind ph (cookie r ph)); [apply cookie_uniform|].
  apply (uniform_bind ph (query r ph)); [apply query_uniform|].
  apply (uniform_bind ph (numbered r ph)); [apply numbered_uniform|].
  apply named_uniform.
Qed.

End Uniform.

(** ** Replacements in a template of text and tokens *)

(** The body of a token holds no closing brace. *)
Lemma allWord_noClose (name : string) :
  allWord name = true -> strings.Contains name "}" = false.
Proof.
  induction name as [|c name IH]; [reflexivity|]. cbn [allWord]. intros H.
  apply andb_true_iff in H as [Hc Hn]. rewrite Contains_byte_cons, (IH Hn).
  destruct (Ascii.eqb_spec c "}") as [->|]; [discriminate Hc | reflexivity].
Qed.

Lemma token_body_noClose (sg name : string) :
  isSigilString sg = true -> wordString name = true ->
  strings.Contains (sg ++ name) "}" = false.
Proof.
  intros Hsg Hname.
  assert (Hn : strings.Contains name "}" = false).
  { apply allWord_noClose. now destruct name. }
  destruct sg as [|c [|? ?]]; try discriminate Hsg; [exact Hn|].
  cbn [append isSigilString] in *. rewrite Contains_byte_cons, Hn.
  destruct (Ascii.eqb_spec c "}") as [->|]; [discriminate Hsg | reflexivity].
Qed.

(** Of two texts that end at their first closing brace, one is at the
    head of the other only when they are the same. *)
Lemma prefix_closed (b b' s : string) :
  strings.Contains b "}" = false -> strings.Contains b' "}" = false ->
  String.prefix (b ++ "}") (b' ++ String "}" s) = true -> b = b'.
Proof.
  revert b'. induction b as [|a b IH]; intros [|c b'] Hb Hb'; cbn [append]; try reflexivity.
  - rewrite Contains_byte_cons in Hb'. apply orb_false_iff in Hb' as [Hc _].
    destruct (ascii_dec "}" c) as [<-|n]; [discriminate Hc|].
    now rewrite prefix_head.
  - rewrite Contains_byte_cons in Hb. apply orb_false_iff in Hb as [Ha _].
    destruct (ascii_dec a "}") as [->|n]; [discriminate Ha|].
    now rewrite prefix_head.
  - rewrite Contains_byte_cons in Hb, Hb'.
    apply orb_false_iff in Hb as [_ Hb]. apply orb_false_iff in Hb' as [_ Hb'].
    destruct (ascii_dec a c) as [->|n]; [|now rewrite prefix_head].
    rewrite prefix_cons. intros H. f_equal. now apply IH.
Qed.

Lemma token_prefix_eq (sg name sg' name' s : string) :
  isSigilString sg = true -> wordString name = true ->
  isSigilString sg' = true -> wordString name' = true ->
  String.prefix (token sg name) (token sg' name' ++ s) = true ->
  token sg name = token sg' name'.
Proof.
  intros Hsg Hname Hsg' Hname'. unfold token. cbn [append].
  rewrite prefix_cons, <- !append_assoc. rewrite (append_assoc (sg' ++ name') "}" s).
  cbn [append]. intros H.
  now rewrite (prefix_closed _ _ _ (token_body_noClose sg name Hsg Hname)
                 (token_body_noClose sg' name' Hsg' Hname') H).
Qed.

Lemma braceFree_inert (s : string) : braceFree s = true -> inert s = true.
Proof.
  induction s as [|c s IH]; [reflexivity|]. cbn [braceFree inert]. intros H.
  apply andb_true_iff in H as [Hc Hs]. apply negb_true_iff in Hc. now rewrite Hc, IH.
Qed.

Lemma itemOk_inert (items : list item) :
  forallb itemOk items = true -> forallb itemInert items = true.
Proof.
  rewrite !forallb_forall. intros H i Hin. specialize (H i Hin).
  destruct i as [s|sg name]; [now apply braceFree_inert | exact H].
Qed.

Lemma pathToken_inert (n : nat) : inert (pathToken n) = true.
Proof.
  unfold pathToken. rewrite token_cons. cbn [append].
  change (inert (String "{" (String "$" (strconv.Itoa n ++ "}"))))
    with (inert (String "$" (strconv.Itoa n ++ "}"))).
  apply braceFree_inert, pathToken_tail_braceFree.
Qed.

(** The scanner finds no token in text of which every opening brace is
    followed by a dollar. *)
Lemma FindAll_inert_app (l s : string) :
  inert l = true -> FindAllStringSubmatch (l ++ s) = FindAllStringSubmatch s.
Proof.
  induction l as [|a l IH]; [reflexivity|]. cbn [inert append]. intros H.
  apply andb_true_iff in H as [Ha Hl]. rewrite FindAll_no_match; [exact (IH Hl)|].
  destruct (Ascii.eqb_spec a "{") as [->|n].
  - destruct l as [|d l]; [discriminate Ha|]. apply Ascii.eqb_eq in Ha. subst d.
    reflexivity.
  - apply matchPlaceholder_head. now apply Ascii.eqb_neq.
Qed.

Section Items.

Variables (sg name : string).
Hypothesis Hsg : isSigilString sg = true.
Hypothesis Hname : wordString name = true.

(** Such text is copied when [token sg name] is replaced. *)
Lemma Replace_inert_app (v l s : string) :
  inert l = true ->
  strings.Replace (l ++ s) (token sg name) v = l ++ strings.Replace s (token sg name) v.
Proof.
  destruct (token_tail sg name Hsg Hname) as (c & w & Ht & Hc & _).
  rewrite token_cons, Ht.
  induction l as [|a l IH]; [reflexivity|]. cbn [inert append]. intros H.
  apply andb_true_iff in H as [Ha Hl]. rewrite Replace_copy; [now rewrite (IH Hl)|].
  destruct (Ascii.eqb_spec a "{") as [->|n].
  - destruct l as [|d l]; [discriminate Ha|]. apply Ascii.eqb_eq in Ha. subst d.
    cbn [append]. rewrite prefix_cons. apply prefix_head. intros ->. discriminate Hc.
  - apply prefix_head. congruence.
Qed.

(** Another token is copied when [token sg name] is replaced. *)
Lemma Replace_other_token (sg' name' v s : string) :
  isSigilString sg' = true -> wordString name' = true ->
  String.eqb (token sg' name') (token sg name) = false ->
  strings.Replace (token sg' name' ++ s) (token sg name) v
  = token sg' name' ++ strings.Replace s (token sg name) v.
Proof.
  intros Hsg' Hname' Hne.
  assert (Hp : String.prefix (token sg name) (token sg' name' ++ s) = false).
  { destruct (String.prefix _ _) eqn:E; [|reflexivity].
    apply token_prefix_eq in E; try assumption.
    rewrite E, String.eqb_refl in Hne. discriminate Hne. }
  rewrite (token_cons sg' name') in *. rewrite (token_cons sg name) in *.
  cbn [append] in *. rewrite Replace_copy by exact Hp. f_equal.
  apply Replace_braceFree_app. now apply token_braceFree_tail.
Qed.

Lemma Replace_items (v : string) (items : list item) :
  forallb itemInert items = true ->
  strings.Replace (showItems items) (token sg name) v
  = showItems (map (substItem (token sg name) v) items).
Proof.
  induction items as [|[s|sg' name'] items IH]; [reflexivity|..];
    cbn [forallb itemInert map substItem showItems showItem]; intros H;
    apply andb_true_iff in H as [Hi Hr]; specialize (IH Hr).
  - now rewrite Replace_inert_app, IH.
  - apply andb_true_iff in Hi as [Hsg' Hname'].
    destruct (String.eqb_spec (token sg' name') (token sg name)) as [E|E].
    + rewrite E. cbn [showItems showItem]. rewrite <- IH.
      rewrite token_cons. apply Replace_occurrence.
    + cbn [showItems showItem]. rewrite <- IH.
      apply Replace_other_token; try assumption. now apply String.eqb_neq.
Qed.

Lemma substItem_ok (v : string) (items : list item) :
  braceFree v = true -> forallb itemOk items = true ->
  forallb itemOk (map (substItem (token sg name) v) items) = true.
Proof.
  intros Hv. induction items as [|[s|sg' name'] items IH]; [reflexivity|..];
    cbn [forallb itemOk map substItem]; intros H;
    apply andb_true_iff in H as [Hi Hr]; specialize (IH Hr).
  - now rewrite Hi, IH.
  - destruct (String.eqb _ _); cbn [forallb itemOk]; now rewrite ?Hv, ?Hi, IH.
Qed.

Lemma substItem_inert (v : string) (items : list item) :
  braceFree v = true -> forallb itemInert items = true ->
  forallb itemInert (map (substItem (token sg name) v) items) = true.
Proof.
  intros Hv. induction items as [|[s|sg' name'] items IH]; [reflexivity|..];
    cbn [forallb itemInert map substItem]; intros H;
    apply andb_true_iff in H as [Hi Hr]; specialize (IH Hr).
  - now rewrite Hi, IH.
  - destruct (String.eqb _ _); cbn [forallb itemInert];
      now rewrite ?(braceFree_inert _ Hv), ?Hi, IH.
Qed.

Lemma substItem_again (v v' : string) (items : list item) :
  map (substItem (token sg name) v') (map (substItem (token sg name) v) items)
  = map (substItem (token sg name) v) items.
Proof.
  rewrite map_map. apply map_ext. intros [s|sg' name']; [reflexivity|].
  cbn [substItem]. destruct (String.eqb _ _) eqn:E; [reflexivity|].
  cbn [substItem]. now rewrite E.
Qed.

(** The values of an iteration, on a template of text and tokens: the
    first one takes the place of the token, and nothing is left for the
    others. *)
Lemma replaceAll_items (ws : list string) (items : list item) :
  forallb braceFree ws = true -> forallb itemInert items = true ->
  replaceAll (token sg name) ws (showItems items)
  = showItems (match ws with
               | [] => items
               | w :: _ => map (substItem (token sg name) w) items
               end).
Proof.
  destruct ws as [|w ws]; [reflexivity|]. cbn [forallb]. intros H Hitems.
  apply andb_true_iff in H as [Hw Hws]. unfold replaceAll. cbn [fold_left].
  rewrite Replace_items by exact Hitems.
  pose proof (substItem_inert w items Hw Hitems) as Hok.
  induction ws as [|w' ws IH]; [reflexivity|]. cbn [forallb fold_left] in *.
  apply andb_true_iff in Hws as [_ Hws].
  rewrite Replace_items by exact Hok. rewrite substItem_again. now apply IH.
Qed.

End Items.

Lemma FindAll_items (items : list item) :
  forallb itemInert items = true ->
  FindAllStringSubmatch (showItems items) = tokensOf items.
Proof.
  induction items as [|[s|sg name] items IH]; [reflexivity|..];
    cbn [forallb itemInert showItems showItem tokensOf]; intros H;
    apply andb_true_iff in H as [Hi Hr]; specialize (IH Hr).
  - now rewrite FindAll_inert_app.
  - apply andb_true_iff in Hi as [Hsg Hname]. now rewrite FindAll_token, IH.
Qed.

(** No path-segment token lies in a template of brace-free text and
    tokens of the scanner. *)
Lemma Contains_items_pathToken (items : list item) (n : nat) :
  forallb itemOk items = true ->
  strings.Contains (showItems items) (pathToken n) = false.
Proof.
  unfold pathToken. rewrite token_cons.
  induction items as [|[s|sg name] items IH]; [reflexivity|..];
    cbn [forallb itemOk showItems showItem]; intros H;
    apply andb_true_iff in H as [Hi Hr]; specialize (IH Hr).
  - now rewrite Contains_braceFree_app.
  - apply andb_true_iff in Hi as [Hsg Hname].
    destruct (token_tail sg name Hsg Hname) as (c & w & Ht & Hc & Hbf).
    rewrite token_cons, Ht. cbn [append]. rewrite Contains_cons.
    rewrite prefix_cons. cbn [append]. rewrite prefix_head.
    2:{ intros <-. discriminate Hc. }
    cbn [orb]. change (String c (w ++ showItems items)) with (String c w ++ showItems items).
    now rewrite Contains_braceFree_app.
Qed.

Lemma pathLoop_items (pathSlice : list string) (items : list item) :
  forallb itemOk items = true ->
  pathLoop pathSlice 0 (showItems items) = showItems items.
Proof.
  intros H. apply pathLoop_absent. intros n. now apply Contains_items_pathToken.
Qed.

Lemma showItems_single (i : item) : showItems [i] = showItem i.
Proof. cbn [showItems]. apply append_nil_r. Qed.

(** Text without a brace, rendered alone, is returned as it is. *)
Lemma render_text (r : Request) (s : string) (pathSlice : list string) :
  braceFree s = true -> parsePlaceholders s r pathSlice = Returned s None.
Proof.
  intros H. unfold parsePlaceholders. rewrite FindAll_braceFree by exact H.
  cbn [placeholdersLoop]. now rewrite pathLoop_braceFree.
Qed.

(** A token rendered alone: the outcome of its iteration. *)
Lemma render_token_alone (r : Request) (sg name : string) :
  isSigilString sg = true -> wordString name = true ->
  parsePlaceholders (token sg name) r []
  = match resolve r (token sg name) (token sg name) with
    | Next y => Returned y None
    | Return s e => Returned s (Some e)
    | Panic msg => Panicked msg
    end.
Proof.
  intros Hsg Hname. unfold parsePlaceholders.
  rewrite <- (append_nil_r (token sg name)) at 1.
  rewrite FindAll_token by assumption. cbn [FindAllStringSubmatch FindAll_from].
  cbn [placeholdersLoop].
  destruct (resolve r (token sg name) (token sg name)); reflexivity.
Qed.

Lemma render_token_values (r : Request) (sg name : string) (ws : list string) :
  isSigilString sg = true -> wordString name = true ->
  forallb braceFree ws = true ->
  (forall x, resolve r (token sg name) x = Next (replaceAll (token sg name) ws x)) ->
  parsePlaceholders (token sg name) r []
  = Returned (match ws with [] => token sg name | w :: _ => w end) None.
Proof.
  intros Hsg Hname Hws Hres. rewrite render_token_alone, Hres by assumption.
  f_equal.
  assert (Hok : forallb itemInert [Tok sg name] = true)
    by (cbn [forallb itemInert]; now rewrite Hsg, Hname).
  pose proof (replaceAll_items sg name Hsg Hname ws [Tok sg name] Hws Hok) as H.
  rewrite showItems_single in H. cbn [showItem] in H. rewrite H.
  destruct ws as [|w ws]; [apply showItems_single|].
  cbn [map substItem]. rewrite String.eqb_refl. apply showItems_single.
Qed.

Lemma settleItem_nil (r : Request) (i : item) : settleItem r [] i = i.
Proof. now destruct i. Qed.

Lemma eqb_braceFree_token (w sg name : string) :
  braceFree w = true -> String.eqb w (token sg name) = false.
Proof.
  intros Hw. apply String.eqb_neq. intros ->. discriminate Hw.
Qed.

(** One iteration settles the occurrences of its token. *)
Lemma settle_step (r : Request) (sg name : string) (ws ts : list string) (i : item) :
  isSigilString sg = true -> wordString name = true ->
  forallb braceFree ws = true ->
  (forall x, resolve r (token sg name) x = Next (replaceAll (token sg name) ws x)) ->
  settleItem r ts (match ws with
                   | [] => i
                   | w :: _ => substItem (token sg name) w i
                   end)
  = settleItem r (token sg name :: ts) i.
Proof.
  intros Hsg Hname Hws Hres.
  pose proof (render_token_values r sg name ws Hsg Hname Hws Hres) as Hout.
  destruct i as [s|sg' name']; [now destruct ws|].
  cbn [settleItem existsb].
  destruct (String.eqb_spec (token sg' name') (token sg name)) as [E|E].
  - cbn [orb]. destruct ws as [|w ws].
    + cbn [settleItem]. rewrite E, Hout. cbn [outputOf].
      rewrite String.eqb_refl. cbn [negb]. now rewrite !andb_false_r.
    + cbn [substItem]. rewrite E, String.eqb_refl, Hout. cbn [outputOf settleItem].
      cbn [forallb] in Hws. apply andb_true_iff in Hws as [Hw _].
      now rewrite (eqb_braceFree_token w sg name Hw).
  - apply String.eqb_neq in E. cbn [orb].
    destruct ws as [|w ws]; [reflexivity|]. cbn [substItem]. now rewrite E.
Qed.

(** The loop over placeholders whose iterations all go on, on a template
    of text and tokens. *)
Lemma loop_items (r : Request) (ts : list string) (cur : list item) :
  (forall t, In t ts ->
     exists sg name ws,
       t = token sg name /\ isSigilString sg = true /\ wordString name = true
       /\ forallb braceFree ws = true
       /\ forall x, resolve r t x = Next (replaceAll t ws x)) ->
  forallb itemInert cur = true ->
  placeholdersLoop r ts (showItems cur) = Next (showItems (map (settleItem r ts) cur))
  /\ (forallb itemOk cur = true ->
      forallb itemOk (map (settleItem r ts) cur) = true).
Proof.
  revert cur. induction ts as [|t ts IH]; intros cur Hts Hcur.
  - rewrite (map_ext _ id) by apply settleItem_nil. rewrite map_id.
    split; [reflexivity | auto].
  - destruct (Hts t (or_introl eq_refl))
      as (sg & name & ws & -> & Hsg & Hname & Hws & Hres).
    cbn [placeholdersLoop]. rewrite Hres. cbn [andThen].
    rewrite (replaceAll_items sg name Hsg Hname ws cur Hws Hcur).
    assert (Hcur' : forallb itemInert (match ws with
                                       | [] => cur
                                       | w :: _ => map (substItem (token sg name) w) cur
                                       end) = true).
    { destruct ws as [|w ws]; [exact Hcur|]. apply substItem_inert; [|exact Hcur].
      cbn [forallb] in Hws. now apply andb_true_iff in Hws. }
    destruct (IH _ (fun t' Hin => Hts t' (or_intror Hin)) Hcur') as [Hloop Hok].
    assert (Hmap : map (settleItem r ts)
                     (match ws with
                      | [] => cur
                      | w :: _ => map (substItem (token sg name) w) cur
                      end)
                   = map (settleItem r (token sg name :: ts)) cur).
    { transitivity (map (fun i => settleItem r ts
                                    (match ws with
                                     | [] => i
                                     | w :: _ => substItem (token sg name) w i
                                     end)) cur).
      - destruct ws; [reflexivity | now rewrite map_map].
      - apply map_ext. intros i. now apply settle_step. }
    rewrite <- Hmap. split; [exact Hloop|]. intros Hcok. apply Hok.
    destruct ws as [|w ws]; [exact Hcok|]. apply substItem_ok; [|exact Hcok].
    cbn [forallb] in Hws. now apply andb_true_iff in Hws.
Qed.

Lemma tokensOf_app (a b : list item) : tokensOf (a ++ b) = (tokensOf a ++ tokensOf b)%list.
Proof.
  induction a as [|[s|sg name] a IH]; simpl; [reflexivity | exact IH|].
  f_equal. exact IH.
Qed.

Lemma tokensOf_in (items : list item) (t : string) :
  In t (tokensOf items) -> exists sg name, t = token sg name /\ In (Tok sg name) items.
Proof.
  induction items as [|[s|sg name] items IH]; cbn [tokensOf In]; [now intros []|..].
  - intros H. destruct (IH H) as (sg & name & E & Hin). exists sg, name. auto.
  - intros [<-|H]; [exists sg, name; auto|].
    destruct (IH H) as (sg' & name' & E & Hin). exists sg', name'. auto.
Qed.

Lemma in_tokensOf (items : list item) (sg name : string) :
  In (Tok sg name) items -> In (token sg name) (tokensOf items).
Proof.
  induction items as [|[s|sg' name'] items IH]; cbn [tokensOf In]; [now intros []|..].
  - intros [H|H]; [discriminate H | now apply IH].
  - intros [[= -> ->]|H]; [now left | right; now apply IH].
Qed.

(** Once every token is settled, the template is the renderings of its
    parts. *)
Lemma showItems_settled (r : Request) (ts : list string) (items : list item) :
  forallb itemOk items = true ->
  (forall sg name, In (Tok sg name) items -> In (token sg name) ts) ->
  showItems (map (settleItem r ts) items) = renderItems r items.
Proof.
  induction items as [|[s|sg name] items IH]; [reflexivity|..];
    cbn [forallb itemOk map settleItem showItems showItem renderItems]; intros H Hin;
    apply andb_true_iff in H as [Hi Hr];
    (rewrite <- IH; [|exact Hr | intros sg' name' H'; apply Hin; now right]).
  - now rewrite render_text.
  - assert (Hex : existsb (String.eqb (token sg name)) ts = true).
    { apply existsb_exists. exists (token sg name).
      split; [apply Hin; now left | apply String.eqb_refl]. }
    rewrite Hex. cbn [andb].
    destruct (String.eqb_spec (outputOf (parsePlaceholders (token sg name) r []))
                (token sg name)) as [E|E]; cbn [negb showItems showItem].
    + now rewrite E.
    + reflexivity.
Qed.

(** On a request without a brace, a token of a template whose rendering
    alone returns no error has an iteration that goes on, whatever the
    string. *)
Lemma token_goes_on (r : Request) (sg name : string) :
  forallb braceFree (requestValues r) = true ->
  isSigilString sg = true -> wordString name = true ->
  (exists v, parsePlaceholders (token sg name) r [] = Returned v None) ->
  exists ws, forallb braceFree ws = true
             /\ forall x, resolve r (token sg name) x
                          = Next (replaceAll (token sg name) ws x).
Proof.
  intros Hr Hsg Hname [v Hv].
  destruct (resolve_uniform r (token sg name) Hr) as [(ws & Hws & Hres)|(res & Hres & Hf)].
  - now exists ws.
  - exfalso. rewrite render_token_alone, Hf in Hv by assumption.
    destruct res as [y| |]; [now destruct (Hres y) | discriminate Hv..].
Qed.

Lemma tokens_go_on (r : Request) (items : list item) :
  forallb braceFree (requestValues r) = true ->
  forallb itemInert items = true ->
  (forall sg name, In (Tok sg name) items ->
     exists v, parsePlaceholders (token sg name) r [] = Returned v None) ->
  forall t, In t (tokensOf items) ->
    exists sg name ws,
      t = token sg name /\ isSigilString sg = true /\ wordString name = true
      /\ forallb braceFree ws = true
      /\ forall x, resolve r t x = Next (replaceAll t ws x).
Proof.
  intros Hr Hitems Halone t Hin.
  destruct (tokensOf_in items t Hin) as (sg & name & -> & Hin').
  pose proof (proj1 (forallb_forall _ _) Hitems _ Hin') as Hok.
  cbn [itemInert] in Hok. apply andb_true_iff in Hok as [Hsg Hname].
  destruct (token_goes_on r sg name Hr Hsg Hname (Halone sg name Hin')) as (ws & Hws & Hres).
  now exists sg, name, ws.
Qed.

Lemma placeholdersLoop_app (r : Request) (l1 l2 : list string) (x : string) :
  placeholdersLoop r (l1 ++ l2) x
  = andThen (placeholdersLoop r l1 x) (placeholdersLoop r l2).
Proof.
  revert x. induction l1 as [|t l1 IH]; intros x; [reflexivity|].
  change ((t :: l1) ++ l2)%list with (t :: (l1 ++ l2))%list. cbn [placeholdersLoop].
  destruct (resolve r t x); cbn [andThen]; [apply IH | reflexivity..].
Qed.

(** ** Templates of text, tokens and path-segment tokens *)

Lemma showParts_items (parts : list part) :
  showItems (map itemOfPart parts) = showParts parts.
Proof.
  induction parts as [|[s|sg name|n] parts IH];
    cbn [map itemOfPart showItems showItem showParts showPart];
    [reflexivity | now rewrite IH..].
Qed.

Lemma partOk_inert (parts : list part) :
  forallb partOk parts = true -> forallb itemInert (map itemOfPart parts) = true.
Proof.
  induction parts as [|[s|sg name|n] parts IH]; [reflexivity|..];
    cbn [forallb partOk map itemOfPart itemInert]; intros H;
    apply andb_true_iff in H as [Hp Hr]; rewrite (IH Hr).
  - now rewrite (braceFree_inert _ Hp).
  - now rewrite Hp.
  - now rewrite pathToken_inert.
Qed.

Lemma tokensOf_parts (parts : list part) (sg name : string) :
  In (Tok sg name) (map itemOfPart parts) -> In (PTok sg name) parts.
Proof.
  intros H. apply in_map_iff in H as (p & E & Hin).
  destruct p as [s|sg' name'|n]; cbn [itemOfPart] in E; try discriminate E.
  injection E as -> ->. exact Hin.
Qed.

Lemma in_tokensOf_parts (parts : list part) (sg name : string) :
  In (PTok sg name) parts -> In (token sg name) (tokensOf (map itemOfPart parts)).
Proof.
  intros H. apply in_tokensOf. change (Tok sg name) with (itemOfPart (PTok sg name)).
  now apply in_map.
Qed.

(** After the first pass the template is text, what the pass made of
    the tokens, and the path-segment tokens. *)
Lemma settled_parts (r : Request) (ts : list string) (parts : list part) :
  (forall sg name, In (PTok sg name) parts -> In (token sg name) ts) ->
  showItems (map (settleItem r ts) (map itemOfPart parts))
  = showPieces (map (settledPiece r) parts).
Proof.
  induction parts as [|[s|sg name|n] parts IH]; [reflexivity|..];
    cbn [map itemOfPart settleItem settledPiece showItems showItem showPieces showPiece];
    intros Hin; (rewrite <- IH; [|intros sg' name' H'; apply Hin; now right]);
    try reflexivity.
  assert (Hex : existsb (String.eqb (token sg name)) ts = true).
  { apply existsb_exists. exists (token sg name).
    split; [apply Hin; now left | apply String.eqb_refl]. }
  rewrite Hex. cbn [andb].
  destruct (String.eqb_spec (outputOf (parsePlaceholders (token sg name) r []))
              (token sg name)) as [E|E]; cbn [negb showItems showItem].
  - now rewrite E.
  - reflexivity.
Qed.

(** No path-segment token begins in what the first pass puts for a
    token. *)
Lemma settled_dollarFree (r : Request) (parts : list part) :
  forallb braceFree (requestValues r) = true ->
  forallb partOk parts = true ->
  (forall sg name, In (PTok sg name) parts ->
     exists v, parsePlaceholders (token sg name) r [] = Returned v None) ->
  litsDollarFree (map (settledPiece r) parts) = true.
Proof.
  intros Hr. induction parts as [|[s|sg name|n] parts IH]; [reflexivity|..];
    cbn [forallb partOk map settledPiece litsDollarFree]; intros H Halone;
    apply andb_true_iff in H as [Hp Hrest];
    (apply andb_true_iff; split;
     [|apply IH; [exact Hrest | intros sg' name' H'; apply Halone; now right]]).
  - now apply braceFree_dollarFree.
  - apply andb_true_iff in Hp as [Hsg Hname].
    destruct (token_goes_on r sg name Hr Hsg Hname (Halone sg name (or_introl eq_refl)))
      as (ws & Hws & Hres).
    rewrite (render_token_values r sg name ws Hsg Hname Hws Hres). cbn [outputOf].
    destruct ws as [|w ws]; [now apply token_dollarFree|].
    cbn [forallb] in Hws. apply andb_true_iff in Hws as [Hw _].
    now apply braceFree_dollarFree.
  - reflexivity.
Qed.

(** * The claims *)

(** ** Numbered captures *)

(** C1: what the code does where an error is expected of it.  Without
    captures in the request, and with an index that is 0 or beyond the
    captures, the rendering panics; and the index is the first digit of
    the token, not its number. *)
Theorem numbered_capture_panics :
  (forall pathSlice,
     parsePlaceholders "{1}" emptyRequest pathSlice
     = Panicked "reflect: call of reflect.Value.Index on zero Value")
  /\ parsePlaceholders "{2}" (withCaptures (CtxSlice ["a"]) emptyRequest) []
     = Panicked "reflect: slice index out of range"
  /\ parsePlaceholders "{0}" (withCaptures (CtxSlice ["a"]) emptyRequest) []
     = Panicked "reflect: slice index out of range"
  /\ parsePlaceholders "{12}"
       (withCaptures
          (CtxSlice ["c1"; "c2"; "c3"; "c4"; "c5"; "c6"; "c7"; "c8"; "c9"; "c10"; "c11"; "c12"])
          emptyRequest) []
     = Returned "c1" None.
Proof. split; [intros pathSlice|]; repeat split. Qed.

(** ** Cookies *)

(** C2, as the code has it.  In every template, the iteration of the loop
    on a cookie token [{~name}] replaces every occurrence of the token in
    the string as it is then with the value of the first cookie of that
    name, and leaves the string as it is when the request carries no such
    cookie (the keys of the named captures being names of capture groups,
    none is "~name").  So for a template made of [chunks], texts without
    an opening brace, with the token between them: with the cookie, whose
    value holds no opening brace, the rendering is the chunks with the
    value between them; without it, the rendering is the template, the
    token as it is written and not the empty string, and no error. *)
Theorem cookie_token_rendered (r : Request) (name : string) :
  wordString name = true ->
  (forall current,
     captureNamesOk (regexMatches r) = true ->
     resolve r (token "~" name) current
     = Next (match Cookie (Cookies r) name with
             | Some v => strings.Replace current (token "~" name) v
             | None => current
             end))
  /\ (forall chunks pathSlice v,
        forallb braceFree chunks = true ->
        Cookie (Cookies r) name = Some v -> braceFree v = true ->
        parsePlaceholders (String.concat (token "~" name) chunks) r pathSlice
        = Returned (String.concat v chunks) None)
  /\ (forall chunks pathSlice,
        forallb braceFree chunks = true ->
        Cookie (Cookies r) name = None -> captureNamesOk (regexMatches r) = true ->
        parsePlaceholders (String.concat (token "~" name) chunks) r pathSlice
        = Returned (String.concat (token "~" name) chunks) None).
Proof.
  intros Hname. split; [|split].
  - intros current Hok. now apply resolve_cookie.
  - intros chunks pathSlice v Hchunks Hc Hv.
    apply render_subst; try assumption; try reflexivity.
    intros x Hx. now apply resolve_cookie_present.
  - intros chunks pathSlice Hchunks Hc Hok.
    apply render_literal; try assumption; try reflexivity.
    intros x. now apply resolve_cookie_absent.
Qed.

Lemma cookie_token_rendered_witness :
  parsePlaceholders "a{~session}b{~session}"
    (withCookies [("session", "xyz")] emptyRequest) ["foo"]
  = Returned "axyzbxyz" None
  /\ parsePlaceholders "a{~session}b{~session}" emptyRequest ["foo"]
     = Returned "a{~session}b{~session}" None.
Proof.
  split.
  - exact (proj1 (proj2 (cookie_token_rendered
                           (withCookies [("session", "xyz")] emptyRequest)
                           "session" eq_refl))
                 ["a"; "b"; ""] ["foo"] "xyz" eq_refl eq_refl eq_refl).
  - exact (proj2 (proj2 (cookie_token_rendered emptyRequest "session" eq_refl))
                 ["a"; "b"; ""] ["foo"] eq_refl eq_refl eq_refl).
Defined.

(** C2 as it is written fails: without the cookie the output is the
    token, not the empty string. *)
Lemma cookie_miss_keeps_token :
  Cookie (Cookies emptyRequest) "session" = None
  /\ parsePlaceholders "{~session}" emptyRequest [] = Returned "{~session}" None
  /\ parsePlaceholders "{~session}" emptyRequest [] <> Returned "" None.
Proof. repeat split. discriminate. Qed.

(** ** Named captures *)

(** C3, as the code has it.  [name] is letters and then digits, no
    keyword, and does not start with "label".  In every template, the
    iteration of the loop on the token [{name}] replaces every occurrence
    of the token in the string as it is then with the capture of that
    name, and leaves the string as it is when the request carries no map
    of named captures or the map has no such name.  So for a template
    made of [chunks], texts without an opening brace, with the token
    between them: with the capture, whose value holds no opening brace,
    the rendering is the chunks with the value between them; without it,
    the rendering is the template, the token as it is written, and no
    error. *)
Theorem name_token_rendered (r : Request) (name : string) :
  isName name = true -> isReserved name = false ->
  strings.HasPrefix name "label" = false ->
  (forall current m v,
     regexMatches r = CtxMap m -> NoDup (map fst m) -> In (name, v) m ->
     resolve r (token "" name) current
     = Next (strings.Replace current (token "" name) v))
  /\ (forall current,
        (forall m, regexMatches r = CtxMap m -> ~ In name (map fst m)) ->
        resolve r (token "" name) current = Next current)
  /\ (forall chunks pathSlice m v,
        forallb braceFree chunks = true ->
        regexMatches r = CtxMap m -> NoDup (map fst m) -> In (name, v) m ->
        braceFree v = true ->
        parsePlaceholders (String.concat (token "" name) chunks) r pathSlice
        = Returned (String.concat v chunks) None)
  /\ (forall chunks pathSlice,
        forallb braceFree chunks = true ->
        (forall m, regexMatches r = CtxMap m -> ~ In name (map fst m)) ->
        parsePlaceholders (String.concat (token "" name) chunks) r pathSlice
        = Returned (String.concat (token "" name) chunks) None).
Proof.
  intros Hname Hres Hlabel.
  pose proof (isName_wordString name Hname) as Hword. split; [|split; [|split]].
  - intros current m v Hm Hnd Hin. now apply resolve_name_present with m.
  - intros current Hno. now apply resolve_name_absent.
  - intros chunks pathSlice m v Hchunks Hm Hnd Hin Hv.
    apply render_subst; try assumption; try reflexivity.
    intros x _. now apply resolve_name_present with m.
  - intros chunks pathSlice Hchunks Hno.
    apply render_literal; try assumption; try reflexivity.
    intros x. now apply resolve_name_absent.
Qed.

Lemma name_token_rendered_witness :
  parsePlaceholders "/{version1}/x"
    (withCaptures (CtxMap [("major", "2"); ("version1", "v2")]) emptyRequest) []
  = Returned "/v2/x" None
  /\ parsePlaceholders "/{version1}/x" emptyRequest [] = Returned "/{version1}/x" None.
Proof.
  split.
  - refine (proj1 (proj2 (proj2 (name_token_rendered
                     (withCaptures (CtxMap [("major", "2"); ("version1", "v2")]) emptyRequest)
                     "version1" eq_refl eq_refl eq_refl)))
                  ["/"; "/x"] [] [("major", "2"); ("version1", "v2")] "v2"
                  eq_refl eq_refl _ _ eq_refl).
    + repeat constructor; cbn; intuition discriminate.
    + right. left. reflexivity.
  - refine (proj2 (proj2 (proj2 (name_token_rendered emptyRequest
                     "version1" eq_refl eq_refl eq_refl)))
                  ["/"; "/x"] [] eq_refl _).
    intros m Hm. discriminate Hm.
Defined.

(** C3 as it is written fails on the names that start with "label": they
    are label tokens for the code, and [{labelfoo}] makes the rendering
    return the error of [strconv.Atoi]. *)
Lemma labelfoo_is_an_error :
  isName "labelfoo" = true /\ isReserved "labelfoo" = false
  /\ regexMatches emptyRequest = CtxNil
  /\ parsePlaceholders "{labelfoo}" emptyRequest []
     = Returned "" (Some (NumError "Atoi" "foo" ErrSyntax))
  /\ parsePlaceholders "{labelfoo}" emptyRequest [] <> Returned "{labelfoo}" None.
Proof. repeat split. discriminate. Qed.

(** ** Headers *)

(** C4, as the code has it.  [Name] is made of word characters, the keys
    of the header map are ASCII text, and no two of them are equal up to
    case.  In every template, the iteration of the loop on the header
    token [{>Name}] replaces every occurrence of the token in the string
    as it is then with the values, joined with a comma, of the key that
    is [Name] up to case, and leaves the string as it is when no key is
    (the keys of the named captures being names of capture groups, none
    is ">Name").  So for a template made of [chunks], texts without an
    opening brace, with the token between them: with such a key, whose
    joined values hold no opening brace, the rendering is the chunks with
    the joined values between them; with no such key, the rendering is the
    template, the token as it is written, and no error. *)
Theorem header_token_rendered (r : Request) (name : string) :
  wordString name = true ->
  headerKeysASCII (Header r) = true -> headerKeysDistinct (Header r) = true ->
  (forall current key values,
     captureNamesOk (regexMatches r) = true ->
     In (key, values) (Header r) -> strings.EqualFold key name = true ->
     resolve r (token ">" name) current
     = Next (strings.Replace current (token ">" name) (strings.Join values ",")))
  /\ (forall current,
        captureNamesOk (regexMatches r) = true ->
        (forall key values,
           In (key, values) (Header r) -> strings.EqualFold key name = false) ->
        resolve r (token ">" name) current = Next current)
  /\ (forall chunks pathSlice key values,
        forallb braceFree chunks = true ->
        In (key, values) (Header r) -> strings.EqualFold key name = true ->
        braceFree (strings.Join values ",") = true ->
        parsePlaceholders (String.concat (token ">" name) chunks) r pathSlice
        = Returned (String.concat (strings.Join values ",") chunks) None)
  /\ (forall chunks pathSlice,
        forallb braceFree chunks = true ->
        (forall key values,
           In (key, values) (Header r) -> strings.EqualFold key name = false) ->
        captureNamesOk (regexMatches r) = true ->
        parsePlaceholders (String.concat (token ">" name) chunks) r pathSlice
        = Returned (String.concat (token ">" name) chunks) None).
Proof.
  intros Hname Ha Hd. split; [|split; [|split]].
  - intros current key values Hok Hin Hk. now apply resolve_header with key.
  - intros current Hok Hno. now apply resolve_header_absent.
  - intros chunks pathSlice key values Hchunks Hin Hk Hv.
    apply render_subst; try assumption; try reflexivity.
    intros x Hx. now apply resolve_header_present with key.
  - intros chunks pathSlice Hchunks Hno Hok.
    apply render_literal; try assumption; try reflexivity.
    intros x. now apply resolve_header_absent.
Qed.

Lemma header_token_rendered_witness :
  parsePlaceholders "{>referer}/{>referer}"
    (withHeader [("Accept", ["*/*"]); ("Referer", ["a"; "b"])] emptyRequest) []
  = Returned "a,b/a,b" None
  /\ parsePlaceholders "{>referer}/{>referer}"
       (withHeader [("Accept", ["*/*"])] emptyRequest) []
     = Returned "{>referer}/{>referer}" None.
Proof.
  split.
  - refine (proj1 (proj2 (proj2 (header_token_rendered
                     (withHeader [("Accept", ["*/*"]); ("Referer", ["a"; "b"])] emptyRequest)
                     "referer" eq_refl eq_refl eq_refl)))
                  [""; "/"; ""] [] "Referer" ["a"; "b"] eq_refl _ eq_refl eq_refl).
    right. left. reflexivity.
  - refine (proj2 (proj2 (proj2 (header_token_rendered
                     (withHeader [("Accept", ["*/*"])] emptyRequest)
                     "referer" eq_refl eq_refl eq_refl)))
                  [""; "/"; ""] [] eq_refl _ eq_refl).
    intros key values [H|[]]. injection H as <- _. reflexivity.
Defined.

(** C4 as it is written fails on the header names that hold a hyphen:
    the scanner does not take [{>X-Test}] for a token, and the text stays
    although the request carries the header. *)
Lemma hyphenated_header_not_rendered :
  FindAllStringSubmatch "{>X-Test}" = []
  /\ parsePlaceholders "{>X-Test}"
       (withHeader [("X-Test", ["a"; "b"])] emptyRequest) []
     = Returned "{>X-Test}" None
  /\ parsePlaceholders "{>X-Test}"
       (withHeader [("X-Test", ["a"; "b"])] emptyRequest) []
     <> Returned "a,b" None.
Proof. repeat split. discriminate. Qed.

(** ** Determinism *)

(** C5: two renderings of a template on the same request and the same
    path segments come to the same result, string, error or panic,
    whatever the order in which the header map and the map of the named
    captures are visited.  The header map is one whose keys are
    case-insensitive: its keys are ASCII text, as the field names of
    HTTP are, and no two of them are equal up to case, as in the maps
    that net/http builds from a request. *)
Theorem render_deterministic (input : string) (r1 r2 : Request) (pathSlice : list string) :
  sameRequest r1 r2 ->
  headerKeysASCII (Header r1) = true -> headerKeysDistinct (Header r1) = true ->
  parsePlaceholders input r1 pathSlice = parsePlaceholders input r2 pathSlice.
Proof.
  intros Hsame Ha Hd. unfold parsePlaceholders.
  now rewrite (placeholdersLoop_same r1 r2 Hsame Ha Hd).
Qed.

Lemma render_deterministic_witness :
  parsePlaceholders "{>referer}/{x}{y}"
    (withCaptures (CtxMap [("x", "1"); ("y", "2")])
       (withHeader [("Accept", ["*/*"]); ("Referer", ["a"])] emptyRequest)) []
  = parsePlaceholders "{>referer}/{x}{y}"
      (withCaptures (CtxMap [("y", "2"); ("x", "1")])
         (withHeader [("Referer", ["a"]); ("Accept", ["*/*"])] emptyRequest)) [].
Proof.
  apply render_deterministic; [|reflexivity|reflexivity].
  constructor; try reflexivity.
  - apply perm_swap.
  - apply same_map; [|apply perm_swap].
    repeat constructor; cbn; intuition discriminate.
Defined.

(** ** Labels *)




(** ** Errors *)

(** C7: whenever the rendering returns an error the string that comes
    with it is empty, and the error is that of the first placeholder, in
    the order of the scan, whose resolution fails. *)
Theorem render_fails_fast (input : string) (r : Request) (pathSlice : list string)
        (s : string) (e : error) :
  parsePlaceholders input r pathSlice = Returned s (Some e) ->
  s = ""
  /\ exists before ph after current,
       FindAllStringSubmatch input = (before ++ ph :: after)%list
       /\ placeholdersLoop r before input = Next current
       /\ resolve r ph current = Return "" e.
Proof.
  unfold parsePlaceholders.
  destruct (placeholdersLoop r (FindAllStringSubmatch input) input) as [y|s' e'|] eqn:E;
    [discriminate| |discriminate].
  intros [= <- <-]. now apply placeholdersLoop_return.
Qed.

Lemma render_fails_fast_witness :
  exists before ph after current,
    FindAllStringSubmatch "{host}/{label0}/{1}" = (before ++ ph :: after)%list
    /\ placeholdersLoop emptyRequest before "{host}/{label0}/{1}" = Next current
    /\ resolve emptyRequest ph current = Return "" (Errorf "{label0} is not supported").
Proof.
  exact (proj2 (render_fails_fast "{host}/{label0}/{1}" emptyRequest ["foo"] ""
                  (Errorf "{label0} is not supported") eq_refl)).
Defined.

(** ** Path segments *)

(** C8, as the code has it.  The second pass replaces, for N from 1 to
    the number of segments and in that order, every occurrence of [{$N}]
    in the string as it then is with the Nth segment, and returns no
    error.  So in a template made of text without an opening brace, of
    tokens of the scanner that the first pass resolves or leaves as they
    are, and of path-segment tokens, on a request whose values hold no
    opening brace and with segments in which no path-segment token begins
    (none holds "{$" or ends with "{"), the output is the text, what the
    first pass makes of each token, and for each [{$N}] the Nth segment
    when there is one and the token as it is written when there is none.
    On any request the same holds of a template of text and path-segment
    tokens alone.  And in every template that the first pass gets
    through, whatever the segments are, no error is returned and every
    token [{$N}] with N greater than the number of segments is still in
    the output. *)
Theorem path_segments_rendered (r : Request) (pathSlice : list string) :
  (forall parts,
     forallb braceFree (requestValues r) = true ->
     forallb dollarFree pathSlice = true ->
     forallb partOk parts = true ->
     (forall sg name, In (PTok sg name) parts ->
        exists v, parsePlaceholders (token sg name) r [] = Returned v None) ->
     parsePlaceholders (showParts parts) r pathSlice
     = Returned (expandPieces pathSlice (map (settledPiece r) parts)) None)
  /\ (forall pieces,
        litsBraceFree pieces = true -> forallb dollarFree pathSlice = true ->
        parsePlaceholders (showPieces pieces) r pathSlice
        = Returned (expandPieces pathSlice pieces) None)
  /\ (forall input current,
        placeholdersLoop r (FindAllStringSubmatch input) input = Next current ->
        exists output,
          parsePlaceholders input r pathSlice = Returned output None
          /\ output = pathLoop pathSlice 0 current
          /\ forall n, List.length pathSlice < n ->
                       strings.Contains input (pathToken n) = true ->
                       strings.Contains output (pathToken n) = true).
Proof.
  split; [|split].
  - intros parts Hr Hp Hparts Halone. unfold parsePlaceholders.
    pose proof (partOk_inert parts Hparts) as Hinert.
    assert (Hitems : forall sg name, In (Tok sg name) (map itemOfPart parts) ->
                       exists v, parsePlaceholders (token sg name) r [] = Returned v None).
    { intros sg name Hin. apply Halone. now apply tokensOf_parts. }
    rewrite <- showParts_items, FindAll_items by exact Hinert.
    destruct (loop_items r (tokensOf (map itemOfPart parts)) (map itemOfPart parts)
                (tokens_go_on r _ Hr Hinert Hitems) Hinert) as [Hloop _].
    rewrite Hloop, settled_parts by (intros sg name; apply in_tokensOf_parts).
    rewrite pathLoop_pieces by (try apply settled_dollarFree; assumption).
    now rewrite expandFrom_expandPiece.
  - intros pieces Hl Hp. unfold parsePlaceholders.
    rewrite FindAll_pieces by exact Hl. cbn [placeholdersLoop].
    rewrite pathLoop_pieces by (try apply litsBraceFree_dollarFree; assumption).
    now rewrite expandFrom_expandPiece.
  - intros input current Hloop. exists (pathLoop pathSlice 0 current).
    unfold parsePlaceholders. rewrite Hloop. repeat split.
    intros n Hn Hc. apply pathLoop_keeps; [exact Hn|].
    apply (placeholdersLoop_keeps r n (FindAllStringSubmatch input) input current);
      try assumption.
    apply FindAll_from_shaped.
Qed.

Lemma path_segments_rendered_witness :
  parsePlaceholders "{host}/{$1}/{$2}" emptyRequest ["foo"]
  = Returned "example.com/foo/{$2}" None
  /\ parsePlaceholders "{>X}/{$2}{$1}/{~c}" emptyRequest ["{a}"; "b"]
     = Returned "{>X}/b{a}/{~c}" None
  /\ parsePlaceholders "path/{$1}/{$2}" emptyRequest ["foo"]
     = Returned "path/foo/{$2}" None
  /\ exists output,
       parsePlaceholders "{host}/{$1}/{$2}" emptyRequest ["foo"] = Returned output None
       /\ output = pathLoop ["foo"] 0 "example.com/{$1}/{$2}"
       /\ forall n, 1 < n ->
                    strings.Contains "{host}/{$1}/{$2}" (pathToken n) = true ->
                    strings.Contains output (pathToken n) = true.
Proof.
  split; [|split; [|split]].
  - refine (proj1 (path_segments_rendered emptyRequest ["foo"])
                  [PTok "" "host"; PText "/"; PSeg 1; PText "/"; PSeg 2]
                  eq_refl eq_refl eq_refl _).
    intros sg name Hin. cbn [In] in Hin.
    repeat (destruct Hin as [Hin|Hin];
            [first [discriminate Hin
                   | injection Hin as <- <-; eexists; vm_compute; reflexivity]|]).
    destruct Hin.
  - refine (proj1 (path_segments_rendered emptyRequest ["{a}"; "b"])
                  [PTok ">" "X"; PText "/"; PSeg 2; PSeg 1; PText "/"; PTok "~" "c"]
                  eq_refl eq_refl eq_refl _).
    intros sg name Hin. cbn [In] in Hin.
    repeat (destruct Hin as [Hin|Hin];
            [first [discriminate Hin
                   | injection Hin as <- <-; eexists; vm_compute; reflexivity]|]).
    destruct Hin.
  - exact (proj1 (proj2 (path_segments_rendered emptyRequest ["foo"]))
                 [Lit "path/"; Seg 1; Lit "/"; Seg 2] eq_refl eq_refl).
  - exact (proj2 (proj2 (path_segments_rendered emptyRequest ["foo"]))
                 "{host}/{$1}/{$2}" "example.com/{$1}/{$2}" eq_refl).
Defined.

(** C8 as it is written fails on a segment that spells a path-segment
    token of a later index: the pass works on the string as it then is,
    so the segment put in for [{$1}] is replaced in its turn, and the
    output does not hold the first segment where [{$1}] stood. *)
Lemma segment_spelling_a_token_is_replaced :
  parsePlaceholders "{$1}/{$2}" emptyRequest ["{$2}"; "b"] = Returned "b/b" None
  /\ parsePlaceholders "{$1}/{$2}" emptyRequest ["{$2}"; "b"]
     <> Returned "{$2}/b" None
  /\ dollarFree "{$2}" = false.
Proof. repeat split. discriminate. Qed.

(** ** Templates without tokens *)

(** C9: a template in which the scanner finds no token and in which no
    path-segment token lies is returned as it is, without an error; so
    the output of a rendering, when it is such a text, is rendered to
    itself. *)
Theorem token_free_unchanged (input : string) (r : Request) (pathSlice : list string) :
  FindAllStringSubmatch input = [] ->
  (forall n, strings.Contains input (pathToken n) = false) ->
  parsePlaceholders input r pathSlice = Returned input None
  /\ forall template,
       parsePlaceholders template r pathSlice = Returned input None ->
       parsePlaceholders input r pathSlice = parsePlaceholders template r pathSlice.
Proof.
  intros Hscan Hpath.
  assert (H : parsePlaceholders input r pathSlice = Returned input None).
  { unfold parsePlaceholders. rewrite Hscan. cbn [placeholdersLoop].
    now rewrite pathLoop_absent. }
  split; [exact H|]. intros template Ht. now rewrite H, Ht.
Qed.

Lemma token_free_unchanged_witness :
  parsePlaceholders "https://example.org/a}b" emptyRequest ["foo"]
  = Returned "https://example.org/a}b" None.
Proof.
  exact (proj1 (token_free_unchanged "https://example.org/a}b" emptyRequest ["foo"]
                  eq_refl
                  (fun n => Contains_braceFree (String "$" (strconv.Itoa n ++ "}"))
                              "https://example.org/a}b" eq_refl))).
Defined.

(** ** Values that bring tokens *)

(** C10: the replacements work on the string as it is at the time, not
    on the places of the tokens in the template.  A header value that
    spells a path-segment token is replaced by the second pass, whatever
    the segment is, and one that spells a keyword by the iteration of a
    later token of the template. *)
Theorem request_value_injects_token (seg : string) :
  parsePlaceholders "{>Referer}" (withHeader [("Referer", ["{$1}"])] emptyRequest) [seg]
  = Returned seg None
  /\ parsePlaceholders "{>Referer}|{host}"
       (withHeader [("Referer", ["{host}"])] emptyRequest) [seg]
     = Returned "example.com|example.com" None.
Proof.
  split.
  - change (Returned (strings.Replace (String "{" "$1}" ++ "") (String "{" "$1}") seg) None
            = Returned seg None).
    now rewrite Replace_occurrence, Replace_empty, append_nil_r.
  - change (Returned (strings.Replace "example.com|example.com" (String "{" "$1}") seg) None
            = Returned "example.com|example.com" None).
    now rewrite Replace_braceFree.
Qed.

(** * Further properties of the code *)

(** ** removeArrayFromArray *)

Lemma indexOf_none (tmp : list string) (x : string) :
  indexOf tmp x = None <-> ~ In x tmp.
Proof.
  induction tmp as [|y tmp IH]; cbn [indexOf In]; [tauto|].
  destruct (String.eqb_spec y x) as [->|Hne].
  - split; [discriminate | intros H; exfalso; apply H; now left].
  - destruct (indexOf tmp x); cbn [option_map].
    + split; [discriminate|]. intros H. exfalso. apply H. right.
      destruct IH as [_ IH]. destruct (in_dec string_dec x tmp) as [Hin|Hno]; [exact Hin|].
      now specialize (IH Hno).
    + split; [|reflexivity]. intros _ [H|H]; [congruence|]. now apply IH.
Qed.

(** The place of the first element equal to [x]. *)
Lemma indexOf_some (tmp : list string) (x : string) (i : nat) :
  indexOf tmp x = Some i ->
  exists l1 l2, tmp = (l1 ++ x :: l2)%list /\ List.length l1 = i /\ ~ In x l1.
Proof.
  revert i. induction tmp as [|y tmp IH]; intros i; cbn [indexOf]; [discriminate|].
  destruct (String.eqb_spec y x) as [->|Hne].
  - intros [= <-]. now exists [], tmp.
  - destruct (indexOf tmp x) as [j|]; cbn [option_map]; [|discriminate].
    intros [= <-]. destruct (IH j eq_refl) as (l1 & l2 & -> & Hl & Hno).
    exists (y :: l1), l2. cbn [app List.length In]. repeat split; [now rewrite Hl|].
    intros [H|H]; [congruence | now apply Hno].
Qed.

Lemma store_middle (l1 l2 : list string) (x y : string) :
  store (List.length l1) y (l1 ++ x :: l2)%list = (l1 ++ y :: l2)%list.
Proof. induction l1 as [|z l1 IH]; simpl; [reflexivity | now rewrite IH]. Qed.

(** One round, on a slice that holds [x]: what it leaves, with [x], is the
    slice up to the order. *)
Lemma removeOne_present (tmp : list string) (x : string) :
  In x tmp -> Permutation tmp (x :: removeOne tmp x).
Proof.
  intros Hin. unfold removeOne. destruct (indexOf tmp x) as [i|] eqn:E.
  2:{ apply indexOf_none in E. contradiction. }
  destruct (indexOf_some _ _ _ E) as (l1 & l2 & -> & <- & _).
  destruct (List.rev l2) as [|z rl] eqn:Er.
  - assert (l2 = []) as -> by (rewrite <- (rev_involutive l2), Er; reflexivity).
    rewrite last_last, store_middle, removelast_last.
    apply Permutation_sym, Permutation_cons_append.
  - assert (l2 = (List.rev rl ++ [z])%list) as ->
      by (rewrite <- (rev_involutive l2), Er; reflexivity).
    replace (last (l1 ++ x :: List.rev rl ++ [z]) "") with z.
    2:{ change (l1 ++ x :: List.rev rl ++ [z])%list with (l1 ++ (x :: List.rev rl) ++ [z])%list.
        now rewrite app_assoc, last_last. }
    rewrite store_middle.
    change (l1 ++ z :: List.rev rl ++ [z])%list with (l1 ++ (z :: List.rev rl) ++ [z])%list.
    rewrite app_assoc, removelast_last.
    apply Permutation_sym, Permutation_cons_app, Permutation_app_head.
    apply Permutation_cons_append.
Qed.

Lemma removeOne_absent (tmp : list string) (x : string) :
  ~ In x tmp -> removeOne tmp x = tmp.
Proof. intros H. unfold removeOne. apply indexOf_none in H. now rewrite H. Qed.

Lemma removeOne_count (tmp : list string) (x y : string) :
  count_occ string_dec (removeOne tmp x) y
  = count_occ string_dec tmp y - (if string_dec x y then 1 else 0).
Proof.
  destruct (in_dec string_dec x tmp) as [Hin|Hno].
  - pose proof (removeOne_present tmp x Hin) as Hp.
    rewrite (proj1 (Permutation_count_occ string_dec _ _) Hp y).
    cbn [count_occ]. destruct (string_dec x y); lia.
  - rewrite (removeOne_absent _ _ Hno). destruct (string_dec x y) as [->|]; [|lia].
    apply (count_occ_not_In string_dec) in Hno. lia.
Qed.

Lemma removeArrayFromArray_count (array toBeRemoved : list string) (y : string) :
  count_occ string_dec (removeArrayFromArray array toBeRemoved) y
  = count_occ string_dec array y - count_occ string_dec toBeRemoved y.
Proof.
  unfold removeArrayFromArray. revert array.
  induction toBeRemoved as [|x rest IH]; intros array; cbn [fold_left count_occ]; [lia|].
  rewrite IH, removeOne_count. destruct (string_dec x y); lia.
Qed.

(** X1: [removeArrayFromArray] takes away, for each element of
    [toBeRemoved], one occurrence of it, if there is one left: it counts
    each string as many times as [array] does, less the times
    [toBeRemoved] does.  So it never adds a string, and a string listed
    twice in [array] and once in [toBeRemoved] is still there. *)
Theorem removeArrayFromArray_removes_one_each (array toBeRemoved : list string)
        (option : string) :
  count_occ string_dec (removeArrayFromArray array toBeRemoved) option
  = count_occ string_dec array option - count_occ string_dec toBeRemoved option
  /\ (In option (removeArrayFromArray array toBeRemoved) -> In option array).
Proof.
  split; [apply removeArrayFromArray_count|].
  intros H. apply (count_occ_In string_dec) in H.
  rewrite removeArrayFromArray_count in H.
  apply (count_occ_In string_dec). lia.
Qed.

(** X2: on a list of options without a repetition, as [allOptions],
    [removeArrayFromArray] is the difference of sets: an option is in the
    result when it is in [array] and not in [toBeRemoved], and the result
    has no repetition either. *)
Theorem removeArrayFromArray_set_difference (array toBeRemoved : list string) :
  NoDup array ->
  (forall option,
     In option (removeArrayFromArray array toBeRemoved)
     <-> In option array /\ ~ In option toBeRemoved)
  /\ NoDup (removeArrayFromArray array toBeRemoved).
Proof.
  intros Hnd. split.
  - intros option. rewrite !(count_occ_In string_dec), removeArrayFromArray_count.
    pose proof (proj1 (NoDup_count_occ string_dec array) Hnd option) as Hle.
    lia.
  - apply (NoDup_count_occ string_dec). intros x.
    rewrite removeArrayFromArray_count.
    pose proof (proj1 (NoDup_count_occ string_dec array) Hnd x). lia.
Qed.

Lemma removeArrayFromArray_set_difference_witness :
  (forall option,
     In option (removeArrayFromArray allOptions ["path"; "tor"; "www"])
     <-> In option allOptions /\ ~ In option ["path"; "tor"; "www"])
  /\ NoDup (removeArrayFromArray allOptions ["path"; "tor"; "www"]).
Proof.
  apply removeArrayFromArray_set_difference.
  repeat constructor; cbn; intuition discriminate.
Defined.

(** X3: the order of the options is not kept: when the first element is
    removed, the last one takes its place. *)
Theorem removeArrayFromArray_moves_last (x y : string) (mid : list string) :
  removeArrayFromArray (x :: mid ++ [y]) [x] = y :: mid.
Proof.
  unfold removeArrayFromArray. cbn [fold_left]. unfold removeOne. cbn [indexOf].
  rewrite String.eqb_refl.
  change (x :: mid ++ [y])%list with ((x :: mid) ++ [y])%list at 1.
  rewrite last_last. cbn [store]. apply (removelast_last (y :: mid) y).
Qed.

(** ** identical *)

(** X4: [identical] decides the equality of two slices, and tells a
    [nil] slice from an empty one. *)
Theorem identical_decides_equality (s1 s2 : option (list string)) :
  identical s1 s2 = true <-> s1 = s2.
Proof.
  destruct s1 as [l1|], s2 as [l2|]; cbn [identical]; try (split; congruence).
  destruct (Nat.eqb_spec (List.length l1) (List.length l2)) as [Hlen|Hlen]; cbn [negb].
  - rewrite forallb_forall. split.
    + intros H. f_equal. apply (nth_ext _ _ "" "" Hlen).
      intros n Hn. apply String.eqb_eq, H, in_seq. lia.
    + intros [= <-] i _. apply String.eqb_refl.
  - split; [discriminate|]. intros [= <-]. contradiction.
Qed.

(** ** The scanner *)

Lemma spanWord_append (s : string) : fst (spanWord s) ++ snd (spanWord s) = s.
Proof.
  induction s as [|c s IH]; [reflexivity|]. cbn [spanWord].
  destruct (isWord c); [|reflexivity].
  destruct (spanWord s) as [w rest]. cbn [fst snd append] in *. now rewrite IH.
Qed.

(** A match of the regular expression is a token, and the head of the
    text it is found in. *)
Lemma matchPlaceholder_form (s m : string) :
  matchPlaceholder s = Some m ->
  exists sg name t,
    m = token sg name /\ isSigilString sg = true /\ wordString name = true
    /\ s = m ++ t.
Proof.
  unfold matchPlaceholder. destruct s as [|c0 s1]; [discriminate|].
  destruct (Ascii.eqb_spec c0 "{") as [->|]; [|discriminate].
  set (sg := match s1 with
             | String c s2 => if isSigil c then (String c "", s2) else ("", s1)
             | EmptyString => ("", s1)
             end).
  assert (Hsg : isSigilString (fst sg) = true /\ s1 = fst sg ++ snd sg).
  { subst sg. destruct s1 as [|c s2]; [now split|].
    destruct (isSigil c) eqn:E; now split. }
  destruct sg as [sigil s2]. cbn [fst snd] in Hsg. destruct Hsg as [Hsg ->].
  pose proof (spanWord_allWord s2) as Hw. pose proof (spanWord_append s2) as Happ.
  destruct (spanWord s2) as [[|w0 w] [|c1 rest]]; try discriminate.
  destruct (Ascii.eqb_spec c1 "}") as [->|]; [|discriminate].
  intros [= <-]. cbn [fst snd] in Hw, Happ.
  exists sigil, (String w0 w), rest. repeat split; try assumption.
  unfold token. rewrite <- Happ. cbn [append]. f_equal.
  rewrite append_assoc. f_equal. cbn [append]. f_equal.
  now rewrite append_assoc.
Qed.

Lemma FindAll_from_tokens (k : nat) (s ph : string) :
  In ph (FindAll_from k s) ->
  exists sg name,
    ph = token sg name /\ isSigilString sg = true /\ wordString name = true.
Proof.
  revert k. induction s as [|c s IH]; intros k; cbn [FindAll_from]; [now intros []|].
  destruct k as [|k]; [|apply IH].
  destruct (matchPlaceholder (String c s)) as [m|] eqn:E; [|apply IH].
  intros [<-|H]; [|now apply IH in H].
  destruct (matchPlaceholder_form _ _ E) as (sg & name & t & -> & Hsg & Hname & _).
  now exists sg, name.
Qed.

(** The text is the matches, in the order of the report, with the text
    the scanner passes over between them. *)
Lemma FindAll_weave (n : nat) (s : string) :
  String.length s <= n ->
  exists gaps,
    List.length gaps = S (List.length (FindAllStringSubmatch s))
    /\ s = weave gaps (FindAllStringSubmatch s).
Proof.
  revert s. induction n as [|n IH]; intros s Hn.
  - destruct s; [|cbn [String.length] in Hn; lia]. now exists [""].
  - destruct s as [|c s]; [now exists [""]|]. cbn [String.length] in Hn.
    destruct (matchPlaceholder (String c s)) as [m|] eqn:E.
    + destruct (matchPlaceholder_form _ _ E) as (sg & name & t & Hm & _ & _ & Hs).
      rewrite Hs in E |- *. rewrite Hm, token_cons in E |- *.
      rewrite FindAll_match by exact E.
      destruct (IH t) as (gaps & Hlen & Ht).
      { apply (f_equal String.length) in Hs. rewrite length_append, Hm in Hs.
        cbn [String.length token append] in Hs. lia. }
      exists ("" :: gaps). cbn [List.length weave append]. split; [now rewrite Hlen|].
      now rewrite <- Ht.
    + rewrite FindAll_no_match by exact E.
      destruct (IH s) as ([|g gaps] & Hlen & Hs); [lia | discriminate Hlen |].
      exists (String c g :: gaps). split; [exact Hlen|].
      destruct (FindAllStringSubmatch s) as [|m ms]; cbn [weave append] in *;
        now rewrite <- Hs.
Qed.

(** X5: every placeholder that the scanner reports is a token, an opening
    brace, at most one of the sigils, one or more word characters and a
    closing brace; and the template is the placeholders, in the order of
    the report and none overlapping another, with text between them. *)
Theorem scanner_reports_tokens_in_order (input : string) :
  (forall ph,
     In ph (FindAllStringSubmatch input) ->
     exists sg name,
       ph = token sg name /\ isSigilString sg = true /\ wordString name = true)
  /\ exists gaps,
       List.length gaps = S (List.length (FindAllStringSubmatch input))
       /\ input = weave gaps (FindAllStringSubmatch input).
Proof.
  split.
  - intros ph. apply FindAll_from_tokens.
  - now apply (FindAll_weave (String.length input)).
Qed.

(** A token at the head of a text does not reach beyond the next opening
    brace. *)
Lemma match_within (a : string) (sg name rest m : string) :
  a <> "" ->
  matchPlaceholder (a ++ token sg name ++ rest) = Some m ->
  String.length m <= String.length a.
Proof.
  intros Ha E. pose proof (matchPlaceholder_shaped _ _ E) as Hshape.
  destruct (matchPlaceholder_form _ _ E) as (_ & _ & t & _ & _ & _ & Hs).
  destruct (Nat.le_gt_cases (String.length m) (String.length a)) as [|Hgt]; [assumption|].
  exfalso. clear E.
  destruct m as [|c0 m]; [cbn in Hgt; lia|]. destruct a as [|a0 a]; [contradiction|].
  cbn [append] in Hs. injection Hs as _ Hs.
  destruct m as [|c m]; [cbn in Hgt; lia|]. cbn [tokenShaped] in Hshape.
  apply andb_true_iff in Hshape as [_ Hbf]. cbn [String.length] in Hgt.
  assert (Hlt : String.length a < String.length (String c m)) by (cbn [String.length]; lia).
  clear Hgt Ha. revert Hlt Hbf Hs. generalize (String c m). clear c m c0 a0.
  induction a as [|x a IH]; intros m Hlt Hbf Hs.
  - destruct m as [|y m]; [cbn in Hlt; lia|].
    cbn [append] in Hs. injection Hs as <- _. discriminate Hbf.
  - destruct m as [|y m]; [cbn in Hlt; lia|]. cbn [append] in Hs. injection Hs as _ Hs.
    cbn [braceFree] in Hbf. apply andb_true_iff in Hbf as [_ Hbf].
    apply (IH m); [cbn [String.length] in Hlt; lia | exact Hbf | exact Hs].
Qed.

Lemma FindAll_from_complete (a : string) (k : nat) (sg name rest : string) :
  isSigilString sg = true -> wordString name = true ->
  k <= String.length a ->
  In (token sg name) (FindAll_from k (a ++ token sg name ++ rest)).
Proof.
  intros Hsg Hname. revert k. induction a as [|c a IH]; intros k Hk.
  - cbn [String.length] in Hk. assert (k = 0) as -> by lia. cbn [append].
    change (FindAll_from 0 (token sg name ++ rest))
      with (FindAllStringSubmatch (token sg name ++ rest)).
    rewrite FindAll_token by assumption. now left.
  - cbn [append FindAll_from String.length] in *. destruct k as [|k]; [|apply IH; lia].
    destruct (matchPlaceholder (String c (a ++ token sg name ++ rest))) as [m|] eqn:E;
      [|apply IH; lia].
    right. apply IH.
    pose proof (match_within (String c a) sg name rest m) as Hw.
    cbn [append String.length] in Hw. specialize (Hw ltac:(discriminate) E). lia.
Qed.

(** X6: the scanner misses no token: wherever a token stands in the
    template, it is among the placeholders reported. *)
Theorem scanner_finds_every_token (before sg name after : string) :
  isSigilString sg = true -> wordString name = true ->
  In (token sg name) (FindAllStringSubmatch (before ++ token sg name ++ after)).
Proof.
  intros Hsg Hname. apply FindAll_from_complete; try assumption. lia.
Qed.

Lemma scanner_finds_every_token_witness :
  In "{?q}" (FindAllStringSubmatch "{a{~b}{{?q}}{host}").
Proof.
  exact (scanner_finds_every_token "{a{~b}{" "?" "q" "}{host}" eq_refl eq_refl).
Defined.

(** ** Where errors and panics come from *)

Lemma isDigit_range (c : ascii) :
  isDigit c = true -> 48 <= nat_of_ascii c <= 57.
Proof.
  unfold isDigit, inRange. cbv zeta. intros H. apply andb_true_iff in H as [H1 H2].
  apply Nat.leb_le in H1, H2. lia.
Qed.

(** [strconv.Atoi] reads one digit without an error. *)
Lemma Atoi_digit (c : ascii) :
  isDigit c = true ->
  strconv.Atoi (String c "") = inl (Z.of_nat (nat_of_ascii c) - 48)%Z.
Proof.
  intros Hc. pose proof (isDigit_range c Hc) as Hr. unfold strconv.Atoi.
  destruct (Ascii.eqb_spec c "-") as [->|_]; [discriminate Hc|].
  destruct (Ascii.eqb_spec c "+") as [->|_]; [discriminate Hc|].
  cbn [strconv.parseUint]. rewrite Hc.
  change (strconv.maxUint64 / 10 + 1 <=? 0)%Z with false. cbv iota zeta.
  change (0 * 10)%Z with 0%Z. cbn [Z.add].
  replace (strconv.maxUint64 <? Z.of_nat (nat_of_ascii c) - 48)%Z with false.
  2:{ symmetry. apply Z.ltb_ge. change strconv.maxUint64 with 18446744073709551615%Z. lia. }
  replace (Z.of_nat (nat_of_ascii c) - 48 <=? strconv.maxInt)%Z with true; [reflexivity|].
  symmetry. apply Z.leb_le. change strconv.maxInt with 9223372036854775807%Z. lia.
Qed.

Lemma Atoi_error (s : string) (e : error) :
  strconv.Atoi s = inr e -> exists kind, e = NumError "Atoi" s kind.
Proof.
  unfold strconv.Atoi.
  destruct (match s with
            | String c b =>
                if Ascii.eqb c "-" then (true, b)
                else if Ascii.eqb c "+" then (false, b) else (false, s)
            | EmptyString => (false, s)
            end) as [neg b].
  destruct b as [|b0 b]; [intros [= <-]; now exists ErrSyntax|].
  destruct (strconv.parseUint 0 (String b0 b)) as [v|kind];
    [|intros [= <-]; now exists kind].
  destruct neg.
  - destruct (v <=? strconv.maxInt + 1)%Z; [discriminate|].
    intros [= <-]. now exists ErrRange.
  - destruct (v <=? strconv.maxInt)%Z; [discriminate|].
    intros [= <-]. now exists ErrRange.
Qed.

(** The errors of the label branch. *)
Lemma label_return_form (r : Request) (ph x s : string) (e : error) :
  label r ph x = Return s e ->
  strings.HasPrefix ph "{label" = true
  /\ ((exists num kind, e = NumError "Atoi" num kind)
      \/ e = Errorf "{label0} is not supported"
      \/ e = Errorf ("Cannot parse a label greater than "
                     ++ strconv.Itoa (List.length (strings.Split (hostonly r) ".")))).
Proof.
  unfold label. destruct (strings.HasPrefix ph "{label"); [|discriminate].
  destruct (slice ph 6 (String.length ph - 1)) as [nStr|]; [|discriminate].
  destruct (strconv.Atoi nStr) as [n|err] eqn:E.
  - destruct (n <? 1)%Z; [intros [= _ <-]; auto|].
    destruct (Z.of_nat _ <? n)%Z; [intros [= _ <-]; auto | discriminate].
  - intros [= _ <-]. split; [reflexivity|]. left.
    destruct (Atoi_error _ _ E) as [kind ->]. now exists nStr, kind.
Qed.

(** The branch of the numbered captures returns no error: its test of
    the result of [strconv.Atoi] never fires. *)
Lemma numbered_no_return (r : Request) (ph x s : string) (e : error) :
  numbered r ph x <> Return s e.
Proof.
  unfold numbered, byte1. destruct (String.get 1 ph) as [c|]; [|discriminate].
  destruct (isDigit c) eqn:Hc; [|discriminate]. rewrite (Atoi_digit c Hc).
  destruct (regexMatches r) as [|l|]; try discriminate.
  now destruct (_ || _).
Qed.

Lemma resolve_return_form (r : Request) (ph x s : string) (e : error) :
  resolve r ph x = Return s e ->
  strings.HasPrefix ph "{label" = true
  /\ ((exists num kind, e = NumError "Atoi" num kind)
      \/ e = Errorf "{label0} is not supported"
      \/ e = Errorf ("Cannot parse a label greater than "
                     ++ strconv.Itoa (List.length (strings.Split (hostonly r) ".")))).
Proof.
  unfold resolve. destruct (label r ph (keywords r ph x)) as [x1|s1 e1|] eqn:E1;
    cbn [andThen]; [|intros [= -> ->]; now apply label_return_form in E1 | discriminate].
  intros H. exfalso. revert H.
  destruct (header r ph x1) as [x2|s2 e2|] eqn:E2; cbn [andThen];
    [|intros _; pose proof (proj1 (sigils_return r ph x1 s2 e2) E2) as Hs;
      unfold header, byte1 in E2; destruct (String.get 1 ph) as [c|]; [|discriminate];
      destruct (Ascii.eqb c ">"); [|discriminate];
      apply body_return in E2 as [b E2]; discriminate | discriminate].
  destruct (cookie r ph x2) as [x3|s3 e3|] eqn:E3; cbn [andThen];
    [|intros _; unfold cookie, byte1 in E3; destruct (String.get 1 ph) as [c|];
      [|discriminate]; destruct (Ascii.eqb c "~"); [|discriminate];
      apply body_return in E3 as [b E3]; now destruct (Cookie (Cookies r) b)
     | discriminate].
  destruct (query r ph x3) as [x4|s4 e4|] eqn:E4; cbn [andThen];
    [|intros _; unfold query, byte1 in E4; destruct (String.get 1 ph) as [c|];
      [|discriminate]; destruct (Ascii.eqb c "?"); [|discriminate];
      apply body_return in E4 as [b E4]; discriminate | discriminate].
  destruct (numbered r ph x4) as [x5|s5 e5|] eqn:E5; cbn [andThen];
    [|intros _; now apply numbered_no_return in E5 | discriminate].
  intros H. unfold named in H. apply body_return in H as [b H].
  destruct (hasLetter b); [|discriminate]. now destruct (regexMatches r).
Qed.

(** X7: an error of the rendering comes from a label token, a placeholder
    that starts with "{label", and is one of three: the error of
    [strconv.Atoi] on what follows "label", "{label0} is not supported",
    or "Cannot parse a label greater than" the number of labels.  The
    error "couldn't get index of regex match" is never returned. *)
Theorem errors_come_from_label_tokens (input : string) (r : Request)
        (pathSlice : list string) (s : string) (e : error) :
  parsePlaceholders input r pathSlice = Returned s (Some e) ->
  (exists ph,
     In ph (FindAllStringSubmatch input) /\ strings.HasPrefix ph "{label" = true)
  /\ ((exists num kind, e = NumError "Atoi" num kind)
      \/ e = Errorf "{label0} is not supported"
      \/ e = Errorf ("Cannot parse a label greater than "
                     ++ strconv.Itoa (List.length (strings.Split (hostonly r) ".")))).
Proof.
  unfold parsePlaceholders.
  destruct (placeholdersLoop r (FindAllStringSubmatch input) input) as [y|s' e'|] eqn:E;
    [discriminate| |discriminate].
  intros [= <- <-].
  destruct (placeholdersLoop_return _ _ _ _ _ E)
    as (_ & before & ph & after & current & Hl & _ & Hr).
  destruct (resolve_return_form _ _ _ _ _ Hr) as [Hp He]. split; [|exact He].
  exists ph. split; [|exact Hp]. rewrite Hl. apply in_elt.
Qed.

Lemma errors_come_from_label_tokens_witness :
  (exists ph,
     In ph (FindAllStringSubmatch "{host}/{labelx}") /\ strings.HasPrefix ph "{label" = true)
  /\ ((exists num kind, NumError "Atoi" "x" ErrSyntax = NumError "Atoi" num kind)
      \/ NumError "Atoi" "x" ErrSyntax = Errorf "{label0} is not supported"
      \/ NumError "Atoi" "x" ErrSyntax
         = Errorf ("Cannot parse a label greater than "
                   ++ strconv.Itoa (List.length (strings.Split (hostonly emptyRequest) ".")))).
Proof.
  exact (errors_come_from_label_tokens "{host}/{labelx}" emptyRequest [] ""
           (NumError "Atoi" "x" ErrSyntax) eq_refl).
Defined.

Section TokenBranches.

Variables (r : Request) (sg name : string).
Hypothesis Hsg : isSigilString sg = true.
Hypothesis Hname : wordString name = true.

(** The slice of the label branch is within the token. *)
Lemma label_no_panic (x msg : string) : label r (token sg name) x <> Panic msg.
Proof.
  unfold label. destruct (strings.HasPrefix (token sg name) "{label") eqn:Hp; [|discriminate].
  assert (Hform : exists t, token sg name = "{label" ++ t ++ "}").
  { unfold strings.HasPrefix in Hp. rewrite token_cons, prefix_cons in Hp.
    destruct sg as [|c [|? ?]]; try discriminate Hsg.
    - cbn [append] in Hp. rewrite prefix_before_close in Hp by reflexivity.
      destruct (prefix_split _ _ Hp) as [t ->]. now exists t.
    - cbn [append isSigilString] in *.
      destruct (ascii_dec "l" c) as [<-|n]; [discriminate Hsg|].
      now rewrite prefix_head in Hp. }
  destruct Hform as [t ->]. change 6 with (String.length "{label").
  rewrite slice_inner. destruct (strconv.Atoi t) as [n|]; [|discriminate].
  destruct (n <? 1)%Z; [discriminate|]. now destruct (_ <? n)%Z.
Qed.

(** The branches on the sigils index and slice within the token. *)
Lemma sigils_no_panic (x msg : string) :
  header r (token sg name) x <> Panic msg
  /\ cookie r (token sg name) x <> Panic msg
  /\ query r (token sg name) x <> Panic msg
  /\ named r (token sg name) x <> Panic msg.
Proof.
  assert (Hn : named r (token sg name) x <> Panic msg).
  { unfold named. rewrite body_token. destruct (hasLetter _); [|discriminate].
    now destruct (regexMatches r). }
  destruct name as [|n0 nm]; [discriminate Hname|].
  destruct sg as [|c [|? ?]]; try discriminate Hsg.
  - cbn [wordString allWord] in Hname. apply andb_true_iff in Hname as [H0 _].
    destruct (isSigil_cases n0 (isWord_not_sigil n0 H0)) as (H1 & H2 & H3).
    rewrite (header_other r n0), (cookie_other r n0), (query_other r n0)
      by (reflexivity || assumption).
    repeat split; try discriminate. exact Hn.
  - unfold header, cookie, query. rewrite !byte1_sigil, !body_token_name.
    repeat split; try exact Hn.
    + now destruct (Ascii.eqb c ">").
    + destruct (Ascii.eqb c "~"); [|discriminate]. now destruct (Cookie _ _).
    + now destruct (Ascii.eqb c "?").
Qed.

(** A panic of the branch of the numbered captures: the token starts with
    a digit, and the request holds no slice of captures that the digit
    indexes. *)
Lemma numbered_panic_form (x msg : string) :
  numbered r (token sg name) x = Panic msg ->
  exists c rest,
    sg = "" /\ name = String c rest /\ isDigit c = true
    /\ forall l, regexMatches r = CtxSlice l ->
                 nat_of_ascii c - 48 = 0 \/ List.length l < nat_of_ascii c - 48.
Proof.
  destruct name as [|n0 nm]; [discriminate Hname|].
  destruct sg as [|c [|? ?]]; try discriminate Hsg.
  - unfold numbered, byte1. rewrite token_cons. cbn [append String.get].
    destruct (isDigit n0) eqn:Hd; [|discriminate].
    rewrite (Atoi_digit n0 Hd). pose proof (isDigit_range n0 Hd) as Hr.
    intros H. exists n0, nm. repeat split; try assumption.
    intros l Hl. rewrite Hl in H.
    destruct (_ <? 0)%Z eqn:E1; [apply Z.ltb_lt in E1; lia|].
    destruct (_ <=? _)%Z eqn:E2; [|discriminate H]. apply Z.leb_le in E2. lia.
  - cbn [isSigilString] in Hsg. unfold numbered. rewrite byte1_sigil.
    destruct (isDigit c) eqn:Hd; [|discriminate].
    rewrite (isWord_not_sigil c (isDigit_isWord c Hd)) in Hsg. discriminate Hsg.
Qed.

Lemma resolve_panic_form (x msg : string) :
  resolve r (token sg name) x = Panic msg ->
  exists c rest,
    sg = "" /\ name = String c rest /\ isDigit c = true
    /\ forall l, regexMatches r = CtxSlice l ->
                 nat_of_ascii c - 48 = 0 \/ List.length l < nat_of_ascii c - 48.
Proof.
  unfold resolve.
  destruct (label r (token sg name) (keywords r (token sg name) x)) as [x1| |m1] eqn:E1;
    cbn [andThen]; [|discriminate | now apply label_no_panic in E1].
  destruct (header r (token sg name) x1) as [x2| |m2] eqn:E2; cbn [andThen];
    [|discriminate | now apply (sigils_no_panic x1 m2) in E2].
  destruct (cookie r (token sg name) x2) as [x3| |m3] eqn:E3; cbn [andThen];
    [|discriminate | now apply (sigils_no_panic x2 m3) in E3].
  destruct (query r (token sg name) x3) as [x4| |m4] eqn:E4; cbn [andThen];
    [|discriminate | now apply (sigils_no_panic x3 m4) in E4].
  destruct (numbered r (token sg name) x4) as [x5| |m5] eqn:E5; cbn [andThen];
    [|discriminate | intros _; now apply numbered_panic_form in E5].
  intros H. now apply (sigils_no_panic x5 msg) in H.
Qed.

End TokenBranches.

Lemma placeholdersLoop_panic (r : Request) (l : list string) (x msg : string) :
  placeholdersLoop r l x = Panic msg ->
  exists ph current, In ph l /\ resolve r ph current = Panic msg.
Proof.
  revert x. induction l as [|ph l IH]; intros x; cbn [placeholdersLoop]; [discriminate|].
  destruct (resolve r ph x) as [y| |m] eqn:E; cbn [andThen]; [|discriminate|].
  - intros H. destruct (IH y H) as (ph' & current & Hin & Hr).
    exists ph', current. split; [now right | exact Hr].
  - intros [= <-]. exists ph, x. split; [now left | exact E].
Qed.

Lemma render_panic_source (input : string) (r : Request) (pathSlice : list string)
      (msg : string) :
  parsePlaceholders input r pathSlice = Panicked msg ->
  exists c rest,
    In (String "{" (String c rest)) (FindAllStringSubmatch input)
    /\ isDigit c = true
    /\ forall l, regexMatches r = CtxSlice l ->
                 nat_of_ascii c - 48 = 0 \/ List.length l < nat_of_ascii c - 48.
Proof.
  unfold parsePlaceholders.
  destruct (placeholdersLoop r (FindAllStringSubmatch input) input) as [y| |m] eqn:E;
    [discriminate|discriminate|].
  intros [= <-]. destruct (placeholdersLoop_panic _ _ _ _ E) as (ph & current & Hin & Hr).
  destruct (FindAll_from_tokens _ _ _ Hin) as (sg & name & -> & Hsg & Hname).
  destruct (resolve_panic_form r sg name Hsg Hname _ _ Hr) as (c & rest & -> & -> & Hd & Hl).
  exists c, (rest ++ "}"). now repeat split.
Qed.

(** X8: a panic of the rendering comes from a placeholder whose first
    byte after the brace is a digit, on a request that holds no slice of
    positional captures which that digit indexes (the digit is 0, or the
    slice is shorter).  No other indexing or slicing of the code goes out
    of bounds. *)
Theorem panics_come_from_digit_tokens (input : string) (r : Request)
        (pathSlice : list string) (msg : string) :
  parsePlaceholders input r pathSlice = Panicked msg ->
  exists c rest,
    In (String "{" (String c rest)) (FindAllStringSubmatch input)
    /\ isDigit c = true
    /\ forall l, regexMatches r = CtxSlice l ->
                 nat_of_ascii c - 48 = 0 \/ List.length l < nat_of_ascii c - 48.
Proof. apply render_panic_source. Qed.

Lemma panics_come_from_digit_tokens_witness :
  exists c rest,
    In (String "{" (String c rest)) (FindAllStringSubmatch "{host}/{2}")
    /\ isDigit c = true
    /\ forall l, regexMatches (withCaptures (CtxSlice ["a"]) emptyRequest) = CtxSlice l ->
                 nat_of_ascii c - 48 = 0 \/ List.length l < nat_of_ascii c - 48.
Proof.
  exact (panics_come_from_digit_tokens "{host}/{2}"
           (withCaptures (CtxSlice ["a"]) emptyRequest) []
           "reflect: slice index out of range" eq_refl).
Defined.

(** X9: a template none of whose placeholders starts with "{label" or
    with a digit is rendered, on every request, without an error and
    without a panic. *)
Theorem render_succeeds_without_label_and_digit_tokens (input : string) (r : Request)
        (pathSlice : list string) :
  (forall ph, In ph (FindAllStringSubmatch input) ->
              strings.HasPrefix ph "{label" = false
              /\ forall c, String.get 1 ph = Some c -> isDigit c = false) ->
  exists output, parsePlaceholders input r pathSlice = Returned output None.
Proof.
  intros Hsafe. destruct (parsePlaceholders input r pathSlice) as [s [e|]|msg] eqn:E.
  - exfalso. unfold parsePlaceholders in E.
    destruct (placeholdersLoop r (FindAllStringSubmatch input) input) as [y|s' e'|] eqn:El;
      [discriminate| |discriminate].
    destruct (placeholdersLoop_return _ _ _ _ _ El)
      as (_ & before & ph & after & current & Hl & _ & Hr).
    destruct (resolve_return_form _ _ _ _ _ Hr) as [Hp _].
    destruct (Hsafe ph) as [Hno _]; [rewrite Hl; apply in_elt | congruence].
  - now exists s.
  - exfalso. destruct (render_panic_source _ _ _ _ E) as (c & rest & Hin & Hd & _).
    destruct (Hsafe _ Hin) as [_ Hno]. specialize (Hno c eq_refl). congruence.
Qed.

Lemma render_succeeds_without_label_and_digit_tokens_witness :
  exists output,
    parsePlaceholders "{uri}{>Referer}{~a}{?b}{name}{$1}" emptyRequest ["x"]
    = Returned output None.
Proof.
  apply render_succeeds_without_label_and_digit_tokens.
  intros ph Hin. cbv in Hin.
  repeat (destruct Hin as [<-|Hin]; [split; [reflexivity | now intros c [= <-]]|]).
  destruct Hin.
Defined.

(** ** The keywords *)

Ltac keyword_cases name :=
  repeat match goal with
  | |- context [String.eqb name ?k] =>
      destruct (String.eqb_spec name k) as [->|_]
  end.

(** On a string that the substitution leaves without a brace, the
    [switch] substitutes the value of the keyword. *)
Lemma keywords_value (r : Request) (name v x : string) :
  keywordValue r name = Some v ->
  braceFree (strings.Replace x (token "" name) v) = true ->
  keywords r (token "" name) x = strings.Replace x (token "" name) v.
Proof.
  unfold keywordValue, keywords.
  repeat match goal with
  | |- context [String.eqb (token "" name) ?k] =>
      change k with (token "" (substring 1 (String.length k - 2) k));
      cbn [substring String.length Nat.sub];
      rewrite eqb_token_plain
  end.
  keyword_cases name; try discriminate; try (intros [= <-] Hbf; reflexivity).
  intros [= <-]. destruct (BasicAuth r) as [[user pw]|]; [reflexivity|].
  intros Hbf. exact (Replace_braceFree "user}" "" _ Hbf).
Qed.

(** A keyword starts with a letter, is made of word characters and does
    not start with "label". *)
Lemma keywordValue_name (r : Request) (name v : string) :
  keywordValue r name = Some v ->
  exists c nm, name = String c nm /\ isLetter c = true
               /\ strings.HasPrefix name "label" = false /\ wordString name = true.
Proof.
  unfold keywordValue.
  keyword_cases name; try discriminate; intros _; eexists _, _; repeat split.
Qed.

Lemma resolve_keyword (r : Request) (name v x : string) :
  keywordValue r name = Some v ->
  braceFree (strings.Replace x (token "" name) v) = true ->
  resolve r (token "" name) x = Next (strings.Replace x (token "" name) v).
Proof.
  intros Hv Hbf. unfold resolve. rewrite (keywords_value _ _ _ _ Hv Hbf).
  destruct (keywordValue_name _ _ _ Hv) as (c & nm & E & Hc & Hl & Hw).
  rewrite label_other.
  2:{ unfold strings.HasPrefix, token in *. cbn [append]. rewrite prefix_cons.
      now rewrite prefix_before_close. }
  cbn [andThen]. subst name.
  destruct (isSigil_cases c (isWord_not_sigil c (isLetter_isWord c Hc))) as (H1 & H2 & H3).
  pose proof (isLetter_not_digit c Hc) as H4.
  skip_branches c. now apply named_braceFree.
Qed.

Lemma render_keyword (r : Request) (name v : string) (chunks pathSlice : list string) :
  keywordValue r name = Some v ->
  braceFree v = true -> forallb braceFree chunks = true ->
  parsePlaceholders (String.concat (token "" name) chunks) r pathSlice
  = Returned (String.concat v chunks) None.
Proof.
  intros Hv Hbf Hchunks.
  destruct (keywordValue_name _ _ _ Hv) as (c & nm & E & _ & _ & Hw).
  apply (render_subst r "" name eq_refl Hw v chunks pathSlice); try assumption.
  intros x Hx. now apply resolve_keyword.
Qed.

(** X10: in a template whose only tokens are occurrences of one keyword
    ({uri}, {dir}, {file}, {host}, {hostonly}, {method}, {path},
    {path_escaped}, {port}, {query}, {query_escaped}, {uri_escaped} or
    {user}) among text without an opening brace, every occurrence is
    replaced by the value of the keyword on the request, a value without
    an opening brace; {user} without basic authentication is replaced by
    the empty string.  Neither the captures nor any other part of the
    request changes the result. *)
Theorem keyword_token_rendered (r : Request) (name v : string)
        (chunks pathSlice : list string) :
  keywordValue r name = Some v ->
  braceFree v = true -> forallb braceFree chunks = true ->
  parsePlaceholders (String.concat (token "" name) chunks) r pathSlice
  = Returned (String.concat v chunks) None.
Proof. apply render_keyword. Qed.

Lemma keyword_token_rendered_witness :
  parsePlaceholders "https://{hostonly}/a?h={hostonly}"
    (withHost "example.com:8080" emptyRequest) ["x"]
  = Returned "https://example.com/a?h=example.com" None.
Proof.
  exact (keyword_token_rendered (withHost "example.com:8080" emptyRequest)
           "hostonly" "example.com" ["https://"; "/a?h="; ""] ["x"]
           eq_refl eq_refl eq_refl).
Defined.

(** X11: the escaped keywords cannot bring a token into the output:
    whatever the path, the query and the request URI hold, a template
    whose only tokens are occurrences of {path_escaped}, of
    {query_escaped} or of {uri_escaped} among text without an opening
    brace is rendered to that text with the escaped value at every
    occurrence, and the escaped value holds no opening brace. *)
Theorem escaped_keywords_rendered (r : Request) (chunks pathSlice : list string) :
  forallb braceFree chunks = true ->
  parsePlaceholders (String.concat "{path_escaped}" chunks) r pathSlice
  = Returned (String.concat (url.QueryEscape (Path (Url r))) chunks) None
  /\ parsePlaceholders (String.concat "{query_escaped}" chunks) r pathSlice
     = Returned (String.concat (url.QueryEscape (RawQuery (Url r))) chunks) None
  /\ parsePlaceholders (String.concat "{uri_escaped}" chunks) r pathSlice
     = Returned (String.concat (url.QueryEscape (RequestURI (Url r))) chunks) None
  /\ forall s, braceFree (url.QueryEscape s) = true.
Proof.
  intros Hchunks. split; [|split; [|split]].
  - apply (render_keyword r "path_escaped"); [reflexivity | apply QueryEscape_braceFree | exact Hchunks].
  - apply (render_keyword r "query_escaped"); [reflexivity | apply QueryEscape_braceFree | exact Hchunks].
  - apply (render_keyword r "uri_escaped"); [reflexivity | apply QueryEscape_braceFree | exact Hchunks].
  - apply QueryEscape_braceFree.
Qed.

Lemma escaped_keywords_rendered_witness :
  parsePlaceholders "/to?p={path_escaped}"
    {| Method := "GET"; Host := "example.com";
       Url := {| Path := "/a b/{$1}"; RawQuery := ""; RequestURI := "/a%20b/%7B$1%7D";
                 Port := ""; Query := [] |};
       Header := []; Cookies := []; BasicAuth := None; regexMatches := CtxNil |}
    ["x"]
  = Returned "/to?p=%2Fa+b%2F%7B%241%7D" None.
Proof.
  exact (proj1 (escaped_keywords_rendered
                  {| Method := "GET"; Host := "example.com";
                     Url := {| Path := "/a b/{$1}"; RawQuery := "";
                               RequestURI := "/a%20b/%7B$1%7D";
                               Port := ""; Query := [] |};
                     Header := []; Cookies := []; BasicAuth := None;
                     regexMatches := CtxNil |}
                  ["/to?p="; ""] ["x"] eq_refl)).
Defined.

(** ** Query tokens *)

Lemma resolve_query (r : Request) (name x : string) :
  wordString name = true ->
  braceFree (strings.Replace x (token "?" name) (Get (Query (Url r)) name)) = true ->
  resolve r (token "?" name) x
  = Next (strings.Replace x (token "?" name) (Get (Query (Url r)) name)).
Proof.
  intros Hname Hbf. unfold resolve.
  rewrite keywords_sigil by reflexivity.
  rewrite label_other by reflexivity. cbn [andThen].
  skip_branches "?"%char.
  unfold query at 1. rewrite byte1_sigil, Ascii.eqb_refl, body_token_name.
  cbn [andThen]. skip_branches "?"%char.
  now apply named_braceFree.
Qed.

Lemma Get_absent (q : list (string * list string)) (name : string) :
  ~ In name (map fst q) -> Get q name = "".
Proof.
  induction q as [|[k vs] q IH]; [reflexivity|]. cbn [map fst In Get]. intros H.
  destruct (String.eqb_spec k name) as [->|n]; [exfalso; auto | apply IH; auto].
Qed.

(** X12: in a template whose only tokens are occurrences of a query
    token {?name} among text without an opening brace, every occurrence
    is replaced by the first value of the parameter [name] of the query
    (a value without an opening brace).  A parameter that the query does
    not hold is no miss as for a cookie or a header: the token is
    replaced by the empty string. *)
Theorem query_token_rendered (r : Request) (name : string)
        (chunks pathSlice : list string) :
  wordString name = true ->
  braceFree (Get (Query (Url r)) name) = true ->
  forallb braceFree chunks = true ->
  parsePlaceholders (String.concat (token "?" name) chunks) r pathSlice
  = Returned (String.concat (Get (Query (Url r)) name) chunks) None
  /\ (~ In name (map fst (Query (Url r))) ->
      parsePlaceholders (String.concat (token "?" name) chunks) r pathSlice
      = Returned (String.concat "" chunks) None).
Proof.
  intros Hname Hv Hchunks.
  assert (H : parsePlaceholders (String.concat (token "?" name) chunks) r pathSlice
              = Returned (String.concat (Get (Query (Url r)) name) chunks) None).
  { apply (render_subst r "?" name eq_refl Hname); try assumption.
    intros x Hx. now apply resolve_query. }
  split; [exact H|]. intros Hno. now rewrite H, Get_absent.
Qed.

Lemma query_token_rendered_witness :
  parsePlaceholders "/search/{?q}/{?q}" emptyRequest ["x"] = Returned "/search//" None.
Proof.
  refine (proj2 (query_token_rendered emptyRequest "q" ["/search/"; "/"; ""] ["x"]
                   eq_refl eq_refl eq_refl) _).
  intros [].
Defined.

(** ** Numbered captures within the slice *)

Section NumberedToken.

Variables (r : Request) (d : ascii) (rest : string) (matches : list string).
Hypothesis Hd : isDigit d = true.
Hypothesis Hrest : allWord rest = true.
Hypothesis Hm : regexMatches r = CtxSlice matches.
Hypothesis Hlo : 1 <= nat_of_ascii d - 48.
Hypothesis Hhi : nat_of_ascii d - 48 <= List.length matches.

Lemma resolve_numbered (x : string) :
  braceFree (strings.Replace x (token "" (String d rest))
               (nth (nat_of_ascii d - 49) matches "")) = true ->
  resolve r (token "" (String d rest)) x
  = Next (strings.Replace x (token "" (String d rest))
            (nth (nat_of_ascii d - 49) matches "")).
Proof.
  intros Hbf. unfold resolve.
  pose proof (isDigit_range d Hd) as Hr.
  rewrite keywords_plain.
  2:{ unfold isReserved, reserved. cbn [existsb].
      repeat match goal with
      | |- context [String.eqb (String d rest) (String ?c ?s)] =>
          replace (String.eqb (String d rest) (String c s)) with false
            by (symmetry; apply String.eqb_neq; intros [= E _]; subst d; discriminate Hd)
      end.
      reflexivity. }
  rewrite label_other.
  2:{ unfold strings.HasPrefix, token. cbn [append]. rewrite prefix_cons.
      apply prefix_head. intros E. subst d. discriminate Hd. }
  cbn [andThen].
  destruct (isSigil_cases d (isWord_not_sigil d (isDigit_isWord d Hd))) as (H1 & H2 & H3).
  skip_branches d.
  unfold numbered, byte1.
  replace (String.get 1 (token "" (String d rest))) with (Some d) by reflexivity.
  rewrite Hd, (Atoi_digit d Hd), Hm.
  destruct (_ <? 0)%Z eqn:E1; [apply Z.ltb_lt in E1; lia|].
  destruct (_ <=? _)%Z eqn:E2; [apply Z.leb_le in E2; lia|].
  cbn [orb andThen].
  replace (Z.to_nat (Z.of_nat (nat_of_ascii d) - 48 - 1)) with (nat_of_ascii d - 49) by lia.
  now apply named_braceFree.
Qed.

End NumberedToken.

(** X13: a token that starts with a digit is rendered from the
    positional captures by its first digit alone: in a template whose
    only tokens are occurrences of {d...}, d a digit from 1 to the number
    of captures and any word characters after it, among text without an
    opening brace, every occurrence is replaced by the d-th capture (one
    without an opening brace).  So {12} and {1x} are rendered as {1}. *)
Theorem numbered_token_rendered (r : Request) (d : ascii) (rest : string)
        (matches chunks pathSlice : list string) :
  isDigit d = true -> allWord rest = true ->
  regexMatches r = CtxSlice matches ->
  1 <= nat_of_ascii d - 48 <= List.length matches ->
  braceFree (nth (nat_of_ascii d - 49) matches "") = true ->
  forallb braceFree chunks = true ->
  parsePlaceholders (String.concat (token "" (String d rest)) chunks) r pathSlice
  = Returned (String.concat (nth (nat_of_ascii d - 49) matches "") chunks) None.
Proof.
  intros Hd Hrest Hm [Hlo Hhi] Hv Hchunks.
  apply (render_subst r "" (String d rest) eq_refl); try assumption.
  - cbn [wordString allWord]. now rewrite (isDigit_isWord d Hd).
  - intros x Hx. now apply (resolve_numbered r d rest matches).
Qed.

Lemma numbered_token_rendered_witness :
  parsePlaceholders "/{12}/{12}" (withCaptures (CtxSlice ["a"; "b"]) emptyRequest) []
  = Returned "/a/a" None.
Proof.
  refine (numbered_token_rendered (withCaptures (CtxSlice ["a"; "b"]) emptyRequest)
            "1" "2" ["a"; "b"] ["/"; "/"; ""] [] eq_refl eq_refl eq_refl _ eq_refl eq_refl).
  cbn. lia.
Defined.

(** ** The host without its port, and its labels *)

(** X14: {hostonly} and the labels are computed from the text of the
    host before its first colon: that text holds no colon, and the host
    is that text alone or that text, a colon and a rest.  (The host
    "[::1]:80" gives "[".) *)
Theorem hostonly_is_the_text_before_the_first_colon (r : Request) :
  strings.Contains (hostonly r) ":" = false
  /\ (Host r = hostonly r \/ exists rest, Host r = hostonly r ++ String ":" rest).
Proof.
  unfold hostonly. destruct (strings.Contains (Host r) ":") eqn:E.
  - split; [|apply Split_hd].
    pose proof (Split_pieces (Host r) ":" ":" (or_introl eq_refl)) as H.
    pose proof (Split_nonempty (Host r) ":") as Hne.
    destruct (strings.Split (Host r) ":") as [|x xs]; [now destruct Hne|].
    now inversion H.
  - split; [exact E | now left].
Qed.

(** X15: the labels of {labelN} are the parts of the host without its
    port between the dots: joined with dots they give that text back,
    there is one more label than there are dots (so at least one, and a
    host with a trailing dot has an empty last label), and no label
    holds a dot or a colon. *)
Theorem labels_are_the_parts_between_the_dots (r : Request) :
  strings.Join (strings.Split (hostonly r) ".") "." = hostonly r
  /\ List.length (strings.Split (hostonly r) ".") = S (countByte "." (hostonly r))
  /\ Forall (fun l => strings.Contains l "." = false /\ strings.Contains l ":" = false)
            (strings.Split (hostonly r) ".").
Proof.
  split; [apply Split_Join | split; [apply Split_length|]].
  pose proof (Split_pieces (hostonly r) "." "." (or_introl eq_refl)) as Hdot.
  assert (Hc : strings.Contains (hostonly r) ":" = false).
  { unfold hostonly. destruct (strings.Contains (Host r) ":") eqn:E; [|exact E].
    pose proof (Split_pieces (Host r) ":" ":" (or_introl eq_refl)) as H.
    pose proof (Split_nonempty (Host r) ":") as Hne.
    destruct (strings.Split (Host r) ":") as [|x xs]; [now destruct Hne|].
    now inversion H. }
  pose proof (Split_pieces (hostonly r) "." ":" (or_intror Hc)) as Hcolon.
  rewrite Forall_forall in *. intros l Hl. split; [now apply Hdot | now apply Hcolon].
Qed.

(** ** Templates of text and tokens *)

(** X16: on a request none of whose values holds an opening brace, the
    rendering of a template made of text without an opening brace and of
    any tokens, each of which is rendered alone without an error, is the
    renderings of its parts one after the other: no token changes what
    becomes of another, nor does the order of the tokens or the path
    slice. *)
Theorem render_is_compositional (r : Request) (items : list item)
        (pathSlice : list string) :
  forallb braceFree (requestValues r) = true ->
  forallb itemOk items = true ->
  (forall sg name, In (Tok sg name) items ->
     exists v, parsePlaceholders (token sg name) r [] = Returned v None) ->
  parsePlaceholders (showItems items) r pathSlice = Returned (renderItems r items) None.
Proof.
  intros Hr Hitems Halone. unfold parsePlaceholders.
  pose proof (itemOk_inert items Hitems) as Hinert.
  rewrite FindAll_items by exact Hinert.
  destruct (loop_items r (tokensOf items) items
              (tokens_go_on r items Hr Hinert Halone) Hinert) as [Hloop Hok].
  rewrite Hloop, pathLoop_items by exact (Hok Hitems). f_equal.
  apply showItems_settled; [exact Hitems|]. intros sg name. apply in_tokensOf.
Qed.

Lemma render_is_compositional_witness :
  parsePlaceholders "https://{label1}.{hostonly}/{~s}{>Referer}{?q}{label1}"
    (withCookies [("s", "1")] (withHost "a.example.com:80" emptyRequest)) ["x"]
  = Returned "https://a.a.example.com/1{>Referer}a" None.
Proof.
  refine (render_is_compositional
            (withCookies [("s", "1")] (withHost "a.example.com:80" emptyRequest))
            [Text "https://"; Tok "" "label1"; Text "."; Tok "" "hostonly"; Text "/";
             Tok "~" "s"; Tok ">" "Referer"; Tok "?" "q"; Tok "" "label1"]
            ["x"] eq_refl eq_refl _).
  intros sg name Hin. cbn [In] in Hin.
  repeat (destruct Hin as [Hin|Hin];
          [first [discriminate Hin
                 | injection Hin as <- <-; eexists; vm_compute; reflexivity]|]).
  destruct Hin.
Defined.

(** X17: on such a request and template, the first token whose
    rendering alone fails decides: the rendering of the template returns
    the error of that token, or panics as it does, whatever comes after
    it. *)
Theorem first_failing_token_decides (r : Request) (pre post : list item)
        (sg name : string) (pathSlice : list string) :
  forallb braceFree (requestValues r) = true ->
  forallb itemOk (pre ++ Tok sg name :: post) = true ->
  (forall sg' name', In (Tok sg' name') pre ->
     exists v, parsePlaceholders (token sg' name') r [] = Returned v None) ->
  (forall v, parsePlaceholders (token sg name) r [] <> Returned v None) ->
  parsePlaceholders (showItems (pre ++ Tok sg name :: post)) r pathSlice
  = parsePlaceholders (token sg name) r [].
Proof.
  intros Hr Hitems Halone Hfail.
  pose proof Hitems as Hparts. rewrite forallb_app in Hparts.
  apply andb_true_iff in Hparts as [Hpre Hrest]. cbn [forallb itemOk] in Hrest.
  apply andb_true_iff in Hrest as [Htok _]. apply andb_true_iff in Htok as [Hsg Hname].
  unfold parsePlaceholders at 1.
  rewrite FindAll_items by exact (itemOk_inert _ Hitems).
  rewrite tokensOf_app. cbn [tokensOf]. rewrite placeholdersLoop_app.
  destruct (loop_items r (tokensOf pre) (pre ++ Tok sg name :: post)
              (tokens_go_on r pre Hr (itemOk_inert _ Hpre) Halone)
              (itemOk_inert _ Hitems)) as [Hloop _].
  rewrite Hloop. cbn [andThen placeholdersLoop].
  rewrite render_token_alone in * by assumption.
  destruct (resolve_uniform r (token sg name) Hr) as [(ws & Hws & Hres)|(res & Hres & Hf)].
  - exfalso. rewrite Hres in Hfail. exact (Hfail _ eq_refl).
  - rewrite !Hf. destruct res as [y| |]; [now destruct (Hres y) | reflexivity..].
Qed.

Lemma first_failing_token_decides_witness :
  parsePlaceholders "/{host}/{label3}/{1}" emptyRequest ["x"]
  = Returned "" (Some (Errorf "Cannot parse a label greater than 2")).
Proof.
  refine (first_failing_token_decides emptyRequest
            [Text "/"; Tok "" "host"; Text "/"] [Text "/"; Tok "" "1"]
            "" "label3" ["x"] eq_refl eq_refl _ _).
  - intros sg name Hin. cbn [In] in Hin.
    repeat (destruct Hin as [Hin|Hin];
            [first [discriminate Hin
                   | injection Hin as <- <-; eexists; vm_compute; reflexivity]|]).
    destruct Hin.
  - intros v. vm_compute. discriminate.
Defined.

(** ** Header keys that differ by case only *)

Lemma headerLoop_braceFree (h : list (string * list string)) (w want x : string) :
  braceFree x = true -> headerLoop h (String "{" w) want x = x.
Proof.
  intros Hx. induction h as [|[key values] h IH]; cbn [headerLoop]; [reflexivity|].
  destruct (strings.EqualFold key want); [|exact IH].
  now rewrite Replace_braceFree.
Qed.

(** The first key visited that is the name up to case takes the token;
    nothing is left for a later one. *)
Lemma headerLoop_first (h : list (string * list string)) (w want key x : string)
      (values : list string) :
  find (fun kv => strings.EqualFold (fst kv) want) h = Some (key, values) ->
  braceFree (strings.Replace x (String "{" w) (strings.Join values ",")) = true ->
  headerLoop h (String "{" w) want x
  = strings.Replace x (String "{" w) (strings.Join values ",").
Proof.
  induction h as [|[k0 v0] h IH]; [discriminate|]. cbn [find fst headerLoop].
  destruct (strings.EqualFold k0 want).
  - intros [= -> ->] Hbf. now apply headerLoop_braceFree.
  - exact IH.
Qed.

(** X18: when several keys of the header map are the name of a header
    token up to case (up to the case folding of Unicode: the Kelvin sign
    is "k"), the key that the loop visits first decides: in a
    template whose only tokens are occurrences of {>Name} among text
    without an opening brace, every occurrence is replaced by the joined
    values of that key (holding no opening brace), whatever the keys
    visited later hold. *)
Theorem first_matching_header_wins (r : Request) (name key : string)
        (values chunks pathSlice : list string) :
  wordString name = true -> forallb braceFree chunks = true ->
  find (fun kv => strings.EqualFold (fst kv) name) (Header r) = Some (key, values) ->
  braceFree (strings.Join values ",") = true ->
  parsePlaceholders (String.concat (token ">" name) chunks) r pathSlice
  = Returned (String.concat (strings.Join values ",") chunks) None.
Proof.
  intros Hname Hchunks Hfind Hv.
  apply (render_subst r ">" name eq_refl Hname); try assumption.
  intros x Hx. unfold resolve.
  rewrite keywords_sigil by reflexivity.
  rewrite label_other by reflexivity. cbn [andThen].
  rewrite resolve_header_loop.
  rewrite token_cons in *. rewrite (headerLoop_first _ _ _ _ _ _ Hfind Hx).
  rewrite <- token_cons in *.
  skip_branches ">"%char.
  now apply named_braceFree.
Qed.

Lemma first_matching_header_wins_witness :
  parsePlaceholders "{>referer}/{>referer}"
    (withHeader [("Accept", ["x"]); ("referer", ["b"; "c"]); ("Referer", ["a"])]
       emptyRequest) []
  = Returned "b,c/b,c" None
  /\ parsePlaceholders "{>k}"
       (withHeader [(kelvinSign, ["a"]); ("k", ["b"])] emptyRequest) []
     = Returned "a" None.
Proof.
  split.
  - exact (first_matching_header_wins
             (withHeader [("Accept", ["x"]); ("referer", ["b"; "c"]); ("Referer", ["a"])]
                emptyRequest)
             "referer" "referer" ["b"; "c"] [""; "/"; ""] []
             eq_refl eq_refl eq_refl eq_refl).
  - exact (first_matching_header_wins
             (withHeader [(kelvinSign, ["a"]); ("k", ["b"])] emptyRequest)
             "k" kelvinSign ["a"] [""; ""] [] eq_refl eq_refl eq_refl eq_refl).
Defined.
